(** * obsidian-contacts: the contact repository, its frontmatter codec and
      the next-contact date arithmetic

    A shallow embedding of [src/ContactManager.ts], of the [Contact]
    interface of [src/types.ts], of [calculateNextContact] and of the
    buttons and format checks of the dialog of [main.ts], and of
    [formatDate] and the loop of [onOpen] of [src/ContactView.ts],
    together with the parts of the host they call: JavaScript strings
    and regular expressions, the ECMAScript [Date] object with a local
    zone whose offset may change, and the Obsidian [Vault]. *)

From Stdlib Require Import ZArith Lia Ascii String List Bool.
From stdpp Require Import base option gmap strings list.

Local Open Scope Z_scope.

(* ===================================================================== *)
(** * Part I: definitions                                                 *)
(* ===================================================================== *)

(** ** JavaScript strings

    A string is a sequence of code units; a code unit is modelled by an
    8-bit [ascii], that is, the Latin-1 part of UTF-16. *)

Module JsString.

Definition code (c : ascii) : N := N_of_ascii c.

Definition newline : ascii := ascii_of_N 10.
Definition colon : ascii := ":"%char.
Definition comma : ascii := ","%char.
Definition dash : ascii := "-"%char.

Definition nl : string := String newline "".

(** [WhiteSpace] and [LineTerminator] code units below 256: what
    [String.prototype.trim] strips and what [\s] matches. *)
Definition is_ws (c : ascii) : bool :=
  let n := code c in
  ((9 <=? n) && (n <=? 13) || (n =? 32) || (n =? 160))%N.

(** The character class [[a-zA-Z0-9]]. *)
Definition is_alnum (c : ascii) : bool :=
  let n := code c in
  ((48 <=? n) && (n <=? 57) || (65 <=? n) && (n <=? 90)
   || (97 <=? n) && (n <=? 122))%N.

Definition is_digit (c : ascii) : bool :=
  let n := code c in ((48 <=? n) && (n <=? 57))%N.

Definition isEmpty (s : string) : bool :=
  match s with EmptyString => true | String _ _ => false end.

Fixpoint map_chars (f : ascii -> ascii) (s : string) : string :=
  match s with
  | EmptyString => EmptyString
  | String c s' => String (f c) (map_chars f s')
  end.

(** [s.startsWith(p)] *)
Fixpoint startsWith (p s : string) : bool :=
  match p, s with
  | EmptyString, _ => true
  | String a p', String b s' => Ascii.eqb a b && startsWith p' s'
  | String _ _, EmptyString => false
  end.

(** [s.endsWith(p)] *)
Definition endsWith (p s : string) : bool :=
  startsWith (String.rev p) (String.rev s).

(** [s.includes(c)] for a single code unit. *)
Fixpoint contains (c : ascii) (s : string) : bool :=
  match s with
  | EmptyString => false
  | String a s' => Ascii.eqb a c || contains c s'
  end.

Fixpoint trimStart (s : string) : string :=
  match s with
  | EmptyString => EmptyString
  | String c s' => if is_ws c then trimStart s' else s
  end.

Fixpoint trimEnd (s : string) : string :=
  match s with
  | EmptyString => EmptyString
  | String c s' =>
      let r := trimEnd s' in
      if is_ws c && isEmpty r then EmptyString else String c r
  end.

(** [s.trim()] *)
Definition trim (s : string) : string := trimEnd (trimStart s).

(** [s.split(sep)] for a one-unit separator: never the empty array. *)
Fixpoint split (sep : ascii) (s : string) : list string :=
  match s with
  | EmptyString => [EmptyString]
  | String c s' =>
      if Ascii.eqb c sep then EmptyString :: split sep s'
      else match split sep s' with
           | w :: ws => String c w :: ws
           | [] => [String c EmptyString]
           end
  end.

(** [a.join(sep)] *)
Fixpoint join (sep : string) (l : list string) : string :=
  match l with
  | [] => EmptyString
  | [x] => x
  | x :: rest => x +:+ sep +:+ join sep rest
  end.

(** [s.padStart(n, "0")] *)
Definition padStart0 (n : nat) (s : string) : string :=
  String.concat "" (repeat "0" (n - String.length s)) +:+ s.

(** [s.replace(/[^a-zA-Z0-9]/g, '-')] *)
Definition replaceNonAlnum (s : string) : string :=
  map_chars (fun c => if is_alnum c then c else dash) s.

(** Decimal digits of a non-negative integer. *)
Definition digit (d : Z) : ascii := ascii_of_N (48 + Z.to_N d).

Fixpoint digits_fuel (fuel : nat) (n : Z) (acc : string) : string :=
  match fuel with
  | O => acc
  | S fuel' =>
      let acc' := String (digit (n mod 10)) acc in
      if n <? 10 then acc' else digits_fuel fuel' (n / 10) acc'
  end.

Definition digits (n : Z) : string :=
  digits_fuel (S (Z.to_nat (Z.log2 n))) n "".

(** [Number.prototype.toString] on an integral number. *)
Definition intToString (n : Z) : string :=
  if n <? 0 then String dash (digits (- n)) else digits n.

End JsString.

Import JsString.

(** ** The ECMAScript [Date] object

    Time values are integral milliseconds since the epoch; [None] is
    [NaN], the time value of an Invalid Date.  The definitions follow
    ECMA-262, section 21.4.1 (Day, YearFromTime, MakeDay, TimeClip, ...).
    What the standard leaves to the implementation is taken from the
    host: the offset of the local time zone, which may change with the
    time (daylight saving, changes of the zone's rules), the clock, and
    the parser used for strings that are not in the date-time string
    format. *)

Module JsDate.

(** A JavaScript number holding an integer, or [NaN]. *)
Definition number : Type := option Z.

(** [LocalTZA h t isUTC] is the offset of local time from UTC, in
    milliseconds: at the time value [t] when [isUTC] holds, and at the
    local time [t] otherwise (ECMA-262, LocalTZA(t, isUTC)).  A local
    time that a change of offset skips or repeats is to be taken with
    the offset before the change. *)
Record Host : Type := mkHost {
  LocalTZA : Z -> bool -> Z;           (* local offset from UTC, in ms *)
  now : Z;                             (* time value of [new Date()]   *)
  legacyParse : string -> option Z     (* implementation-defined parse *)
}.

Definition msPerDay : Z := 86400000.
Definition msPerHour : Z := 3600000.
Definition msPerMinute : Z := 60000.
Definition msPerSecond : Z := 1000.
Definition maxTime : Z := 8640000000000000.

Definition host_ok (h : Host) : Prop :=
  (forall t isUTC, - msPerDay < LocalTZA h t isUTC < msPerDay)
  /\ - maxTime <= now h <= maxTime.

Definition Day (t : Z) : Z := t / msPerDay.
Definition TimeWithinDay (t : Z) : Z := t mod msPerDay.

Definition DaysInYear (y : Z) : Z :=
  if negb (y mod 4 =? 0) then 365
  else if negb (y mod 100 =? 0) then 366
  else if negb (y mod 400 =? 0) then 365
  else 366.

Definition DayFromYear (y : Z) : Z :=
  365 * (y - 1970) + (y - 1969) / 4 - (y - 1901) / 100 + (y - 1601) / 400.

Definition TimeFromYear (y : Z) : Z := msPerDay * DayFromYear y.

(** The largest [y] with [TimeFromYear y <= t]: an estimate from the
    mean year length, corrected by at most one. *)
Definition YearFromDay (d : Z) : Z :=
  let y0 := 1970 + (400 * d) / 146097 in
  if d <? DayFromYear y0 then y0 - 1
  else if DayFromYear (y0 + 1) <=? d then y0 + 1
  else y0.

Definition YearFromTime (t : Z) : Z := YearFromDay (Day t).

Definition InLeapYear (t : Z) : Z :=
  if DaysInYear (YearFromTime t) =? 366 then 1 else 0.

Definition DayWithinYear (t : Z) : Z :=
  Day t - DayFromYear (YearFromTime t).

(** Day number within the year of the first day of month [m] (0-based),
    [leap] being 1 in a leap year and 0 otherwise. *)
Definition monthStart (m leap : Z) : Z :=
  match m with
  | 0 => 0 | 1 => 31 | 2 => 59 + leap | 3 => 90 + leap
  | 4 => 120 + leap | 5 => 151 + leap | 6 => 181 + leap
  | 7 => 212 + leap | 8 => 243 + leap | 9 => 273 + leap
  | 10 => 304 + leap | _ => 334 + leap
  end.

Definition MonthFromTime (t : Z) : Z :=
  let d := DayWithinYear t in
  let l := InLeapYear t in
  if d <? 31 then 0
  else if d <? 59 + l then 1
  else if d <? 90 + l then 2
  else if d <? 120 + l then 3
  else if d <? 151 + l then 4
  else if d <? 181 + l then 5
  else if d <? 212 + l then 6
  else if d <? 243 + l then 7
  else if d <? 273 + l then 8
  else if d <? 304 + l then 9
  else if d <? 334 + l then 10
  else 11.

Definition DateFromTime (t : Z) : Z :=
  DayWithinYear t + 1 - monthStart (MonthFromTime t) (InLeapYear t).

Definition HourFromTime (t : Z) : Z := (t / msPerHour) mod 24.
Definition MinFromTime (t : Z) : Z := (t / msPerMinute) mod 60.
Definition SecFromTime (t : Z) : Z := (t / msPerSecond) mod 60.
Definition msFromTime (t : Z) : Z := t mod msPerSecond.

Definition MakeTime (hour min sec ms : Z) : Z :=
  hour * msPerHour + min * msPerMinute + sec * msPerSecond + ms.

Definition MakeDay (year month date : Z) : Z :=
  let ym := year + month / 12 in
  let mn := month mod 12 in
  let leap := if DaysInYear ym =? 366 then 1 else 0 in
  DayFromYear ym + monthStart mn leap + date - 1.

Definition MakeDate (day time : Z) : Z := day * msPerDay + time.

Definition TimeClip (tv : Z) : number :=
  if maxTime <? Z.abs tv then None else Some tv.

Section WithHost.
Variable h : Host.

(** [LocalTime(t)] and [UTC(t)] of ECMA-262: from a time value to the
    local time shown for it, and from a local time to the time value it
    is read as. *)
Definition LocalTime (t : Z) : Z := t + LocalTZA h t true.
Definition UTC (t : Z) : Z := t - LocalTZA h t false.

(** A [Date] object is its time value. *)
Definition getFullYear (d : number) : number :=
  t ← d; Some (YearFromTime (LocalTime t)).
Definition getMonth (d : number) : number :=
  t ← d; Some (MonthFromTime (LocalTime t)).
Definition getDate (d : number) : number :=
  t ← d; Some (DateFromTime (LocalTime t)).
Definition getHours (d : number) : number :=
  t ← d; Some (HourFromTime (LocalTime t)).
Definition getMinutes (d : number) : number :=
  t ← d; Some (MinFromTime (LocalTime t)).

(** [d.setDate(date)]: the new time value of [d]. *)
Definition setDate (d : number) (date : number) : number :=
  t ← d; dt ← date;
  let t := LocalTime t in
  let newDate :=
    MakeDate (MakeDay (YearFromTime t) (MonthFromTime t) dt)
             (TimeWithinDay t) in
  TimeClip (UTC newDate).

(** [d.setMonth(month)] *)
Definition setMonth (d : number) (month : number) : number :=
  t ← d; m ← month;
  let t := LocalTime t in
  let newDate :=
    MakeDate (MakeDay (YearFromTime t) m (DateFromTime t))
             (TimeWithinDay t) in
  TimeClip (UTC newDate).

(** [d.setFullYear(year)]: an Invalid Date is taken as time 0. *)
Definition setFullYear (d : number) (year : number) : number :=
  let t := match d with Some t => LocalTime t | None => 0 end in
  y ← year;
  let newDate :=
    MakeDate (MakeDay y (MonthFromTime t) (DateFromTime t))
             (TimeWithinDay t) in
  TimeClip (UTC newDate).
End WithHost.

(** [x + k] on numbers. *)
Definition plus (x : number) (k : Z) : number := n ← x; Some (n + k).

(** [`${x}`] for a number. *)
Definition numberToString (x : number) : string :=
  match x with Some n => intToString n | None => "NaN" end.

(** *** Parsing

    The date-time string format of ECMA-262 (21.4.1.32) with a
    four-digit year: [YYYY-MM-DD], optionally followed by [THH:mm],
    [THH:mm:ss] or [THH:mm:ss.sss], optionally followed by [Z].  A
    date-only string is UTC, a date-time without [Z] is local time.
    Every other string, also one with a field out of range, is left to
    the host's [legacyParse]. *)

Definition DaysInMonth (y m : Z) : Z := MakeDay y (m + 1) 1 - MakeDay y m 1.

Fixpoint takeDigits (n : nat) (acc : Z) (s : string) : option (Z * string) :=
  match n with
  | O => Some (acc, s)
  | S n' =>
      match s with
      | String c s' =>
          if is_digit c
          then takeDigits n' (10 * acc + (Z.of_N (code c) - 48)) s'
          else None
      | EmptyString => None
      end
  end.

Definition expect (c : ascii) (s : string) : option string :=
  match s with
  | String a s' => if Ascii.eqb a c then Some s' else None
  | EmptyString => None
  end.

Definition parseDatePart (s : string) : option (Z * string) :=
  '(y, s) ← takeDigits 4 0 s;
  s ← expect "-" s;
  '(m, s) ← takeDigits 2 0 s;
  s ← expect "-" s;
  '(d, s) ← takeDigits 2 0 s;
  if (1 <=? m) && (m <=? 12) && (1 <=? d) && (d <=? DaysInMonth y (m - 1))
  then Some (MakeDay y (m - 1) d, s)
  else None.

Definition parseSeconds (s : string) : option (Z * string) :=
  match expect ":" s with
  | None => Some (0, s)
  | Some s =>
      '(sec, s) ← takeDigits 2 0 s;
      if 59 <? sec then None
      else match expect "." s with
           | None => Some (sec * msPerSecond, s)
           | Some s =>
               '(ms, s) ← takeDigits 3 0 s;
               Some (sec * msPerSecond + ms, s)
           end
  end.

Definition parseTimePart (s : string) : option (Z * string) :=
  s ← expect "T" s;
  '(hh, s) ← takeDigits 2 0 s;
  s ← expect ":" s;
  '(mm, s) ← takeDigits 2 0 s;
  '(rest, s) ← parseSeconds s;
  if (hh <=? 23) && (mm <=? 59)
  then Some (MakeTime hh mm 0 rest, s)
  else None.

(** The result says whether the time is UTC ([true]) or local. *)
Definition parseISO (s : string) : option (bool * Z) :=
  '(day, s) ← parseDatePart s;
  if isEmpty s then Some (true, MakeDate day 0)
  else
    '(time, s) ← parseTimePart s;
    if isEmpty s then Some (false, MakeDate day time)
    else if String.eqb s "Z" then Some (true, MakeDate day time)
    else None.

(** [new Date(s)]: the time value of the new object. *)
Definition parse (h : Host) (s : string) : number :=
  match parseISO s with
  | Some (true, t) => TimeClip t
  | Some (false, t) => TimeClip (UTC h t)
  | None => t ← legacyParse h s; TimeClip t
  end.

(** *** Printing *)

(** [n.toString().padStart(k, '0')] *)
Definition padNumber (k : nat) (x : number) : string :=
  padStart0 k (numberToString x).

(** [Date.prototype.toISOString] of a valid date. *)
Definition toISOString (t : Z) : string :=
  let y := YearFromTime t in
  let year :=
    if (0 <=? y) && (y <=? 9999) then padStart0 4 (intToString y)
    else String (if y <? 0 then "-"%char else "+"%char)
                (padStart0 6 (intToString (Z.abs y))) in
  year +:+ "-" +:+ padStart0 2 (intToString (MonthFromTime t + 1))
  +:+ "-" +:+ padStart0 2 (intToString (DateFromTime t))
  +:+ "T" +:+ padStart0 2 (intToString (HourFromTime t))
  +:+ ":" +:+ padStart0 2 (intToString (MinFromTime t))
  +:+ ":" +:+ padStart0 2 (intToString (SecFromTime t))
  +:+ "." +:+ padStart0 3 (intToString (msFromTime t)) +:+ "Z".

End JsDate.

Import JsDate.

(** ** [main.ts]: the next-contact date *)

Module Main.

Section WithHost.
Variable h : Host.

(** [const pad = (n: number) => n.toString().padStart(2, '0')] *)
Definition pad (n : number) : string := padNumber 2 n.

(** The template literal that ends [calculateNextContact]. *)
Definition formatLocal (date : number) : string :=
  numberToString (getFullYear h date)
  +:+ "-" +:+ pad (plus (getMonth h date) 1)
  +:+ "-" +:+ pad (getDate h date)
  +:+ "T" +:+ pad (getHours h date)
  +:+ ":" +:+ pad (getMinutes h date).

(** The [switch] of [calculateNextContact]: the time value of [date]
    after the setter call, [None] for the [default] branch. *)
Definition advance (date : number) (frequency : string) : option number :=
  if String.eqb frequency "weekly"
  then Some (setDate h date (plus (getDate h date) 7))
  else if String.eqb frequency "monthly"
  then Some (setMonth h date (plus (getMonth h date) 1))
  else if String.eqb frequency "quarterly"
  then Some (setMonth h date (plus (getMonth h date) 3))
  else if String.eqb frequency "yearly"
  then Some (setFullYear h date (plus (getFullYear h date) 1))
  else None.

Definition calculateNextContact (lastContacted frequency : string)
  : option string :=
  if isEmpty lastContacted || isEmpty frequency then None
  else
    let date := JsDate.parse h lastContacted in
    match advance date frequency with
    | Some date' => Some (formatLocal date')
    | None => None
    end.
End WithHost.

End Main.

Import Main.

(** ** The Obsidian vault

    The document store of the host: files and folders in the host's
    enumeration order.  Operations run one after the other on the event
    loop; an [Async] computation threads the vault and may throw, and
    what it changed before throwing stays changed. *)

Module Obsidian.

Inductive Exn : Type :=
| Error (message : string)
| TypeError (message : string).

Record FileStats : Type := mkStats { ctime : Z; mtime : Z }.

Inductive TAbstractFile : Type :=
| TFile (path : string) (data : string) (stat : FileStats)
| TFolder (path : string).

Definition path_of (f : TAbstractFile) : string :=
  match f with TFile p _ _ => p | TFolder p => p end.

Definition Vault : Type := list TAbstractFile.

Definition Async (A : Type) : Type := Vault -> (Exn + A) * Vault.

Definition ret {A} (a : A) : Async A := fun v => (inr a, v).
Definition throw {A} (e : Exn) : Async A := fun v => (inl e, v).
Definition bind {A B} (m : Async A) (k : A -> Async B) : Async B :=
  fun v => match m v with
           | (inr a, v') => k a v'
           | (inl e, v') => (inl e, v')
           end.
Definition getVault : Async Vault := fun v => (inr v, v).

(** [vault.getAbstractFileByPath(path)] *)
Definition getAbstractFileByPath (v : Vault) (p : string)
  : option TAbstractFile :=
  List.find (fun f => String.eqb (path_of f) p) v.

(** [vault.getMarkdownFiles()] *)
Definition getMarkdownFiles (v : Vault) : list TAbstractFile :=
  List.filter
    (fun f => match f with
              | TFile p _ _ => endsWith ".md" p
              | TFolder _ => false
              end) v.

(** [vault.read(file)] *)
Definition read (file : TAbstractFile) : Async string :=
  fun v => match getAbstractFileByPath v (path_of file) with
           | Some (TFile _ d _) => (inr d, v)
           | _ => (inl (Error "File not found"), v)
           end.

(** [vault.create(path, data)]: refuses a path that is taken. *)
Definition create (h : Host) (p data : string) : Async unit :=
  fun v => match getAbstractFileByPath v p with
           | Some _ => (inl (Error "File already exists."), v)
           | None => (inr tt, v ++ [TFile p data (mkStats (now h) (now h))])
           end.

(** [vault.modify(file, data)] *)
Definition modify (h : Host) (file : TAbstractFile) (data' : string)
  : Async unit :=
  fun v =>
    match getAbstractFileByPath v (path_of file) with
    | Some (TFile _ _ _) =>
        (inr tt,
         List.map (fun f => match f with
                       | TFile p d st =>
                           if String.eqb p (path_of file)
                           then TFile p data' (mkStats (ctime st) (now h))
                           else f
                       | TFolder _ => f
                       end) v)
    | _ => (inl (Error "File not found"), v)
    end.

(** The path of an entry after the entry at [old] moved to [new]. *)
Definition rebase (old new p : string) : string :=
  if String.eqb p old then new
  else if startsWith (old +:+ "/") p
  then new +:+ String.substring (String.length old)
                                 (String.length p - String.length old) p
  else p.

Definition withPath (p : string) (f : TAbstractFile) : TAbstractFile :=
  match f with
  | TFile _ d st => TFile p d st
  | TFolder _ => TFolder p
  end.

(** [vault.rename(file, newPath)]: refuses a destination that is
    taken; a folder takes what it contains along. *)
Definition rename (file : TAbstractFile) (newPath : string) : Async unit :=
  fun v =>
    match getAbstractFileByPath v (path_of file),
          getAbstractFileByPath v newPath with
    | None, _ => (inl (Error "File not found"), v)
    | Some _, Some _ => (inl (Error "Destination file already exists!"), v)
    | Some (TFile old _ _), None =>
        (inr tt,
         List.map (fun f => if String.eqb (path_of f) old
                       then withPath newPath f else f) v)
    | Some (TFolder old), None =>
        (inr tt,
         List.map (fun f => withPath (rebase old newPath (path_of f)) f) v)
    end.

End Obsidian.

Import Obsidian.

Notation "x <- m ;; k" := (Obsidian.bind m (fun x => k))
  (at level 100, m at next level, right associativity).
Notation "m ;;; k" := (Obsidian.bind m (fun _ => k))
  (at level 100, right associativity).

(** ** [src/types.ts]: the contact record

    The interface declares [name], [phone], [created] and [modified] as
    strings and the other fields as optional.  At run time every field
    can be [undefined]: the form builds a [Partial<Contact>] and casts it
    to [Contact].  [None] is [undefined]. *)

Record Contact : Type := mkContact {
  name : option string;
  email : option string;
  phone : option string;
  company : option string;
  title : option string;
  notes : option string;
  tags : option (list string);
  created : option string;
  modified : option string;
  last_contacted : option string;
  next_contact : option string;
  contact_frequency : option string
}.

(** [`${x}`] for a string or [undefined]. *)
Definition interp (x : option string) : string :=
  match x with Some s => s | None => "undefined" end.

(** Truthiness of a string or [undefined]. *)
Definition truthy (x : option string) : bool :=
  match x with Some s => negb (isEmpty s) | None => false end.

(** [x || y] *)
Definition orElse (x y : option string) : option string :=
  if truthy x then x else y.

(** ** [src/ContactManager.ts] *)

Module ContactManager.

(** [private createFrontMatter(contact)]: the lines pushed, in order. *)
Definition frontMatterLines (contact : Contact) : list string :=
  [ "name: " +:+ interp (name contact);
    "email: " +:+ interp (email contact);
    "phone: " +:+ interp (phone contact) ]
  ++ (if truthy (company contact)
      then ["company: " +:+ interp (company contact)] else [])
  ++ (if truthy (title contact)
      then ["title: " +:+ interp (title contact)] else [])
  ++ (match tags contact with
      | Some (t :: ts) => ["tags: " +:+ join ", " (t :: ts)]
      | _ => []
      end)
  ++ (if truthy (last_contacted contact)
      then ["last_contacted: " +:+ interp (last_contacted contact)] else [])
  ++ (if truthy (next_contact contact)
      then ["next_contact: " +:+ interp (next_contact contact)] else [])
  ++ (if truthy (contact_frequency contact)
      then ["contact_frequency: " +:+ interp (contact_frequency contact)]
      else [])
  ++ [ "created: " +:+ interp (created contact);
       "modified: " +:+ interp (modified contact) ].

Definition createFrontMatter (contact : Contact) : string :=
  join nl (frontMatterLines contact).

(** The template literal shared by [createContact] and [updateContact]. *)
Definition fileContent (contact : Contact) : string :=
  "---" +:+ nl +:+ createFrontMatter contact +:+ nl +:+ "---" +:+ nl +:+ nl
  +:+ "# " +:+ interp (name contact) +:+ nl +:+ nl
  +:+ interp (orElse (notes contact) (Some "")).

(** The lazy group [([\s\S]*?)] followed by [\n---]: the shortest
    prefix of [s] after which [\n---] stands. *)
Fixpoint lazyUntilFence (s : string) : option string :=
  if startsWith (nl +:+ "---") s then Some EmptyString
  else match s with
       | EmptyString => None
       | String c s' => String c <$> lazyUntilFence s'
       end.

(** [content.match(/^---\n([\s\S]*?)\n---/)]: the captured group. *)
Definition matchFrontMatter (content : string) : option string :=
  if startsWith ("---" +:+ nl) content
  then lazyUntilFence (String.substring 4 (String.length content - 4) content)
  else None.

(** One step of the [reduce] of [extractFrontMatter].  Assigning the
    key [__proto__] of a plain object stores nothing. *)
Definition parseLine (acc : gmap string string) (line : string)
  : gmap string string :=
  match List.map trim (split colon line) with
  | key :: values =>
      if negb (isEmpty key) && negb (Nat.eqb (List.length values) 0)
      then if String.eqb key "__proto__" then acc
           else <[ key := join ":" values ]> acc
      else acc
  | [] => acc
  end.

(** [private extractFrontMatter(content)] *)
Definition extractFrontMatter (content : string)
  : option (gmap string string) :=
  match matchFrontMatter content with
  | None => None
  | Some yaml => Some (List.fold_left parseLine (split newline yaml) ∅)
  end.

(** The object literal returned by [getContactFromFile]. *)
Definition contactOfFrontMatter (fm : gmap string string) (st : FileStats)
  : option Contact :=
  if negb (truthy (fm !! "name")) then None
  else
    let tags :=
      if truthy (fm !! "tags")
      then (fun t => List.map trim (split comma t)) <$> (fm !! "tags")
      else None in
    Some {| name := fm !! "name";
            email := orElse (fm !! "email") (Some "");
            phone := orElse (fm !! "phone") (Some "");
            company := fm !! "company";
            title := fm !! "title";
            notes := fm !! "notes";
            tags := tags;
            created := orElse (fm !! "created")
                              (Some (intToString (ctime st)));
            modified := orElse (fm !! "modified")
                               (Some (intToString (mtime st)));
            last_contacted := fm !! "last_contacted";
            next_contact := fm !! "next_contact";
            contact_frequency := fm !! "contact_frequency" |}.

(** Decoding a document text: [extractFrontMatter] and the field
    mapping of [getContactFromFile]. *)
Definition decode (content : string) (st : FileStats) : option Contact :=
  match extractFrontMatter content with
  | None => None
  | Some fm => contactOfFrontMatter fm st
  end.

Definition statOf (file : TAbstractFile) : FileStats :=
  match file with TFile _ _ st => st | TFolder _ => mkStats 0 0 end.

(** [async getContactFromFile(file)] *)
Definition getContactFromFile (file : TAbstractFile)
  : Async (option Contact) :=
  content <- read file ;;
  ret (decode content (statOf file)).

Section WithManager.
Variable h : Host.
Variable contactsFolder : string.

(** [`${contactsFolder}/${n.replace(/[^a-zA-Z0-9]/g, '-')}.md`] *)
Definition filePath (n : string) : string :=
  contactsFolder +:+ "/" +:+ replaceNonAlnum n +:+ ".md".

(** The loop of [getAllContacts]. *)
Fixpoint collectContacts (files : list TAbstractFile)
  (contacts : list Contact) : Async (list Contact) :=
  match files with
  | [] => ret contacts
  | file :: files' =>
      contact <- getContactFromFile file ;;
      collectContacts files'
        (match contact with
         | Some c => contacts ++ [c]
         | None => contacts
         end)
  end.

(** [async getAllContacts()] *)
Definition getAllContacts : Async (list Contact) :=
  v <- getVault ;;
  match getAbstractFileByPath v contactsFolder with
  | None => ret []
  | Some _ =>
      let files :=
        List.filter (fun file => startsWith contactsFolder (path_of file))
               (getMarkdownFiles v) in
      collectContacts files []
  end.

(** [x.replace(...)] on a value that may be [undefined]. *)
Definition derefName (x : option string) : Async string :=
  match x with
  | Some n => ret n
  | None =>
      throw (TypeError "Cannot read properties of undefined (reading 'replace')")
  end.

(** [async createContact(contact)] *)
Definition createContact (contact : Contact) : Async unit :=
  n <- derefName (name contact) ;;
  create h (filePath n) (fileContent contact).

(** [async updateContact(contact, originalName?)] *)
Definition updateContact (contact : Contact) (originalName : option string)
  : Async unit :=
  old <- derefName (orElse originalName (name contact)) ;;
  new <- derefName (name contact) ;;
  let oldFilePath := filePath old in
  let newFilePath := filePath new in
  v <- getVault ;;
  match getAbstractFileByPath v oldFilePath with
  | None => throw (Error "Original contact file not found")
  | Some file =>
      (if negb (String.eqb oldFilePath newFilePath)
       then rename file newFilePath else ret tt) ;;;
      v' <- getVault ;;
      match getAbstractFileByPath v' newFilePath with
      | Some (TFile p d st) =>
          modify h (TFile p d st) (fileContent contact)
      | _ => throw (Error "Updated contact file not found")
      end
  end.
End WithManager.

End ContactManager.

Import ContactManager.

(** ** [main.ts]: the "Mark as Contacted" button of [NewContactModal] *)

Module NewContactModal.

Record Modal : Type := mkModal {
  contact : Contact;               (* [this.contact], a [Partial<Contact>] *)
  isEdit : bool;
  originalName : option string
}.

Definition emptyContact : Contact :=
  mkContact None None None None None None None None None None None None.

(** [constructor(app, plugin, contact?)] *)
Definition construct (c : option Contact) : Modal :=
  match c with
  | Some c => mkModal c true (name c)
  | None => mkModal emptyContact false None
  end.

Definition with_last_contacted (x : option string) (c : Contact) : Contact :=
  mkContact (name c) (email c) (phone c) (company c) (title c) (notes c)
            (tags c) (created c) (modified c) x (next_contact c)
            (contact_frequency c).

Definition with_next_contact (x : option string) (c : Contact) : Contact :=
  mkContact (name c) (email c) (phone c) (company c) (title c) (notes c)
            (tags c) (created c) (modified c) (last_contacted c) x
            (contact_frequency c).

Definition with_modified (x : option string) (c : Contact) : Contact :=
  mkContact (name c) (email c) (phone c) (company c) (title c) (notes c)
            (tags c) (created c) x (last_contacted c) (next_contact c)
            (contact_frequency c).

Section WithPlugin.
Variable h : Host.
Variable contactsFolder : string.   (* of [plugin.contactManager] *)
Variable viewOpen : bool.           (* [plugin.contactView] is set  *)

(** The constant of the click handler. *)
Definition nowLocal : string := "2025-04-24T09:28".

(** [this.contact] after the first statements of the handler. *)
Definition markedContact (c : Contact) : Contact :=
  let c := with_last_contacted (Some nowLocal) c in
  if truthy (contact_frequency c)
  then with_next_contact
         (calculateNextContact h nowLocal (interp (contact_frequency c))) c
  else c.

(** The click handler: the modal it leaves and what it does to the
    vault; the result is the list handed to [contactView.setContacts]. *)
Definition markAsContacted (m : Modal)
  : Modal * Async (option (list Contact)) :=
  let c := markedContact (contact m) in
  let now := toISOString (now h) in
  let fullContact := with_modified (Some now) c in
  (mkModal c (isEdit m) (originalName m),
   updateContact h contactsFolder fullContact (originalName m) ;;;
   if viewOpen
   then (contacts <- getAllContacts contactsFolder ;; ret (Some contacts))
   else ret None).
End WithPlugin.

End NewContactModal.

Import NewContactModal.

(** ** Vocabulary of the repository properties *)

(** What "moved from the old path to the new one, with the new content"
    says about the outcome of an operation. *)
Definition movedAndRewritten (folder : string) (c : Contact)
  (old new : string) (r : (Exn + unit) * Vault) : Prop :=
  exists v' st,
    r = (inr tt, v')
    /\ getAbstractFileByPath v' (filePath folder old) = None
    /\ getAbstractFileByPath v' (filePath folder new)
       = Some (TFile (filePath folder new) (fileContent c) st).

(** What the loop of [getAllContacts] pushes for one file. *)
Definition decodeFile (f : TAbstractFile) : option Contact :=
  match f with
  | TFile _ d st => decode d st
  | TFolder _ => None
  end.

(** ** Vocabulary of the codec properties *)

(** No line break inside. *)
Definition singleLine (s : string) : bool := negb (contains newline s).

(** Some code unit is not white space. *)
Fixpoint nonblank (s : string) : bool :=
  match s with
  | EmptyString => false
  | String c s' => negb (is_ws c) || nonblank s'
  end.

(** What the [reduce] of [extractFrontMatter] stores for the line
    [key: v]: the segments after the first colon, trimmed and rejoined. *)
Definition decodeValue (v : string) : string :=
  join ":" (List.map trim (split colon (String " " v))).

(** No white space at either end nor next to a colon: every segment
    between colons is its own [trim]. *)
Definition clean (v : string) : bool :=
  singleLine v
  && forallb (fun seg => String.eqb (trim seg) seg) (split colon v).

(** A tag that survives the comma-joined line. *)
Definition plainTag (t : string) : bool :=
  negb (isEmpty t) && singleLine t && negb (contains colon t)
  && negb (contains comma t) && String.eqb (trim t) t.

Definition tagList (c : Contact) : list string :=
  match tags c with Some l => l | None => [] end.

(** Every value that [createFrontMatter] may write is a single line. *)
Definition singleLineFields (c : Contact) : bool :=
  singleLine (interp (name c)) && singleLine (interp (email c))
  && singleLine (interp (phone c)) && singleLine (interp (company c))
  && singleLine (interp (title c)) && forallb singleLine (tagList c)
  && singleLine (interp (last_contacted c))
  && singleLine (interp (next_contact c))
  && singleLine (interp (contact_frequency c))
  && singleLine (interp (created c)) && singleLine (interp (modified c)).

(** An optional field that is absent, empty or clean. *)
Definition cleanIfSet (x : option string) : bool :=
  if truthy x then clean (interp x) else true.

(** The frontmatter lines of [createFrontMatter] as key/value pairs. *)
Definition fieldList (c : Contact) : list (string * string) :=
  [ ("name", interp (name c)); ("email", interp (email c));
    ("phone", interp (phone c)) ]
  ++ (if truthy (company c) then [("company", interp (company c))] else [])
  ++ (if truthy (title c) then [("title", interp (title c))] else [])
  ++ (match tags c with
      | Some (t :: ts) => [("tags", join ", " (t :: ts))]
      | _ => []
      end)
  ++ (if truthy (last_contacted c)
      then [("last_contacted", interp (last_contacted c))] else [])
  ++ (if truthy (next_contact c)
      then [("next_contact", interp (next_contact c))] else [])
  ++ (if truthy (contact_frequency c)
      then [("contact_frequency", interp (contact_frequency c))] else [])
  ++ [ ("created", interp (created c)); ("modified", interp (modified c)) ].

Definition lineOf (kv : string * string) : string :=
  fst kv +:+ ": " +:+ snd kv.

(** A key that [parseLine] reads back as it was written, on a line that
    cannot be taken for the closing fence. *)
Definition goodKey (k : string) : bool :=
  singleLine k && negb (contains colon k) && String.eqb (trim k) k
  && negb (String.eqb k "__proto__")
  && match k with
     | String c _ => negb (Ascii.eqb c dash)
     | EmptyString => false
     end.

(** The value of the last pair with key [k]. *)
Fixpoint assocLast (k : string) (l : list (string * string)) : option string :=
  match l with
  | [] => None
  | (k', v) :: l' =>
      match assocLast k l' with
      | Some x => Some x
      | None => if String.eqb k' k then Some v else None
      end
  end.

(** What decoding makes of an optional scalar that was written. *)
Definition readBack (x : option string) : option string :=
  if truthy x then Some (decodeValue (interp x)) else None.

(** What decoding makes of the tags. *)
Definition readBackTags (c : Contact) : option (list string) :=
  match tags c with
  | Some (t :: ts) =>
      let v := decodeValue (join ", " (t :: ts)) in
      if isEmpty v then None else Some (List.map trim (split comma v))
  | _ => None
  end.

(** The contact that decoding an encoded [c] yields, when it yields one. *)
Definition readBackContact (c : Contact) (st : FileStats) : Contact :=
  {| name := Some (decodeValue (interp (name c)));
     email := orElse (Some (decodeValue (interp (email c)))) (Some "");
     phone := orElse (Some (decodeValue (interp (phone c)))) (Some "");
     company := readBack (company c);
     title := readBack (title c);
     notes := None;
     tags := readBackTags c;
     created := orElse (Some (decodeValue (interp (created c))))
                       (Some (intToString (ctime st)));
     modified := orElse (Some (decodeValue (interp (modified c))))
                        (Some (intToString (mtime st)));
     last_contacted := readBack (last_contacted c);
     next_contact := readBack (next_contact c);
     contact_frequency := readBack (contact_frequency c) |}.

(** A contact whose frontmatter values all survive the codec: name,
    email and phone present and clean, the name not empty, every other
    scalar absent, empty or clean, every tag plain. *)
Definition roundTrippable (c : Contact) : bool :=
  match name c, email c, phone c with
  | Some n, Some e, Some p => negb (isEmpty n) && clean n && clean e && clean p
  | _, _, _ => false
  end
  && cleanIfSet (company c) && cleanIfSet (title c)
  && cleanIfSet (last_contacted c) && cleanIfSet (next_contact c)
  && cleanIfSet (contact_frequency c)
  && forallb plainTag (tagList c)
  && singleLine (interp (created c)) && singleLine (interp (modified c)).

(** An optional field that is set in [c] is the same in [d]. *)
Definition keeps {A} (set : option A -> bool) (f : Contact -> option A)
  (c d : Contact) : Prop :=
  set (f c) = true -> f d = f c.

Definition nonEmptyList (x : option (list string)) : bool :=
  match x with Some (_ :: _) => true | _ => false end.

(** Agreement on name, email and phone and on every frontmatter field
    that is set in the original. *)
Definition agreesOnFrontMatter (c d : Contact) : Prop :=
  name d = name c /\ email d = email c /\ phone d = phone c
  /\ keeps truthy company c d /\ keeps truthy title c d
  /\ keeps nonEmptyList tags c d
  /\ keeps truthy last_contacted c d /\ keeps truthy next_contact c d
  /\ keeps truthy contact_frequency c d.

(** The frontmatter fields that are not set in [c] are absent in [d]. *)
Definition absentWhenUnset (c d : Contact) : Prop :=
  (truthy (company c) = false -> company d = None)
  /\ (truthy (title c) = false -> title d = None)
  /\ (nonEmptyList (tags c) = false -> tags d = None)
  /\ (truthy (last_contacted c) = false -> last_contacted d = None)
  /\ (truthy (next_contact c) = false -> next_contact d = None)
  /\ (truthy (contact_frequency c) = false -> contact_frequency d = None).

(** The round trip as the specification words it: with the notes. *)
Definition agreesAsSpecified (c d : Contact) : Prop :=
  agreesOnFrontMatter c d /\ keeps truthy notes c d.

(** A line that is not taken for the closing fence. *)
Definition notFence (s : string) : bool :=
  match s with
  | String c _ => negb (Ascii.eqb c dash)
  | EmptyString => false
  end.

(** ** Sample data *)

Definition utcHost : Host :=
  mkHost (fun _ _ => 0) 1767225600000 (fun _ => None).

Definition bobNew : Contact :=
  mkContact (Some "Bob New") (Some "bob@example.org") (Some "555-0100")
            None None None None
            (Some "2025-01-01T00:00:00.000Z") (Some "2025-06-01T00:00:00.000Z")
            None None None.

Definition bobVault : Vault :=
  [ TFolder "Contacts";
    TFile "Contacts/Bob-Old.md" "old text" (mkStats 1000 2000) ].

Definition annQ : Contact :=
  mkContact (Some "Ann?Lee") (Some "ann@example.org") (Some "555-0101")
            None None None None
            (Some "2025-02-01T00:00:00.000Z") (Some "2025-02-01T00:00:00.000Z")
            None None None.

Definition annVault : Vault :=
  [ TFolder "Contacts";
    TFile "Contacts/Ann-Lee.md" "first text" (mkStats 1000 2000) ].

Definition zed : Contact :=
  mkContact (Some "Zed") (Some "zed@example.org") (Some "555-0199")
            None None None None
            (Some "2025-03-01T00:00:00.000Z") (Some "2025-03-01T00:00:00.000Z")
            None None None.

Definition archiveVault : Vault :=
  [ TFolder "Contacts";
    TFolder "Contacts-archive";
    TFile "Contacts-archive/Zed.md" (fileContent zed) (mkStats 1000 2000) ].

Definition frequencies : list string :=
  ["weekly"; "monthly"; "quarterly"; "yearly"].

(** A contact with every frontmatter field set. *)
Definition annFull : Contact :=
  mkContact (Some "Ann Lee") (Some "ann@example.org") (Some "555-0101")
            (Some "Acme") (Some "CTO") (Some "Met at the conference")
            (Some ["friend"; "work"])
            (Some "2025-02-01T00:00:00.000Z") (Some "2025-02-01T00:00:00.000Z")
            (Some "2025-04-24T09:28") (Some "2025-05-01T09:28") (Some "weekly").

(** The same with a colon followed by a space in the company. *)
Definition annAcme : Contact :=
  mkContact (Some "Ann Lee") (Some "ann@example.org") (Some "555-0101")
            (Some "Acme: Inc") (Some "CTO") (Some "Met at the conference")
            (Some ["friend"; "work"])
            (Some "2025-02-01T00:00:00.000Z") (Some "2025-02-01T00:00:00.000Z")
            (Some "2025-04-24T09:28") (Some "2025-05-01T09:28") (Some "weekly").

(** A contact as the form leaves it when only the name was typed. *)
Definition nameOnly : Contact :=
  mkContact (Some "Cy") None None None None None None
            (Some "2025-02-01T00:00:00.000Z") (Some "2025-02-01T00:00:00.000Z")
            None None None.

(** ** Vocabulary of the date properties *)

(** 1 in a leap year, 0 otherwise. *)
Definition leapFlag (y : Z) : Z := if DaysInYear y =? 366 then 1 else 0.

(** Length of month [m] (0..11) of a year with leap flag [l]. *)
Definition monthLength (m l : Z) : Z :=
  match m with
  | 1 => 28 + l
  | 3 | 5 | 8 | 10 => 30
  | _ => 31
  end.

(** The calendar unit of a frequency: the years, months and days that
    [calculateNextContact] adds to the local date fields. *)
Definition unitOf (frequency : string) : option (Z * Z * Z) :=
  if String.eqb frequency "weekly" then Some (0, 0, 7)
  else if String.eqb frequency "monthly" then Some (0, 1, 0)
  else if String.eqb frequency "quarterly" then Some (0, 3, 0)
  else if String.eqb frequency "yearly" then Some (1, 0, 0)
  else None.

(** The day number that the setter call of [advance] aims at. *)
Definition targetDay (h : Host) (t : Z) (u : Z * Z * Z) : Z :=
  let '(dy, dm, dd) := u in
  let lt := LocalTime h t in
  MakeDay (YearFromTime lt + dy) (MonthFromTime lt + dm) (DateFromTime lt + dd).

(** Local times from which a year can be added inside the range of
    [TimeClip], whatever the (bounded) zone offset. *)
Definition safeLocal (lt : Z) : Prop :=
  - maxTime + 368 * msPerDay <= lt <= maxTime - 368 * msPerDay.

(** A string in the date-time format that [parseISO] reads. *)
Definition validTimestamp (T : string) : bool :=
  match parseISO T with Some _ => true | None => false end.

(** When the day aimed at exists in the month aimed at, the local date
    of [t'] is that day of that month. *)
Definition landsOn (h : Host) (t : Z) (u : Z * Z * Z) (t' : Z) : Prop :=
  let '(dy, dm, dd) := u in
  let lt := LocalTime h t in
  let y := YearFromTime lt + dy in
  let m := MonthFromTime lt + dm in
  let d := DateFromTime lt + dd in
  d <= DaysInMonth y m ->
  YearFromTime (LocalTime h t') = y + m / 12
  /\ MonthFromTime (LocalTime h t') = m mod 12
  /\ DateFromTime (LocalTime h t') = d.

(** The hour and minute of [out] are those of the host's clock. *)
Definition clockStamped (h : Host) (out : string) : Prop :=
  String.substring 11 5 out
  = pad (getHours h (Some (now h))) +:+ ":"
    +:+ pad (getMinutes h (Some (now h))).

(** A host in UTC whose clock reads 2026-01-01T15:45:00.000Z. *)
Definition afternoonHost : Host :=
  mkHost (fun _ _ => 0) 1767282300000 (fun _ => None).

(** ** [src/ContactManager.ts]: the storage folder *)

(** [vault.createFolder(path)]: refuses a path that is taken. *)
Definition createFolder (p : string) : Async unit :=
  fun v => match getAbstractFileByPath v p with
           | Some _ => (inl (Error "Folder already exists."), v)
           | None => (inr tt, v ++ [TFolder p])
           end.

(** [try { ... } catch (error) { }]: what was thrown is dropped, what
    was done stays done. *)
Definition swallow (m : Async unit) : Async unit :=
  fun v => match m v with
           | (inl _, v') => (inr tt, v')
           | r => r
           end.

(** [private async ensureContactsFolderExists()] *)
Definition ensureContactsFolderExists (contactsFolder : string) : Async unit :=
  swallow
    (v <- getVault ;;
     match getAbstractFileByPath v contactsFolder with
     | None => createFolder contactsFolder
     | Some _ => ret tt
     end).

(** ** Vocabulary of the further properties *)

(** Every code unit satisfies [p]. *)
Fixpoint allChars (p : ascii -> bool) (s : string) : bool :=
  match s with
  | EmptyString => true
  | String c s' => p c && allChars p s'
  end.

(** A file name made of letters, digits and dashes. *)
Definition isSlug (s : string) : bool :=
  allChars (fun c => is_alnum c || Ascii.eqb c dash) s.

Definition with_notes (x : option string) (c : Contact) : Contact :=
  mkContact (name c) (email c) (phone c) (company c) (title c) x
            (tags c) (created c) (modified c) (last_contacted c)
            (next_contact c) (contact_frequency c).

(** No white space at either end. *)
Definition trimmed (s : string) : Prop := trim s = s.

(** An optional value that is absent or trimmed. *)
Definition trimmedIfSet (x : option string) : Prop :=
  match x with Some s => trimmed s | None => True end.

(** [n] printed on [k] digits is read as [n]. *)
Definition printsAs (k : nat) (n : Z) : bool :=
  match takeDigits k 0 (padStart0 k (intToString n)) with
  | Some (v, EmptyString) => v =? n
  | _ => false
  end.

(** ** [src/ContactView.ts]: the date column of the table *)

Module ContactView.

Section WithHost.
Variable h : Host.

(** [x !== 0] on a number. *)
Definition notZero (x : number) : bool :=
  match x with Some n => negb (n =? 0) | None => true end.

(** The template literal of the [else] branch of [formatDate]. *)
Definition formatDay (d : number) : string :=
  numberToString (getFullYear h d)
  +:+ "-" +:+ pad (plus (getMonth h d) 1)
  +:+ "-" +:+ pad (getDate h d).

(** [function formatDate(dateStr?)]; the template of the first branch
    is the one of [calculateNextContact]. *)
Definition formatDate (dateStr : option string) : option string :=
  if negb (truthy dateStr) then None
  else
    let d := JsDate.parse h (interp dateStr) in
    match d with
    | None => dateStr
    | Some _ =>
        if notZero (getHours h d) || notZero (getMinutes h d)
        then Some (formatLocal h d)
        else Some (formatDay d)
    end.


End WithHost.

End ContactView.

Import ContactView.

(** ** [main.ts]: the Save / Create button of [NewContactModal] *)

Module SaveButton.

(** What the click handler comes to: the notice about the required
    fields, or the list handed to the view when the view is open. *)
Inductive Outcome : Type :=
| Rejected
| Saved (shown : option (list Contact)).

Definition with_created (x : option string) (c : Contact) : Contact :=
  mkContact (name c) (email c) (phone c) (company c) (title c) (notes c)
            (tags c) x (modified c) (last_contacted c) (next_contact c)
            (contact_frequency c).

Section WithPlugin.
Variable h : Host.
Variable contactsFolder : string.   (* of [plugin.contactManager] *)
Variable viewOpen : bool.           (* [plugin.contactView] is set  *)

(** [if (c.contact_frequency && c.last_contacted)
       c.next_contact = calculateNextContact(...)] *)
Definition recalculated (c : Contact) : Contact :=
  if truthy (contact_frequency c) && truthy (last_contacted c)
  then with_next_contact
         (calculateNextContact h (interp (last_contacted c))
                               (interp (contact_frequency c))) c
  else c.

(** [fullContact] of the branch that creates. *)
Definition createdContact (now : string) (c : Contact) : Contact :=
  recalculated
    (with_last_contacted (Some now)
       (with_modified (Some now) (with_created (Some now) c))).

(** The click handler: the modal it leaves and what it does to the
    vault. *)
Definition onClick (m : Modal) : Modal * Async Outcome :=
  if negb (truthy (name (contact m))) || negb (truthy (phone (contact m)))
  then (m, ret Rejected)
  else
    let now := toISOString (now h) in
    let c := recalculated (contact m) in
    (mkModal c (isEdit m) (originalName m),
     (if isEdit m
      then updateContact h contactsFolder (with_modified (Some now) c)
                         (originalName m)
      else createContact h contactsFolder (createdContact now c)) ;;;
     if viewOpen
     then (contacts <- getAllContacts contactsFolder ;;
           ret (Saved (Some contacts)))
     else ret (Saved None)).
End WithPlugin.

End SaveButton.

Import SaveButton.

(** No white space anywhere. *)
Definition noWs (s : string) : bool := allChars (fun c => negb (is_ws c)) s.

(** ** [src/ContactView.ts]: the loop of [onOpen] *)

Module OnOpen.

(** The type of [calculateNextContact]. *)
Definition Calc : Type := string -> string -> option string.

(** [plugin.calculateNextContact]: the class [ContactsPlugin] declares no
    member of this name; the function of [main.ts] is local to its
    module. *)
Definition pluginCalculateNextContact : option Calc := None.

(** [a !== b] on strings or [undefined]. *)
Definition differs (a b : option string) : bool :=
  match a, b with
  | Some x, Some y => negb (String.eqb x y)
  | None, None => false
  | _, _ => true
  end.

Section WithGlobals.
Variable windowCalculateNextContact : option Calc.  (* of [window] *)

(** The conditional expression bound to [calculatedNext]. *)
Definition calculatedNext (c : Contact) : option string :=
  match pluginCalculateNextContact with
  | Some f => f (interp (last_contacted c)) (interp (contact_frequency c))
  | None =>
      match windowCalculateNextContact with
      | Some f => f (interp (last_contacted c)) (interp (contact_frequency c))
      | None => None
      end
  end.

(** One turn of the loop: the contact as the turn leaves it, and
    whether [updateContact] was called with it. *)
Definition visit (c : Contact) : Contact * bool :=
  if truthy (contact_frequency c) && truthy (last_contacted c)
  then
    let next := calculatedNext c in
    if truthy next && differs (next_contact c) next
    then (with_next_contact next c, true)
    else (c, false)
  else (c, false).

(** The loop over [this.contacts]: the contacts as the loop leaves
    them, and the arguments of its [updateContact] calls, in order;
    [updated] is set when there was a call. *)
Fixpoint reconcile (contacts : list Contact) : list Contact * list Contact :=
  match contacts with
  | [] => ([], [])
  | c :: rest =>
      let '(c', called) := visit c in
      let '(cs, calls) := reconcile rest in
      (c' :: cs, if called then c' :: calls else calls)
  end.
End WithGlobals.

End OnOpen.

Import OnOpen.
(** What holds of a contact handed to [updateContact]. *)
Definition handed (w : option Calc) (before after : list Contact)
  (u : Contact) : Prop :=
  In u after
  /\ truthy (contact_frequency u) = true
  /\ truthy (last_contacted u) = true
  /\ truthy (next_contact u) = true
  /\ next_contact u = calculatedNext w u
  /\ exists c, In c before /\ u = with_next_contact (next_contact u) c
               /\ next_contact c <> next_contact u.

(** ** [main.ts]: the format checks of the email and phone fields

    The two regular expressions use character classes, sequence,
    options and bounded or unbounded repetition, between [^] and [$]:
    [test] asks whether the whole string is in the language.  The
    matcher below decides this with derivatives. *)

Module Regex.

Inductive regex : Type :=
| Never
| Eps
| Cls (p : ascii -> bool)
| Seq (r s : regex)
| Alt (r s : regex)
| Star (r : regex).

(** [c], [r?], [r+] and [r{n}] *)
Definition Lit (c : ascii) : regex := Cls (fun a => Ascii.eqb a c).
Definition Opt (r : regex) : regex := Alt Eps r.
Definition Plus (r : regex) : regex := Seq r (Star r).
Fixpoint Rep (n : nat) (r : regex) : regex :=
  match n with
  | O => Eps
  | S n' => Seq r (Rep n' r)
  end.

Fixpoint nullable (r : regex) : bool :=
  match r with
  | Never => false
  | Eps => true
  | Cls _ => false
  | Seq r s => nullable r && nullable s
  | Alt r s => nullable r || nullable s
  | Star _ => true
  end.

Fixpoint deriv (c : ascii) (r : regex) : regex :=
  match r with
  | Never => Never
  | Eps => Never
  | Cls p => if p c then Eps else Never
  | Seq r s =>
      if nullable r then Alt (Seq (deriv c r) s) (deriv c s)
      else Seq (deriv c r) s
  | Alt r s => Alt (deriv c r) (deriv c s)
  | Star r => Seq (deriv c r) (Star r)
  end.

(** [/^r$/.test(s)] *)
Fixpoint test (r : regex) (s : string) : bool :=
  match s with
  | EmptyString => nullable r
  | String c s' => test (deriv c r) s'
  end.

(** The strings of a regular expression. *)
Inductive lang : regex -> string -> Prop :=
| lang_eps : lang Eps ""
| lang_cls p c : p c = true -> lang (Cls p) (String c "")
| lang_seq r s a b : lang r a -> lang s b -> lang (Seq r s) (a +:+ b)
| lang_alt_l r s a : lang r a -> lang (Alt r s) a
| lang_alt_r r s a : lang s a -> lang (Alt r s) a
| lang_star_nil r : lang (Star r) ""
| lang_star_cons r a b :
    lang r a -> lang (Star r) b -> lang (Star r) (a +:+ b).

End Regex.

Import Regex.

Module FormatChecks.

(** [[^\s@]] *)
Definition plainChar (c : ascii) : bool :=
  negb (is_ws c) && negb (Ascii.eqb c "@").

(** [[\s-]] *)
Definition sepChar (c : ascii) : bool := is_ws c || Ascii.eqb c dash.

(** [/^[^\s@]+@[^\s@]+\.[^\s@]+$/] *)
Definition emailRegex : regex :=
  Seq (Plus (Cls plainChar))
      (Seq (Lit "@")
           (Seq (Plus (Cls plainChar))
                (Seq (Lit ".") (Plus (Cls plainChar))))).

(** [/^(\+?\d{1,2}[\s-]?)?(\(?\d{3}\)?[\s-]?)?\d{3}[\s-]?\d{4}$/] *)
Definition countryCode : regex :=
  Seq (Opt (Lit "+"))
      (Seq (Seq (Cls is_digit) (Opt (Cls is_digit))) (Opt (Cls sepChar))).

Definition areaCode : regex :=
  Seq (Opt (Lit "("))
      (Seq (Rep 3 (Cls is_digit)) (Seq (Opt (Lit ")")) (Opt (Cls sepChar)))).

Definition phoneRegex : regex :=
  Seq (Opt countryCode)
      (Seq (Opt areaCode)
           (Seq (Rep 3 (Cls is_digit))
                (Seq (Opt (Cls sepChar)) (Rep 4 (Cls is_digit))))).

(** [value && !regex.test(value)]: the field gets its red border. *)
Definition flagged (r : regex) (value : string) : bool :=
  negb (isEmpty value) && negb (test r value).

Definition emailFlagged (value : string) : bool := flagged emailRegex value.
Definition phoneFlagged (value : string) : bool := flagged phoneRegex value.

(** Number of decimal digits in a string. *)
Fixpoint countDigits (s : string) : nat :=
  match s with
  | EmptyString => O
  | String c s' => ((if is_digit c then 1 else 0) + countDigits s')%nat
  end.

(** A character a phone number may hold. *)
Definition phoneChar (c : ascii) : bool :=
  is_digit c || sepChar c || Ascii.eqb c "+" || Ascii.eqb c "("
  || Ascii.eqb c ")".

(** A string of [k] decimal digits. *)
Definition digitString (k : nat) (s : string) : Prop :=
  String.length s = k /\ allChars is_digit s = true.

(** Nothing, or the one character [c]. *)
Definition optChar (c : ascii) (s : string) : Prop :=
  s = "" \/ s = String c "".

(** Nothing, or one character of [[\s-]]. *)
Definition optSep (s : string) : Prop :=
  s = "" \/ exists x, s = String x "" /\ sepChar x = true.

(** What a part of a phone number adds: its characters are phone
    characters, and its digits and its length are as given. *)
Definition part (lo hi len : nat) (s : string) : Prop :=
  allChars phoneChar s = true
  /\ (lo <= countDigits s <= hi)%nat /\ (countDigits s <= String.length s <= len)%nat.

End FormatChecks.

Import FormatChecks.

(** What [parseLine] joins: trimmed pieces without colon or line break. *)
Definition piece (e : string) : Prop :=
  trim e = e /\ contains colon e = false /\ contains newline e = false.

(** ** Vocabulary of the properties about zones whose offset changes *)

(** The local time that the setter call of [advance] aims at: the
    target day, at the local time of day of the date. *)
Definition advancedLocal (h : Host) (t : Z) (u : Z * Z * Z) : Z :=
  MakeDate (targetDay h t u) (TimeWithinDay (LocalTime h t)).

(** A local time that the zone has: the time value it is read as is
    shown as this local time again.  A local time skipped by a change
    of offset, such as 02:30 on the day daylight saving begins, is not
    of this kind. *)
Definition existsLocally (h : Host) (x : Z) : Prop :=
  LocalTime h (UTC h x) = x.

(** A zone whose offset never changes. *)
Definition fixedOffset (h : Host) : Prop :=
  forall a b a' b', LocalTZA h a b = LocalTZA h a' b'.

(** A time with its seconds and milliseconds dropped. *)
Definition minuteFloor (x : Z) : Z := x - x mod msPerMinute.

(** A zone that is five hours behind UTC and four during daylight
    saving, which in 2025 begins on 9 March at 07:00 UTC and ends on
    2 November at 06:00 UTC, as in New York.  A local time is taken
    with the offset before the change when the change skips or repeats
    it. *)
Definition springForward2025 : Z := 1741503600000.
Definition fallBack2025 : Z := 1762063200000.

Definition easternTZA (t : Z) (isUTC : bool) : Z :=
  if isUTC
  then if (springForward2025 <=? t) && (t <? fallBack2025)
       then -4 * msPerHour else -5 * msPerHour
  else if (springForward2025 - 4 * msPerHour <=? t)
          && (t <? fallBack2025 - 4 * msPerHour)
       then -4 * msPerHour else -5 * msPerHour.

Definition easternHost : Host :=
  mkHost easternTZA 1767282300000 (fun _ => None).

(** A host in UTC that reads the last day of the range of [Date],
    written with an expanded year. *)
Definition lastDay : string := "+275760-09-13T00:00:00.000Z".

Definition lastDayHost : Host :=
  mkHost (fun _ _ => 0) 1767225600000
         (fun s => if String.eqb s lastDay then Some maxTime else None).


(* ===================================================================== *)
(** * Part II: properties                                                 *)
(* ===================================================================== *)

(** String concatenation unfolds on a constructor in what follows. *)
Local Arguments String.append !s1 s2 : simpl nomatch.

(** ** Looking up paths in a vault *)

Section VaultFacts.

Implicit Types (v : Vault) (f : TAbstractFile) (p q : string).

Lemma lookup_none_iff v p :
  getAbstractFileByPath v p = None <->
  forall f, In f v -> String.eqb (path_of f) p = false.
Proof.
  unfold getAbstractFileByPath. split.
  - intros H f Hf. exact (List.find_none _ _ H f Hf).
  - induction v as [|a v IH]; intros H; simpl; [reflexivity|].
    rewrite (H a (or_introl eq_refl)). apply IH.
    intros f Hf. apply H. right. exact Hf.
Qed.

Lemma lookup_some_path v p f :
  getAbstractFileByPath v p = Some f -> path_of f = p.
Proof.
  unfold getAbstractFileByPath. intros H.
  apply List.find_some in H as [_ H]. now apply String.eqb_eq.
Qed.

(** A map over the entries that sends the entries at [q], and only
    those, to [p] commutes with the lookup. *)
Lemma lookup_map (g : TAbstractFile -> TAbstractFile) v p q :
  (forall f, In f v ->
     String.eqb (path_of (g f)) p = String.eqb (path_of f) q) ->
  getAbstractFileByPath (List.map g v) p
  = option_map g (getAbstractFileByPath v q).
Proof.
  unfold getAbstractFileByPath.
  induction v as [|a v IH]; intros H; simpl; [reflexivity|].
  rewrite (H a (or_introl eq_refl)).
  destruct (String.eqb (path_of a) q); [reflexivity|].
  apply IH. intros f Hf. apply H. right. exact Hf.
Qed.

Lemma paths_map (g : TAbstractFile -> TAbstractFile) v :
  (forall f, path_of (g f) = path_of f) ->
  List.map path_of (List.map g v) = List.map path_of v.
Proof.
  intros H. rewrite List.map_map. apply List.map_ext. exact H.
Qed.

End VaultFacts.

(** ** [updateContact] and [createContact] on the vault *)

Section RepositoryFacts.

Variable h : Host.
Variable folder : string.

Lemma modify_file v p d st data' :
  getAbstractFileByPath v p = Some (TFile p d st) ->
  exists v',
    modify h (TFile p d st) data' v = (inr tt, v')
    /\ getAbstractFileByPath v' p
       = Some (TFile p data' (mkStats (ctime st) (now h)))
    /\ List.map path_of v' = List.map path_of v
    /\ forall q, q <> p ->
         getAbstractFileByPath v' q = getAbstractFileByPath v q.
Proof.
  intros Hp. unfold modify. simpl path_of. rewrite Hp.
  eexists. split; [reflexivity|].
  set (g := fun f : TAbstractFile => _).
  assert (Hg : forall f, path_of (g f) = path_of f).
  { intros [p' d' st'|p']; simpl; [|reflexivity].
    destruct (String.eqb p' p); reflexivity. }
  split; [|split].
  - rewrite (lookup_map g v p p) by (intros; now rewrite Hg).
    rewrite Hp. simpl. now rewrite String.eqb_refl.
  - now apply paths_map.
  - intros q Hq.
    rewrite (lookup_map g v q q) by (intros; now rewrite Hg).
    destruct (getAbstractFileByPath v q) as [f|] eqn:E; [|reflexivity].
    simpl. f_equal. apply lookup_some_path in E.
    destruct f as [p' d' st'|p']; simpl in *; [|reflexivity].
    subst p'. apply String.eqb_neq in Hq. now rewrite Hq.
Qed.

Lemma rename_file v old new d st :
  getAbstractFileByPath v old = Some (TFile old d st) ->
  getAbstractFileByPath v new = None ->
  old <> new ->
  exists v',
    rename (TFile old d st) new v = (inr tt, v')
    /\ getAbstractFileByPath v' new = Some (TFile new d st)
    /\ getAbstractFileByPath v' old = None
    /\ forall q, q <> old -> q <> new ->
         getAbstractFileByPath v' q = getAbstractFileByPath v q.
Proof.
  intros Hold Hnew Hne. unfold rename. simpl path_of.
  rewrite Hold, Hnew. eexists. split; [reflexivity|].
  set (g := fun f : TAbstractFile => _).
  pose proof (proj1 (lookup_none_iff v new) Hnew) as Hfree.
  assert (Hw : forall f, path_of (withPath new f) = new)
    by (intros [? ? ?|?]; reflexivity).
  split; [|split].
  - rewrite (lookup_map g v new old).
    + rewrite Hold. subst g. simpl. now rewrite String.eqb_refl.
    + intros f Hf. subst g. simpl.
      destruct (String.eqb (path_of f) old) eqn:E.
      * rewrite Hw. apply String.eqb_refl.
      * now apply Hfree.
  - apply lookup_none_iff. intros f Hf.
    apply List.in_map_iff in Hf as (f0 & <- & Hf0). subst g. simpl.
    destruct (String.eqb (path_of f0) old) eqn:E; [|exact E].
    rewrite Hw. apply String.eqb_neq. congruence.
  - intros q Hq1 Hq2.
    rewrite (lookup_map g v q q).
    + destruct (getAbstractFileByPath v q) as [f|] eqn:E; [|reflexivity].
      simpl. f_equal. apply lookup_some_path in E. subst g. simpl.
      apply String.eqb_neq in Hq1. now rewrite E, Hq1.
    + intros f Hf. subst g. simpl.
      destruct (String.eqb (path_of f) old) eqn:E; [|reflexivity].
      rewrite Hw. apply String.eqb_eq in E. rewrite E.
      apply String.eqb_neq in Hq1, Hq2.
      rewrite String.eqb_sym in Hq1, Hq2. now rewrite Hq1, Hq2.
Qed.

Lemma updateContact_unfold c orig n old v :
  name c = Some n ->
  orElse orig (name c) = Some old ->
  updateContact h folder c orig v
  = match getAbstractFileByPath v (filePath folder old) with
    | None => (inl (Error "Original contact file not found"), v)
    | Some file =>
        ((if negb (String.eqb (filePath folder old) (filePath folder n))
          then rename file (filePath folder n) else ret tt) ;;;
         v' <- getVault ;;
         match getAbstractFileByPath v' (filePath folder n) with
         | Some (TFile p d st) => modify h (TFile p d st) (fileContent c)
         | _ => throw (Error "Updated contact file not found")
         end) v
    end.
Proof.
  intros Hn Ho. unfold updateContact. rewrite Ho, Hn.
  unfold derefName, Obsidian.bind at 1 2 3, ret, getVault.
  destruct (getAbstractFileByPath v (filePath folder old)); reflexivity.
Qed.

End RepositoryFacts.

(** C5: when nothing exists at the path derived from the original name,
    [updateContact] throws "Original contact file not found" and the
    vault is what it was: nothing is created, renamed or modified. *)
Theorem updateContact_original_not_found h folder c orig n old v :
  name c = Some n ->
  orElse orig (name c) = Some old ->
  getAbstractFileByPath v (filePath folder old) = None ->
  updateContact h folder c orig v
  = (inl (Error "Original contact file not found"), v).
Proof.
  intros Hn Ho Hmiss.
  rewrite (updateContact_unfold h folder c orig n old v Hn Ho).
  now rewrite Hmiss.
Qed.

Lemma updateContact_original_not_found_witness :
  name bobNew = Some "Bob New"
  /\ orElse (Some "Bob Old") (name bobNew) = Some "Bob Old"
  /\ getAbstractFileByPath [TFolder "Contacts"] (filePath "Contacts" "Bob Old")
     = None
  /\ updateContact utcHost "Contacts" bobNew (Some "Bob Old")
       [TFolder "Contacts"]
     = (inl (Error "Original contact file not found"), [TFolder "Contacts"]).
Proof.
  split; [reflexivity|]. split; [reflexivity|]. split; [reflexivity|].
  apply (updateContact_original_not_found utcHost "Contacts" bobNew
           (Some "Bob Old") "Bob New" "Bob Old"); reflexivity.
Defined.

(** C7, as amended: when a file stands at the old path and the new
    path differs, then, if nothing stands at the new path,
    [updateContact] first renames the file and then overwrites it, so
    that the old path is free, the new path holds the freshly encoded
    contact (creation time kept, modification time the clock's) and
    every other path is untouched; if the new path is taken, the host
    refuses the rename, [updateContact] throws and the vault is what it
    was. *)
Theorem updateContact_rename_then_overwrite h folder c orig n old v d st :
  name c = Some n ->
  orElse orig (name c) = Some old ->
  getAbstractFileByPath v (filePath folder old)
  = Some (TFile (filePath folder old) d st) ->
  filePath folder old <> filePath folder n ->
  (getAbstractFileByPath v (filePath folder n) = None ->
   exists v1 v2,
     rename (TFile (filePath folder old) d st) (filePath folder n) v
     = (inr tt, v1)
     /\ modify h (TFile (filePath folder n) d st) (fileContent c) v1
        = (inr tt, v2)
     /\ updateContact h folder c orig v = (inr tt, v2)
     /\ movedAndRewritten folder c old n (updateContact h folder c orig v)
     /\ getAbstractFileByPath v2 (filePath folder n)
        = Some (TFile (filePath folder n) (fileContent c)
                      (mkStats (ctime st) (now h)))
     /\ forall q, q <> filePath folder old -> q <> filePath folder n ->
          getAbstractFileByPath v2 q = getAbstractFileByPath v q)
  /\ (getAbstractFileByPath v (filePath folder n) <> None ->
      updateContact h folder c orig v
      = (inl (Error "Destination file already exists!"), v)).
Proof.
  intros Hn Ho Hold Hne. split.
  - intros Hfree.
    destruct (rename_file v _ _ d st Hold Hfree Hne)
      as (v1 & Hren & Hnew1 & Hold1 & Hoth1).
    destruct (modify_file h v1 _ d st (fileContent c) Hnew1)
      as (v2 & Hmod & Hnew2 & _ & Hoth2).
    assert (Hup : updateContact h folder c orig v = (inr tt, v2)).
    { rewrite (updateContact_unfold h folder c orig n old v Hn Ho), Hold.
      apply String.eqb_neq in Hne. rewrite Hne. simpl negb.
      unfold Obsidian.bind at 1. rewrite Hren.
      unfold Obsidian.bind, getVault. now rewrite Hnew1. }
    exists v1, v2. repeat split; try assumption.
    + exists v2, (mkStats (ctime st) (now h)).
      repeat split; try assumption.
      rewrite Hoth2 by congruence. exact Hold1.
    + intros q Hq1 Hq2. rewrite Hoth2 by assumption. now apply Hoth1.
  - intros Htaken.
    rewrite (updateContact_unfold h folder c orig n old v Hn Ho), Hold.
    apply String.eqb_neq in Hne. rewrite Hne. simpl negb.
    unfold Obsidian.bind at 1, rename. simpl path_of. rewrite Hold.
    destruct (getAbstractFileByPath v (filePath folder n));
      [reflexivity | contradiction].
Qed.

Lemma updateContact_rename_then_overwrite_witness :
  name bobNew = Some "Bob New"
  /\ orElse (Some "Bob Old") (name bobNew) = Some "Bob Old"
  /\ getAbstractFileByPath bobVault (filePath "Contacts" "Bob Old")
     = Some (TFile (filePath "Contacts" "Bob Old") "old text"
                   (mkStats 1000 2000))
  /\ filePath "Contacts" "Bob Old" <> filePath "Contacts" "Bob New"
  /\ getAbstractFileByPath bobVault (filePath "Contacts" "Bob New") = None
  /\ movedAndRewritten "Contacts" bobNew "Bob Old" "Bob New"
       (updateContact utcHost "Contacts" bobNew (Some "Bob Old") bobVault).
Proof.
  assert (Hne : filePath "Contacts" "Bob Old" <> filePath "Contacts" "Bob New")
    by (vm_compute; discriminate).
  split; [reflexivity|]. split; [reflexivity|]. split; [reflexivity|].
  split; [exact Hne|]. split; [reflexivity|].
  destruct (updateContact_rename_then_overwrite utcHost "Contacts" bobNew
              (Some "Bob Old") "Bob New" "Bob Old" bobVault "old text"
              (mkStats 1000 2000) eq_refl eq_refl eq_refl Hne)
    as [Hfree _].
  destruct (Hfree eq_refl) as (v1 & v2 & _ & _ & _ & H & _).
  exact H.
Defined.

(** C7, as stated, fails when a document already stands at the new path:
    the host refuses the rename, [updateContact] throws, and the document
    stays at the old path with its old text. *)
Lemma updateContact_rename_collision :
  let v := [ TFolder "Contacts";
             TFile "Contacts/Bob-Old.md" "old text" (mkStats 1000 2000);
             TFile "Contacts/Bob-New.md" "other text" (mkStats 3000 4000) ] in
  getAbstractFileByPath v (filePath "Contacts" "Bob Old")
  = Some (TFile "Contacts/Bob-Old.md" "old text" (mkStats 1000 2000))
  /\ filePath "Contacts" "Bob Old" <> filePath "Contacts" "Bob New"
  /\ updateContact utcHost "Contacts" bobNew (Some "Bob Old") v
     = (inl (Error "Destination file already exists!"), v)
  /\ ~ movedAndRewritten "Contacts" bobNew "Bob Old" "Bob New"
         (updateContact utcHost "Contacts" bobNew (Some "Bob Old") v).
Proof.
  intros v.
  assert (Hup : updateContact utcHost "Contacts" bobNew (Some "Bob Old") v
                = (inl (Error "Destination file already exists!"), v))
    by (vm_compute; reflexivity).
  split; [reflexivity|]. split; [vm_compute; discriminate|].
  split; [exact Hup|].
  rewrite Hup. intros (v' & st & Heq & _). discriminate Heq.
Qed.

(** C10: the file-name derivation is not injective ("Ann Lee" and
    "Ann?Lee" give the same path), and both operations key on the derived
    path alone: with the document of [n1] in the vault, creating a
    contact named [n2] with the same derived path is refused as a
    collision, and updating with [n2] as the name and [n1] as the
    original name renames nothing and overwrites that document in place. *)
Theorem filePath_not_injective h folder c n1 n2 v d st :
  name c = Some n2 ->
  n1 <> n2 ->
  n1 <> "" ->
  replaceNonAlnum n1 = replaceNonAlnum n2 ->
  getAbstractFileByPath v (filePath folder n1)
  = Some (TFile (filePath folder n1) d st) ->
  ("Ann Lee" <> "Ann?Lee"
   /\ filePath folder "Ann Lee" = filePath folder "Ann?Lee")
  /\ filePath folder n2 = filePath folder n1
  /\ createContact h folder c v = (inl (Error "File already exists."), v)
  /\ exists v',
       updateContact h folder c (Some n1) v = (inr tt, v')
       /\ modify h (TFile (filePath folder n1) d st) (fileContent c) v
          = (inr tt, v')
       /\ List.map path_of v' = List.map path_of v
       /\ getAbstractFileByPath v' (filePath folder n1)
          = Some (TFile (filePath folder n1) (fileContent c)
                        (mkStats (ctime st) (now h))).
Proof.
  intros Hn Hdiff Hne Hsame Hdoc.
  assert (Hpath : filePath folder n2 = filePath folder n1)
    by (unfold filePath; now rewrite Hsame).
  split; [split; [discriminate | reflexivity]|].
  split; [exact Hpath|]. split.
  - unfold createContact. rewrite Hn. unfold derefName, Obsidian.bind, ret.
    unfold create. now rewrite Hpath, Hdoc.
  - destruct (modify_file h v _ d st (fileContent c) Hdoc)
      as (v' & Hmod & Hnew & Hpaths & _).
    exists v'. repeat split; try assumption.
    assert (Ho : orElse (Some n1) (name c) = Some n1).
    { unfold orElse, truthy. destruct n1; [contradiction|reflexivity]. }
    rewrite (updateContact_unfold h folder c (Some n1) n2 n1 v Hn Ho), Hdoc.
    rewrite Hpath, String.eqb_refl. simpl negb.
    unfold Obsidian.bind, ret, getVault. now rewrite Hdoc.
Qed.

Lemma filePath_not_injective_witness :
  name annQ = Some "Ann?Lee"
  /\ "Ann Lee" <> "Ann?Lee"
  /\ "Ann Lee" <> ""
  /\ replaceNonAlnum "Ann Lee" = replaceNonAlnum "Ann?Lee"
  /\ getAbstractFileByPath annVault (filePath "Contacts" "Ann Lee")
     = Some (TFile (filePath "Contacts" "Ann Lee") "first text"
                   (mkStats 1000 2000))
  /\ createContact utcHost "Contacts" annQ annVault
     = (inl (Error "File already exists."), annVault).
Proof.
  assert (H1 : "Ann Lee" <> "Ann?Lee") by discriminate.
  assert (H2 : "Ann Lee" <> "") by discriminate.
  split; [reflexivity|]. split; [exact H1|]. split; [exact H2|].
  split; [reflexivity|]. split; [reflexivity|].
  destruct (filePath_not_injective utcHost "Contacts" annQ "Ann Lee" "Ann?Lee"
              annVault "first text" (mkStats 1000 2000)
              eq_refl H1 H2 eq_refl eq_refl)
    as (_ & _ & H & _).
  exact H.
Defined.

(** ** [getAllContacts] *)

Section ListingFacts.

Variable folder : string.

Lemma lookup_in_nodup (v : Vault) (f : TAbstractFile) :
  List.NoDup (List.map path_of v) -> In f v ->
  getAbstractFileByPath v (path_of f) = Some f.
Proof.
  unfold getAbstractFileByPath.
  induction v as [|a v IH]; intros Hnd Hin; [destruct Hin|].
  simpl in *. apply List.NoDup_cons_iff in Hnd as [Hna Hnd].
  destruct Hin as [->|Hin]; [now rewrite String.eqb_refl|].
  destruct (String.eqb (path_of a) (path_of f)) eqn:E; [|now apply IH].
  apply String.eqb_eq in E. exfalso. apply Hna. rewrite E.
  apply List.in_map. exact Hin.
Qed.

Lemma collectContacts_spec (v : Vault) (files : list TAbstractFile) acc :
  (forall f, In f files ->
     exists p d st, f = TFile p d st /\ getAbstractFileByPath v p = Some f) ->
  collectContacts files acc v = (inr (acc ++ omap decodeFile files), v).
Proof.
  revert acc. induction files as [|f files IH]; intros acc Hf; simpl.
  - unfold ret. now rewrite List.app_nil_r.
  - destruct (Hf f (or_introl eq_refl)) as (p & d & st & -> & Hp).
    unfold Obsidian.bind at 1, getContactFromFile, Obsidian.bind at 1, read.
    simpl path_of. rewrite Hp. unfold ret at 1. simpl.
    rewrite IH by (intros g Hg; apply Hf; now right).
    destruct (decode d st); [|reflexivity].
    now rewrite <- List.app_assoc.
Qed.

(** The listing never throws and leaves the vault alone: it is the
    decodable markdown files whose path starts with the folder string,
    in enumeration order. *)
Lemma getAllContacts_spec (v : Vault) :
  List.NoDup (List.map path_of v) ->
  getAllContacts folder v
  = (inr (match getAbstractFileByPath v folder with
          | None => []
          | Some _ =>
              omap decodeFile
                (List.filter (fun f => startsWith folder (path_of f))
                        (getMarkdownFiles v))
          end), v).
Proof.
  intros Hnd. unfold getAllContacts, Obsidian.bind at 1, getVault.
  destruct (getAbstractFileByPath v folder); [|reflexivity].
  rewrite collectContacts_spec; [reflexivity|].
  intros f Hf. apply List.filter_In in Hf as [Hf _].
  unfold getMarkdownFiles in Hf. apply List.filter_In in Hf as [Hf Hmd].
  destruct f as [p d st|p]; [|discriminate].
  exists p, d, st. split; [reflexivity|].
  exact (lookup_in_nodup v _ Hnd Hf).
Qed.

Lemma decode_without_frontmatter content st :
  matchFrontMatter content = None -> decode content st = None.
Proof.
  intros H. unfold decode, extractFrontMatter. now rewrite H.
Qed.

Lemma decode_without_name content fm st :
  extractFrontMatter content = Some fm ->
  truthy (fm !! "name") = false ->
  decode content st = None.
Proof.
  intros Hfm Hn. unfold decode, contactOfFrontMatter. now rewrite Hfm, Hn.
Qed.

End ListingFacts.

(** C6, at the failing input: the storage folder is [Contacts] and the
    only document lies in the sibling folder [Contacts-archive], not
    under [Contacts/]; the listing returns it all the same, because the
    filter compares the bare folder name as a prefix of the path. *)
Theorem getAllContacts_sibling_folder :
  startsWith ("Contacts" +:+ "/") "Contacts-archive/Zed.md" = false
  /\ startsWith "Contacts" "Contacts-archive/Zed.md" = true
  /\ getAllContacts "Contacts" archiveVault = (inr [zed], archiveVault).
Proof. vm_compute. repeat split; reflexivity. Qed.

(** ** The "Mark as Contacted" handler *)

(** C4, on the code: whatever the host's clock says, the handler sets
    [last_contacted] to the constant [2025-04-24T09:28], in the modal
    and in the contact it hands to [updateContact]; only [modified] is
    read from the clock. *)
Theorem markAsContacted_constant_timestamp h folder view m :
  let r := markAsContacted h folder view m in
  last_contacted (contact (fst r)) = Some "2025-04-24T09:28"
  /\ exists full rest,
       snd r = (updateContact h folder full (originalName m) ;;; rest)
       /\ last_contacted full = Some "2025-04-24T09:28"
       /\ modified full = Some (toISOString (now h)).
Proof.
  simpl. unfold markedContact.
  split.
  - destruct (truthy _); reflexivity.
  - eexists _, _. split; [reflexivity|].
    split; [|reflexivity].
    simpl. destruct (truthy _); reflexivity.
Qed.

(** ** [calculateNextContact] on an unparseable timestamp *)

(** What [calculateNextContact] returns [undefined] for: an empty
    [lastContacted] or a frequency that is not one of the four. *)
Lemma calculateNextContact_none_iff h lastContacted frequency :
  calculateNextContact h lastContacted frequency = None
  <-> lastContacted = "" \/ ~ In frequency frequencies.
Proof.
  unfold calculateNextContact, advance, frequencies. split.
  - destruct lastContacted as [|a s]; [now left|]. simpl isEmpty.
    intros H. right. intros [<-|[<-|[<-|[<-|[]]]]]; discriminate H.
  - intros [->|Hf]; [reflexivity|].
    destruct (isEmpty lastContacted || isEmpty frequency); [reflexivity|].
    destruct (String.eqb_spec frequency "weekly") as [->|_];
      [exfalso; apply Hf; simpl; tauto|].
    destruct (String.eqb_spec frequency "monthly") as [->|_];
      [exfalso; apply Hf; simpl; tauto|].
    destruct (String.eqb_spec frequency "quarterly") as [->|_];
      [exfalso; apply Hf; simpl; tauto|].
    destruct (String.eqb_spec frequency "yearly") as [->|_];
      [exfalso; apply Hf; simpl; tauto|].
    reflexivity.
Qed.

(** C3, on the code: for a non-empty string that the host's [Date] does
    not recognise and a recognised frequency, [calculateNextContact]
    does not return [undefined]: every getter of the Invalid Date is
    [NaN] and the result is the string [NaN-NaN-NaNTNaN:NaN]. *)
Theorem calculateNextContact_invalid_date h lastContacted frequency :
  lastContacted <> "" ->
  JsDate.parse h lastContacted = None ->
  In frequency frequencies ->
  calculateNextContact h lastContacted frequency = Some "NaN-NaN-NaNTNaN:NaN".
Proof.
  intros Hne Hparse Hf. unfold calculateNextContact.
  destruct lastContacted; [contradiction|]. simpl isEmpty.
  rewrite Hparse.
  simpl in Hf. destruct Hf as [<-|[<-|[<-|[<-|[]]]]]; reflexivity.
Qed.

Lemma calculateNextContact_invalid_date_witness :
  "not a date" <> ""
  /\ JsDate.parse utcHost "not a date" = None
  /\ In "weekly" frequencies
  /\ calculateNextContact utcHost "not a date" "weekly"
     = Some "NaN-NaN-NaNTNaN:NaN".
Proof.
  assert (H1 : "not a date" <> "") by discriminate.
  assert (H3 : In "weekly" frequencies) by (left; reflexivity).
  split; [exact H1|]. split; [reflexivity|]. split; [exact H3|].
  apply (calculateNextContact_invalid_date utcHost "not a date" "weekly"
           H1 eq_refl H3).
Defined.

(** ** Strings: [split], [join] and [trim] *)

Section StringFacts.

Implicit Types (s t : string) (c sep : ascii).

Lemma append_nil_r s : s +:+ "" = s.
Proof. induction s; simpl; congruence. Qed.

Lemma append_assoc s t u : (s +:+ t) +:+ u = s +:+ t +:+ u.
Proof. induction s; simpl; congruence. Qed.

Lemma split_not_nil sep s : split sep s <> [].
Proof.
  destruct s as [|c s]; simpl; [discriminate|].
  destruct (Ascii.eqb c sep); [discriminate|].
  destruct (split sep s); discriminate.
Qed.

Lemma split_cons_other sep c s :
  Ascii.eqb c sep = false ->
  exists w ws, split sep s = w :: ws /\ split sep (String c s) = String c w :: ws.
Proof.
  intros H. simpl. rewrite H.
  destruct (split sep s) as [|w ws] eqn:E; [now apply split_not_nil in E|].
  now exists w, ws.
Qed.

(** A segment without the separator, followed by the separator. *)
Lemma split_app_sep sep s t :
  contains sep s = false ->
  split sep (s +:+ String sep t) = s :: split sep t.
Proof.
  induction s as [|c s IH]; simpl; intros H.
  - now rewrite Ascii.eqb_refl.
  - apply orb_false_iff in H as [Hc Hs].
    rewrite Hc, (IH Hs). reflexivity.
Qed.

Lemma split_no_sep sep s :
  contains sep s = false -> split sep s = [s].
Proof.
  induction s as [|c s IH]; simpl; intros H; [reflexivity|].
  apply orb_false_iff in H as [Hc Hs]. now rewrite Hc, (IH Hs).
Qed.

Lemma join_split sep s : join (String sep "") (split sep s) = s.
Proof.
  induction s as [|c s IH]; simpl; [reflexivity|].
  destruct (Ascii.eqb c sep) eqn:E.
  - apply Ascii.eqb_eq in E. subst c.
    destruct (split sep s) as [|w ws] eqn:Es; [now apply split_not_nil in Es|].
    change (join (String sep "") ("" :: w :: ws))
      with (String sep (join (String sep "") (w :: ws))).
    now rewrite IH.
  - destruct (split sep s) as [|w ws] eqn:Es; [now apply split_not_nil in Es|].
    destruct ws as [|w' ws]; simpl in *; now rewrite IH.
Qed.

(** Lines without a newline, joined and split again. *)
Lemma split_join sep (l : list string) :
  l <> [] ->
  Forall (fun s => contains sep s = false) l ->
  split sep (join (String sep "") l) = l.
Proof.
  induction l as [|a l IH]; intros Hne Hall; [contradiction|].
  apply Forall_cons_iff in Hall as [Ha Hl].
  destruct l as [|b l].
  - simpl. now apply split_no_sep.
  - change (join (String sep "") (a :: b :: l))
      with (a +:+ String sep (join (String sep "") (b :: l))).
    rewrite (split_app_sep _ _ _ Ha). f_equal.
    apply IH; [discriminate | exact Hl].
Qed.

Lemma trimStart_ws c s : is_ws c = true -> trimStart (String c s) = trimStart s.
Proof. intros H. simpl. now rewrite H. Qed.

Lemma trim_ws c s : is_ws c = true -> trim (String c s) = trim s.
Proof. intros H. unfold trim. now rewrite trimStart_ws. Qed.

Lemma isEmpty_false s : isEmpty s = false <-> s <> "".
Proof. destruct s; simpl; split; intros H; congruence. Qed.

(** Appending to a non-empty end that [trimEnd] keeps. *)
Lemma trimEnd_app s t :
  t <> "" -> trimEnd t = t -> trimEnd (s +:+ t) = s +:+ t.
Proof.
  intros Hne Ht. induction s as [|c s IH]; simpl; [exact Ht|].
  rewrite IH. destruct (s +:+ t) eqn:E.
  - destruct s; simpl in E; [contradiction | discriminate].
  - simpl. now rewrite andb_false_r.
Qed.

Lemma trimStart_id s :
  match s with String c _ => is_ws c = false | EmptyString => True end ->
  trimStart s = s.
Proof. destruct s as [|c s]; simpl; [reflexivity|]. now intros ->. Qed.

Lemma trim_id_head s :
  trim s = s ->
  match s with String c _ => is_ws c = false | EmptyString => True end.
Proof.
  destruct s as [|c s]; [trivial|]. unfold trim. intros H.
  destruct (is_ws c) eqn:E; [|reflexivity]. exfalso.
  assert (Hlen : forall u, (String.length (trimEnd u) <= String.length u)%nat).
  { induction u as [|a u IHu]; simpl; [lia|].
    destruct (is_ws a && isEmpty (trimEnd u)); simpl; lia. }
  assert (Hlen' : forall u, (String.length (trimStart u) <= String.length u)%nat).
  { induction u as [|a u IHu]; simpl; [lia|].
    destruct (is_ws a); simpl; lia. }
  simpl in H. rewrite E in H.
  pose proof (Hlen (trimStart s)) as H1. pose proof (Hlen' s) as H2.
  rewrite H in H1. simpl in H1. lia.
Qed.

Lemma trim_id_end s : trim s = s -> trimEnd s = s.
Proof.
  intros H. pose proof (trim_id_head s H) as Hh.
  unfold trim in H. now rewrite (trimStart_id s Hh) in H.
Qed.

(** Two trimmed non-empty ends keep what stands between them. *)
Lemma trim_app s m t :
  s <> "" -> t <> "" -> trim s = s -> trim t = t ->
  trim (s +:+ m +:+ t) = s +:+ m +:+ t.
Proof.
  intros Hs Ht Hts Htt. unfold trim.
  rewrite trimStart_id.
  - rewrite <- append_assoc. apply trimEnd_app; [exact Ht|].
    now apply trim_id_end.
  - pose proof (trim_id_head s Hts) as Hh.
    destruct s; [contradiction | exact Hh].
Qed.

End StringFacts.

(** ** The frontmatter codec *)

Section CodecFacts.

Implicit Types (s v k : string) (c : Contact).

Lemma contains_app ch s t :
  contains ch (s +:+ t) = contains ch s || contains ch t.
Proof.
  induction s as [|a s IH]; simpl; [reflexivity|].
  now rewrite IH, orb_assoc.
Qed.

Lemma singleLine_app s t :
  singleLine (s +:+ t) = singleLine s && singleLine t.
Proof. unfold singleLine. now rewrite contains_app, negb_orb. Qed.

Lemma decodeValue_clean v : clean v = true -> decodeValue v = v.
Proof.
  unfold clean, decodeValue. intros H.
  apply andb_true_iff in H as [_ H].
  destruct (split_cons_other colon " "%char v eq_refl) as (w & ws & E & ->).
  rewrite E in H. simpl in H. apply andb_true_iff in H as [Hw Hws].
  simpl List.map. rewrite (trim_ws " "%char w eq_refl).
  apply String.eqb_eq in Hw. rewrite Hw.
  replace (List.map trim ws) with ws.
  - rewrite <- E. apply (join_split colon).
  - clear -Hws. induction ws as [|a ws IH]; [reflexivity|].
    simpl in *. apply andb_true_iff in Hws as [Ha Hws].
    apply String.eqb_eq in Ha. now rewrite Ha, <- IH.
Qed.

Lemma trim_nonblank s : nonblank s = true -> trim s <> "".
Proof.
  unfold trim. induction s as [|a s IH]; simpl; [discriminate|].
  destruct (is_ws a) eqn:E; simpl; [exact IH|]. intros _.
  simpl. rewrite E. discriminate.
Qed.

Lemma join_two_nonempty sep x y l : join (String sep "") (x :: y :: l) <> "".
Proof.
  change (join (String sep "") (x :: y :: l))
    with (x +:+ String sep (join (String sep "") (y :: l))).
  destruct x; discriminate.
Qed.

Lemma decodeValue_nonblank v :
  nonblank v = true -> isEmpty (decodeValue v) = false.
Proof.
  intros H. apply isEmpty_false. unfold decodeValue.
  destruct (split colon (String " " v)) as [|w [|w' ws]] eqn:E.
  - now apply split_not_nil in E.
  - pose proof (join_split colon (String " " v)) as J. rewrite E in J.
    simpl in J. subst w. simpl List.map. simpl join.
    rewrite (trim_ws " "%char v eq_refl). now apply trim_nonblank.
  - apply (join_two_nonempty colon).
Qed.

Lemma parseLine_lineOf (acc : gmap string string) k v :
  goodKey k = true ->
  parseLine acc (lineOf (k, v)) = <[ k := decodeValue v ]> acc.
Proof.
  unfold goodKey. intros H.
  repeat (apply andb_true_iff in H as [H ?]).
  unfold parseLine, lineOf. simpl fst. simpl snd.
  change (k +:+ ": " +:+ v) with (k +:+ String colon (String " " v)).
  rewrite split_app_sep by (now apply negb_true_iff).
  rewrite List.map_cons. fold (decodeValue v).
  assert (Hvals : List.map trim (split colon (String " " v)) <> []).
  { intros E. apply List.map_eq_nil in E. now apply split_not_nil in E. }
  unfold decodeValue at 2.
  destruct (List.map trim (split colon (String " " v))) as [|x xs] eqn:E;
    [contradiction|].
  match goal with Hk : String.eqb (trim k) k = true |- _ =>
    apply String.eqb_eq in Hk; rewrite Hk end.
  destruct k as [|a k]; [discriminate|].
  match goal with Hp : negb (String.eqb _ "__proto__") = true |- _ =>
    apply negb_true_iff in Hp; rewrite Hp end.
  unfold decodeValue. rewrite E. reflexivity.
Qed.

Lemma fold_parseLine (kvs : list (string * string)) (acc : gmap string string) k :
  Forall (fun kv => goodKey (fst kv) = true) kvs ->
  List.fold_left parseLine (List.map lineOf kvs) acc !! k
  = match assocLast k kvs with
    | Some v => Some (decodeValue v)
    | None => acc !! k
    end.
Proof.
  revert acc. induction kvs as [|[k0 v0] kvs IH]; intros acc Hall;
    [reflexivity|].
  apply Forall_cons_iff in Hall as [Hk Hall]. simpl in Hk.
  simpl List.map. simpl List.fold_left.
  rewrite (parseLine_lineOf acc k0 v0 Hk), (IH _ Hall). simpl assocLast.
  destruct (assocLast k kvs); [reflexivity|].
  destruct (String.eqb k0 k) eqn:E.
  - apply String.eqb_eq in E. subst. apply lookup_insert_eq.
  - apply String.eqb_neq in E. now apply lookup_insert_ne.
Qed.

Lemma lazyUntilFence_cons a s :
  lazyUntilFence (String a s)
  = if Ascii.eqb newline a && startsWith "---" s then Some ""
    else String a <$> lazyUntilFence s.
Proof. reflexivity. Qed.

Lemma lazyUntilFence_last s rest :
  singleLine s = true ->
  lazyUntilFence (s +:+ nl +:+ "---" +:+ rest) = Some s.
Proof.
  unfold singleLine. induction s as [|a s IH]; intros H.
  - reflexivity.
  - simpl in H. apply negb_true_iff, orb_false_iff in H as [Ha Hs].
    change (String a s +:+ nl +:+ "---" +:+ rest)
      with (String a (s +:+ nl +:+ "---" +:+ rest)).
    rewrite lazyUntilFence_cons, Ascii.eqb_sym, Ha. simpl andb. cbv iota.
    rewrite IH by (now apply negb_true_iff). reflexivity.
Qed.

Lemma lazyUntilFence_line s t rest :
  singleLine s = true ->
  notFence t = true ->
  lazyUntilFence (s +:+ nl +:+ t +:+ rest)
  = (fun p => s +:+ nl +:+ p) <$> lazyUntilFence (t +:+ rest).
Proof.
  unfold singleLine. intros Hs Ht.
  induction s as [|a s IH].
  - destruct t as [|b t]; [discriminate|]. simpl in Ht.
    apply negb_true_iff in Ht.
    change ("" +:+ nl +:+ String b t +:+ rest)
      with (String newline (String b (t +:+ rest))).
    rewrite lazyUntilFence_cons.
    replace (startsWith "---" (String b (t +:+ rest))) with false.
    + rewrite andb_false_r.
      change (String b t +:+ rest) with (String b (t +:+ rest)).
      now destruct (lazyUntilFence (String b (t +:+ rest))).
    + change (startsWith "---" (String b (t +:+ rest)))
        with (Ascii.eqb dash b && startsWith "--" (t +:+ rest)).
      now rewrite Ascii.eqb_sym, Ht.
  - simpl in Hs. apply negb_true_iff, orb_false_iff in Hs as [Ha Hs].
    change (String a s +:+ nl +:+ t +:+ rest)
      with (String a (s +:+ nl +:+ t +:+ rest)).
    rewrite lazyUntilFence_cons, Ascii.eqb_sym, Ha. simpl andb. cbv iota.
    rewrite IH by (now apply negb_true_iff).
    now destruct (lazyUntilFence (t +:+ rest)).
Qed.

Lemma lazyUntilFence_lines (l : list string) rest :
  l <> [] ->
  Forall (fun s => singleLine s = true) l ->
  Forall (fun s => notFence s = true) (List.tl l) ->
  lazyUntilFence (join nl l +:+ nl +:+ "---" +:+ rest) = Some (join nl l).
Proof.
  induction l as [|a l IH]; intros Hne Hs Hf; [contradiction|].
  apply Forall_cons_iff in Hs as [Ha Hs].
  destruct l as [|b l].
  - simpl join. now apply lazyUntilFence_last.
  - simpl in Hf. apply Forall_cons_iff in Hf as [Hb Hf].
    change (join nl (a :: b :: l)) with (a +:+ nl +:+ join nl (b :: l)).
    rewrite !append_assoc.
    assert (Hb' : exists t, join nl (b :: l) = b +:+ t).
    { destruct l; [exists ""; simpl; now rewrite append_nil_r|].
      eexists. reflexivity. }
    destruct Hb' as [t Et].
    rewrite Et at 1. rewrite append_assoc.
    rewrite lazyUntilFence_line by assumption.
    rewrite <- append_assoc, <- Et.
    rewrite IH; [reflexivity | discriminate | exact Hs |].
    destruct l; [constructor | exact Hf].
Qed.

Lemma substring_all s : String.substring 0 (String.length s) s = s.
Proof. induction s; simpl; congruence. Qed.

Lemma matchFrontMatter_fenced s :
  matchFrontMatter ("---" +:+ nl +:+ s) = lazyUntilFence s.
Proof.
  unfold matchFrontMatter. simpl. now rewrite Nat.sub_0_r, substring_all.
Qed.

Ltac case_fields c :=
  destruct (truthy (company c)), (truthy (title c)),
    (tags c) as [[|? ?]|], (truthy (last_contacted c)),
    (truthy (next_contact c)), (truthy (contact_frequency c)).

Lemma frontMatterLines_fieldList c :
  frontMatterLines c = List.map lineOf (fieldList c).
Proof. unfold frontMatterLines, fieldList. case_fields c; reflexivity. Qed.

Lemma fieldList_goodKeys c :
  Forall (fun kv => goodKey (fst kv) = true) (fieldList c).
Proof.
  unfold fieldList. case_fields c; repeat constructor.
Qed.

Lemma singleLine_join (l : list string) :
  forallb singleLine l = true -> singleLine (join ", " l) = true.
Proof.
  induction l as [|a l IH]; intros H; [reflexivity|].
  simpl in H. apply andb_true_iff in H as [Ha Hl].
  destruct l as [|b l]; [exact Ha|].
  change (join ", " (a :: b :: l)) with (a +:+ ", " +:+ join ", " (b :: l)).
  rewrite !singleLine_app, Ha, (IH Hl). reflexivity.
Qed.

Lemma fieldList_singleLine c :
  singleLineFields c = true ->
  Forall (fun kv => singleLine (snd kv) = true) (fieldList c).
Proof.
  unfold singleLineFields, tagList. intros H.
  repeat (apply andb_true_iff in H as [H ?]).
  unfold fieldList.
  destruct (tags c) as [[|t ts]|];
    destruct (truthy (company c)), (truthy (title c)),
      (truthy (last_contacted c)), (truthy (next_contact c)),
      (truthy (contact_frequency c));
    repeat constructor;
    first [assumption | now apply (singleLine_join (_ :: _))].
Qed.

Lemma lineOf_singleLine kv :
  goodKey (fst kv) = true -> singleLine (snd kv) = true ->
  singleLine (lineOf kv) = true /\ notFence (lineOf kv) = true.
Proof.
  destruct kv as [k v]. unfold goodKey, lineOf. simpl fst. simpl snd.
  intros H Hv. repeat (apply andb_true_iff in H as [H ?]).
  split.
  - rewrite !singleLine_app, H, Hv. reflexivity.
  - destruct k; [discriminate|]. assumption.
Qed.

(** The frontmatter read back from an encoded document: every key
    holds what [parseLine] makes of the value written for it. *)
Lemma extractFrontMatter_fileContent c :
  singleLineFields c = true ->
  exists fm,
    extractFrontMatter (fileContent c) = Some fm
    /\ forall k,
         fm !! k = decodeValue <$> assocLast k (fieldList c).
Proof.
  intros Hsl.
  pose proof (fieldList_goodKeys c) as Hk.
  pose proof (fieldList_singleLine c Hsl) as Hv.
  assert (Hlines : Forall (fun s => singleLine s = true /\ notFence s = true)
                          (frontMatterLines c)).
  { rewrite frontMatterLines_fieldList. apply Forall_map.
    rewrite Forall_forall in Hk, Hv |- *. intros kv Hin.
    apply lineOf_singleLine; [now apply Hk | now apply Hv]. }
  assert (Hne : frontMatterLines c <> [])
    by (unfold frontMatterLines; discriminate).
  assert (Hs : Forall (fun s => singleLine s = true) (frontMatterLines c))
    by (eapply List.Forall_impl; [|exact Hlines]; now intros ? []).
  assert (Hf : Forall (fun s => notFence s = true)
                      (List.tl (frontMatterLines c))).
  { destruct (frontMatterLines c) as [|a l]; [constructor|].
    apply Forall_cons_iff in Hlines as [_ Hl]. simpl.
    eapply List.Forall_impl; [|exact Hl]. now intros ? []. }
  eexists. split.
  - unfold extractFrontMatter, fileContent.
    rewrite matchFrontMatter_fenced. unfold createFrontMatter.
    rewrite (lazyUntilFence_lines _ _ Hne Hs Hf).
    rewrite (split_join newline) ; [reflexivity | exact Hne |].
    eapply List.Forall_impl; [|exact Hs].
    intros a Ha. unfold singleLine in Ha. now apply negb_true_iff in Ha.
  - intros k. rewrite frontMatterLines_fieldList.
    rewrite (fold_parseLine _ ∅ k Hk), lookup_empty.
    now destruct (assocLast k (fieldList c)).
Qed.

Lemma assocLast_fieldList c :
  assocLast "name" (fieldList c) = Some (interp (name c))
  /\ assocLast "email" (fieldList c) = Some (interp (email c))
  /\ assocLast "phone" (fieldList c) = Some (interp (phone c))
  /\ assocLast "company" (fieldList c)
     = (if truthy (company c) then Some (interp (company c)) else None)
  /\ assocLast "title" (fieldList c)
     = (if truthy (title c) then Some (interp (title c)) else None)
  /\ assocLast "notes" (fieldList c) = None
  /\ assocLast "tags" (fieldList c)
     = match tags c with
       | Some (t :: ts) => Some (join ", " (t :: ts))
       | _ => None
       end
  /\ assocLast "created" (fieldList c) = Some (interp (created c))
  /\ assocLast "modified" (fieldList c) = Some (interp (modified c))
  /\ assocLast "last_contacted" (fieldList c)
     = (if truthy (last_contacted c)
        then Some (interp (last_contacted c)) else None)
  /\ assocLast "next_contact" (fieldList c)
     = (if truthy (next_contact c) then Some (interp (next_contact c))
        else None)
  /\ assocLast "contact_frequency" (fieldList c)
     = (if truthy (contact_frequency c)
        then Some (interp (contact_frequency c)) else None).
Proof.
  unfold fieldList. case_fields c; repeat split; reflexivity.
Qed.

(** Decoding an encoded contact: [None] when the name reads back
    empty, and otherwise the contact [readBackContact]. *)
Lemma decode_fileContent c st :
  singleLineFields c = true ->
  decode (fileContent c) st
  = if isEmpty (decodeValue (interp (name c))) then None
    else Some (readBackContact c st).
Proof.
  intros Hsl.
  destruct (extractFrontMatter_fileContent c Hsl) as (fm & Hfm & Hlk).
  destruct (assocLast_fieldList c)
    as (A1 & A2 & A3 & A4 & A5 & A6 & A7 & A8 & A9 & A10 & A11 & A12).
  unfold decode, contactOfFrontMatter. rewrite Hfm, !Hlk.
  rewrite A1, A2, A3, A4, A5, A6, A7, A8, A9, A10, A11, A12.
  unfold readBackContact, readBack, readBackTags.
  destruct (tags c) as [[|t ts]|];
    destruct (truthy (company c)), (truthy (title c)),
      (truthy (last_contacted c)), (truthy (next_contact c)),
      (truthy (contact_frequency c));
    cbn [fmap option_fmap option_map];
    try (generalize (decodeValue (join ", " (t :: ts))); intros [|a dv]);
    (generalize (decodeValue (interp (name c))); intros [|a' dn]);
    reflexivity.
Qed.



Lemma contains_join ch (l : list string) :
  contains ch ", " = false ->
  forallb (fun s => negb (contains ch s)) l = true ->
  contains ch (join ", " l) = false.
Proof.
  intros Hsep. induction l as [|a l IH]; intros H; [reflexivity|].
  simpl in H. apply andb_true_iff in H as [Ha Hl].
  apply negb_true_iff in Ha.
  destruct l as [|b l]; [exact Ha|].
  change (join ", " (a :: b :: l)) with (a +:+ ", " +:+ join ", " (b :: l)).
  now rewrite !contains_app, Ha, Hsep, (IH Hl).
Qed.

Lemma plainTag_parts t :
  plainTag t = true ->
  t <> "" /\ singleLine t = true /\ contains colon t = false
  /\ contains comma t = false /\ trim t = t.
Proof.
  unfold plainTag. intros H. repeat (apply andb_true_iff in H as [H ?]).
  repeat split.
  - apply negb_true_iff in H. now apply isEmpty_false.
  - assumption.
  - now apply negb_true_iff.
  - now apply negb_true_iff.
  - now apply String.eqb_eq.
Qed.

Lemma join_plain_trimmed (t : string) (ts : list string) :
  forallb plainTag (t :: ts) = true ->
  join ", " (t :: ts) <> "" /\ trim (join ", " (t :: ts)) = join ", " (t :: ts).
Proof.
  revert t. induction ts as [|b ts IH]; intros t H;
    simpl in H; apply andb_true_iff in H as [Ht Hts];
    destruct (plainTag_parts t Ht) as (Hne & _ & _ & _ & Htrim).
  - split; assumption.
  - destruct (IH b Hts) as [Hne' Htrim'].
    change (join ", " (t :: b :: ts)) with (t +:+ ", " +:+ join ", " (b :: ts)).
    split.
    + destruct t; [contradiction | discriminate].
    + now apply trim_app.
Qed.

Lemma decodeValue_tags (t : string) (ts : list string) :
  forallb plainTag (t :: ts) = true ->
  decodeValue (join ", " (t :: ts)) = join ", " (t :: ts).
Proof.
  intros H. apply decodeValue_clean. unfold clean.
  pose proof (proj1 (forallb_forall plainTag (t :: ts)) H) as Hparts.
  rewrite singleLine_join.
  - rewrite split_no_sep.
    + cbn [forallb]. destruct (join_plain_trimmed t ts H) as [_ ->].
      now rewrite String.eqb_refl.
    + apply contains_join; [reflexivity|].
      apply forallb_forall. intros x Hx.
      destruct (plainTag_parts x (Hparts x Hx)) as (_ & _ & Hc & _).
      now rewrite Hc.
  - apply forallb_forall. intros x Hx.
    now destruct (plainTag_parts x (Hparts x Hx)) as (_ & Hs & _).
Qed.

Lemma split_comma_join (t : string) (ts : list string) :
  forallb plainTag (t :: ts) = true ->
  List.map trim (split comma (join ", " (t :: ts))) = t :: ts.
Proof.
  revert t. induction ts as [|b ts IH]; intros t H;
    simpl in H; apply andb_true_iff in H as [Ht Hts];
    destruct (plainTag_parts t Ht) as (_ & _ & _ & Hcomma & Htrim).
  - simpl join. rewrite split_no_sep by assumption. simpl. now rewrite Htrim.
  - change (join ", " (t :: b :: ts))
      with (t +:+ String comma (String " " (join ", " (b :: ts)))).
    rewrite split_app_sep by assumption.
    destruct (split_cons_other comma " "%char (join ", " (b :: ts)) eq_refl)
      as (w & ws & E & ->).
    rewrite !List.map_cons, Htrim, (trim_ws " "%char w eq_refl).
    f_equal. rewrite <- List.map_cons, <- E. now apply IH.
Qed.

End CodecFacts.

(** ** Round trips through the codec *)

Section RoundTrip.

Implicit Types (c d : Contact) (x : option string).

Lemma clean_singleLine v : clean v = true -> singleLine v = true.
Proof. unfold clean. intros H. now apply andb_true_iff in H as [H _]. Qed.

Lemma cleanIfSet_singleLine x :
  cleanIfSet x = true -> singleLine (interp x) = true.
Proof.
  unfold cleanIfSet. destruct x as [[|a s]|]; simpl truthy; cbv iota;
    intros H; [reflexivity | now apply clean_singleLine | reflexivity].
Qed.

Lemma roundTrippable_singleLine c :
  roundTrippable c = true -> singleLineFields c = true.
Proof.
  unfold roundTrippable, singleLineFields. intros H.
  repeat (apply andb_true_iff in H as [H ?]).
  destruct (name c) as [n|], (email c) as [e|], (phone c) as [p|];
    try discriminate.
  repeat (apply andb_true_iff in H as [H ?]).
  repeat (apply andb_true_iff; split);
    try (now apply cleanIfSet_singleLine);
    try (now apply (clean_singleLine _));
    try assumption.
  apply forallb_forall. intros t Ht.
  match goal with Hp : forallb plainTag _ = true |- _ =>
    pose proof (proj1 (forallb_forall _ _) Hp t Ht) as Hpt end.
  now destruct (plainTag_parts t Hpt) as (_ & Hs & _).
Qed.

Lemma readBack_clean x :
  cleanIfSet x = true -> truthy x = true -> readBack x = x.
Proof.
  unfold cleanIfSet, readBack. intros H Ht. rewrite Ht in *.
  rewrite (decodeValue_clean _ H).
  destruct x; [reflexivity | discriminate].
Qed.

Lemma orElse_empty v : orElse (Some v) (Some "") = Some v.
Proof. now destruct v. Qed.

Lemma readBackTags_plain c :
  forallb plainTag (tagList c) = true ->
  nonEmptyList (tags c) = true ->
  readBackTags c = tags c.
Proof.
  unfold tagList, readBackTags, nonEmptyList.
  destruct (tags c) as [[|t ts]|]; try discriminate. intros H _.
  rewrite (decodeValue_tags t ts H).
  destruct (join_plain_trimmed t ts H) as [Hne _].
  apply isEmpty_false in Hne. rewrite Hne.
  now rewrite (split_comma_join t ts H).
Qed.

End RoundTrip.

(** C1, as amended: for a contact whose name, email and phone are
    present and whose frontmatter values are clean (single lines, no
    white space at an end or next to a colon; the name not empty; tags
    not empty, without comma or colon), decoding the encoded document
    yields a contact that is equal on name, email and phone and on each
    of company, title, tags, last_contacted, next_contact and
    contact_frequency that is set in the original; those that are not
    set decode as absent.  The notes are not part of the statement. *)
Theorem encode_decode_round_trip c st :
  roundTrippable c = true ->
  exists d,
    decode (fileContent c) st = Some d
    /\ agreesOnFrontMatter c d /\ absentWhenUnset c d.
Proof.
  intros H. pose proof (roundTrippable_singleLine c H) as Hsl.
  exists (readBackContact c st).
  rewrite (decode_fileContent c st Hsl).
  unfold roundTrippable in H.
  repeat (apply andb_true_iff in H as [H ?]).
  destruct (name c) as [n|] eqn:En, (email c) as [e|] eqn:Ee,
    (phone c) as [p|] eqn:Ep; try discriminate.
  repeat (apply andb_true_iff in H as [H ?]).
  simpl interp.
  rewrite (decodeValue_clean n) by assumption.
  apply negb_true_iff in H. rewrite H.
  split; [reflexivity|]. split.
  - unfold agreesOnFrontMatter, keeps, readBackContact. simpl.
    rewrite En, Ee, Ep. simpl interp.
    rewrite (decodeValue_clean n), (decodeValue_clean e),
      (decodeValue_clean p), !orElse_empty by assumption.
    repeat split; intros Hset;
      first [ now apply readBack_clean | now apply readBackTags_plain ].
  - unfold absentWhenUnset, readBackContact, readBack, readBackTags,
      nonEmptyList. simpl.
    repeat split; intros Hset; try (now rewrite Hset).
    destruct (tags c) as [[|t ts]|]; [reflexivity|discriminate|reflexivity].
Qed.

Lemma encode_decode_round_trip_witness :
  roundTrippable annFull = true
  /\ exists d,
       decode (fileContent annFull) (mkStats 1000 2000) = Some d
       /\ agreesOnFrontMatter annFull d /\ absentWhenUnset annFull d.
Proof.
  split; [reflexivity|].
  apply (encode_decode_round_trip annFull (mkStats 1000 2000)).
  reflexivity.
Defined.

(** C1, as stated, fails on a well-formed contact: a company written
    [Acme: Inc] reads back as [Acme:Inc], and the notes, which the
    encoder puts in the body, are never read back. *)
Lemma round_trip_loses_fields :
  exists d,
    decode (fileContent annAcme) (mkStats 1000 2000) = Some d
    /\ company d = Some "Acme:Inc"
    /\ notes d = None
    /\ ~ keeps truthy company annAcme d
    /\ ~ keeps truthy notes annAcme d
    /\ ~ agreesAsSpecified annAcme d.
Proof.
  eexists. split; [vm_compute; reflexivity|].
  split; [reflexivity|]. split; [reflexivity|].
  assert (H1 : ~ keeps truthy company annAcme
                   (readBackContact annAcme (mkStats 1000 2000))).
  { unfold keeps. intros H. specialize (H eq_refl). vm_compute in H.
    discriminate H. }
  assert (H2 : ~ keeps truthy notes annAcme
                   (readBackContact annAcme (mkStats 1000 2000))).
  { unfold keeps. intros H. specialize (H eq_refl). discriminate H. }
  assert (E : readBackContact annAcme (mkStats 1000 2000)
              = mkContact (Some "Ann Lee") (Some "ann@example.org")
                  (Some "555-0101") (Some "Acme:Inc") (Some "CTO") None
                  (Some ["friend"; "work"])
                  (Some "2025-02-01T00:00:00.000Z")
                  (Some "2025-02-01T00:00:00.000Z")
                  (Some "2025-04-24T09:28") (Some "2025-05-01T09:28")
                  (Some "weekly"))
    by (vm_compute; reflexivity).
  rewrite E in H1, H2.
  split; [exact H1|]. split; [exact H2|].
  intros [_ H]. exact (H2 H).
Qed.

Section EncodedLines.

Implicit Types (s x a b : string) (sep : ascii).




End EncodedLines.




(** ** The calendar of [Date] *)

(** Linear arithmetic with division and remainder by constants. *)
Ltac zdm := Z.div_mod_to_equations; lia.

Lemma DayFromYear_step y : DayFromYear (y + 1) = DayFromYear y + DaysInYear y.
Proof.
  unfold DayFromYear, DaysInYear.
  destruct (Z.eqb_spec (y mod 4) 0), (Z.eqb_spec (y mod 100) 0), (Z.eqb_spec (y mod 400) 0); simpl negb; cbv iota; zdm.
Qed.

Lemma DayFromYear_mono a b : a <= b -> DayFromYear a <= DayFromYear b.
Proof. unfold DayFromYear. intros. zdm. Qed.

(** [YearFromDay] is the year in which the day lies. *)
Lemma YearFromDay_spec d :
  DayFromYear (YearFromDay d) <= d < DayFromYear (YearFromDay d + 1).
Proof.
  unfold YearFromDay.
  set (y0 := 1970 + 400 * d / 146097).
  assert (H1 : DayFromYear (y0 - 1) <= d) by (unfold DayFromYear, y0; zdm).
  assert (H2 : d < DayFromYear (y0 + 2)) by (unfold DayFromYear, y0; zdm).
  destruct (Z.ltb_spec d (DayFromYear y0)).
  - replace (y0 - 1 + 1) with y0 by lia. lia.
  - destruct (Z.leb_spec (DayFromYear (y0 + 1)) d).
    + replace (y0 + 1 + 1) with (y0 + 2) by lia. lia.
    + lia.
Qed.

Lemma YearFromDay_unique d y :
  DayFromYear y <= d < DayFromYear (y + 1) -> YearFromDay d = y.
Proof.
  intros H. pose proof (YearFromDay_spec d) as S.
  destruct (Z.lt_trichotomy (YearFromDay d) y) as [L|[E|G]]; [|exact E|].
  - pose proof (DayFromYear_mono (YearFromDay d + 1) y ltac:(lia)). lia.
  - pose proof (DayFromYear_mono (y + 1) (YearFromDay d) ltac:(lia)). lia.
Qed.

Lemma DaysInYear_leapFlag y : DaysInYear y = 365 + leapFlag y /\ 0 <= leapFlag y <= 1.
Proof.
  unfold leapFlag, DaysInYear.
  destruct (negb (y mod 4 =? 0)), (negb (y mod 100 =? 0)), (negb (y mod 400 =? 0)); simpl; lia.
Qed.

Lemma MakeDay_month y m d :
  0 <= m < 12 ->
  MakeDay y m d = DayFromYear y + monthStart m (leapFlag y) + d - 1.
Proof.
  intros H. unfold MakeDay, leapFlag.
  rewrite Z.div_small, Z.mod_small, Z.add_0_r by lia. reflexivity.
Qed.

Lemma MakeDay_normal y m d :
  MakeDay y m d = MakeDay (y + m / 12) (m mod 12) d.
Proof.
  rewrite (MakeDay_month (y + m / 12) (m mod 12)) by (apply Z.mod_pos_bound; lia).
  reflexivity.
Qed.

Lemma MakeDay_date y m d k : MakeDay y m (d + k) = MakeDay y m d + k.
Proof. unfold MakeDay. lia. Qed.

Lemma DaysInMonth_length y m :
  0 <= m < 12 -> DaysInMonth y m = monthLength m (leapFlag y).
Proof.
  intros H. unfold DaysInMonth.
  destruct (DaysInYear_leapFlag y) as [Hy Hl].
  destruct (Z.eq_dec m 11) as [->|Hm].
  - rewrite (MakeDay_normal y (11 + 1)). change ((11 + 1) / 12) with 1. change ((11 + 1) mod 12) with 0.
    rewrite !MakeDay_month by lia. rewrite DayFromYear_step. simpl. lia.
  - rewrite !MakeDay_month by lia.
    assert (m = 0 \/ m = 1 \/ m = 2 \/ m = 3 \/ m = 4 \/ m = 5 \/ m = 6 \/ m = 7 \/ m = 8 \/ m = 9 \/ m = 10) as C by lia.
    repeat (destruct C as [->|C]); try subst m; simpl; lia.
Qed.

(** The date fields of a time value are in range and [MakeDay] takes
    them back to its day number. *)
Lemma local_fields t :
  let Y := YearFromTime t in
  let M := MonthFromTime t in
  let D := DateFromTime t in
  0 <= M < 12 /\ 1 <= D <= DaysInMonth Y M /\ MakeDay Y M D = Day t.
Proof.
  intros Y M D.
  pose proof (YearFromDay_spec (Day t)) as S. fold (YearFromTime t) in S. fold Y in S.
  rewrite DayFromYear_step in S.
  destruct (DaysInYear_leapFlag Y) as [Hy Hl].
  assert (HM : 0 <= M < 12).
  { subst M. unfold MonthFromTime.
    repeat match goal with |- context [if ?b then _ else _] => destruct b end; lia. }
  split; [exact HM|].
  rewrite (DaysInMonth_length Y M HM), (MakeDay_month Y M D HM).
  subst D M. unfold DateFromTime, MonthFromTime, DayWithinYear, InLeapYear in *.
  fold Y. fold (leapFlag Y).
  set (l := leapFlag Y) in *.
  repeat match goal with |- context [if ?a <? ?b then _ else _] => destruct (Z.ltb_spec a b) end;
    simpl monthStart; simpl monthLength; lia.
Qed.

Lemma Day_MakeDate day time :
  0 <= time < msPerDay ->
  Day (MakeDate day time) = day /\ TimeWithinDay (MakeDate day time) = time.
Proof. unfold Day, TimeWithinDay, MakeDate, msPerDay. intros. zdm. Qed.

(** The date fields of the day that [MakeDay] gives for a day that
    exists in its month. *)
Lemma fields_of_MakeDay y m d time :
  0 <= m < 12 -> 1 <= d <= DaysInMonth y m -> 0 <= time < msPerDay ->
  let t := MakeDate (MakeDay y m d) time in
  YearFromTime t = y /\ MonthFromTime t = m /\ DateFromTime t = d.
Proof.
  intros Hm Hd Ht t.
  destruct (Day_MakeDate (MakeDay y m d) time Ht) as [HD _]. fold t in HD.
  rewrite (DaysInMonth_length y m Hm) in Hd.
  rewrite (MakeDay_month y m d Hm) in HD.
  destruct (DaysInYear_leapFlag y) as [Hy Hl].
  assert (HY : YearFromTime t = y).
  { unfold YearFromTime. apply YearFromDay_unique.
    rewrite DayFromYear_step, HD, Hy.
    assert (m = 0 \/ m = 1 \/ m = 2 \/ m = 3 \/ m = 4 \/ m = 5 \/ m = 6
            \/ m = 7 \/ m = 8 \/ m = 9 \/ m = 10 \/ m = 11) as C by lia.
    repeat (destruct C as [->|C]); try subst m; simpl in *; lia. }
  split; [exact HY|].
  unfold DateFromTime, MonthFromTime, DayWithinYear, InLeapYear.
  rewrite HY, HD. fold (leapFlag y).
  set (l := leapFlag y) in *.
  assert (m = 0 \/ m = 1 \/ m = 2 \/ m = 3 \/ m = 4 \/ m = 5 \/ m = 6
          \/ m = 7 \/ m = 8 \/ m = 9 \/ m = 10 \/ m = 11) as C by lia.
  repeat (destruct C as [->|C]); try subst m; simpl in *;
    repeat match goal with
           | |- context [if ?a <? ?b then _ else _] =>
               destruct (Z.ltb_spec a b); try lia
           end; simpl; lia.
Qed.

Lemma unitOf_frequencies f :
  In f frequencies <-> exists u, unitOf f = Some u.
Proof.
  unfold unitOf, frequencies. split.
  - intros [<-|[<-|[<-|[<-|[]]]]]; eexists; reflexivity.
  - intros [u H].
    destruct (String.eqb_spec f "weekly"); [subst; simpl; tauto|].
    destruct (String.eqb_spec f "monthly"); [subst; simpl; tauto|].
    destruct (String.eqb_spec f "quarterly"); [subst; simpl; tauto|].
    destruct (String.eqb_spec f "yearly"); [subst; simpl; tauto|].
    discriminate.
Qed.

(** Each branch of the [switch] sets the date to the target day, at the
    local time of day it had. *)
Lemma advance_unit h t f u :
  unitOf f = Some u ->
  advance h (Some t) f
  = Some (TimeClip (UTC h (MakeDate (targetDay h t u)
                                    (TimeWithinDay (LocalTime h t))))).
Proof.
  unfold unitOf, advance, targetDay.
  destruct (String.eqb f "weekly");
    [intros [= <-]; simpl; now rewrite !Z.add_0_r|].
  destruct (String.eqb f "monthly");
    [intros [= <-]; simpl; now rewrite !Z.add_0_r|].
  destruct (String.eqb f "quarterly");
    [intros [= <-]; simpl; now rewrite !Z.add_0_r|].
  destruct (String.eqb f "yearly");
    [intros [= <-]; simpl; now rewrite !Z.add_0_r|].
  discriminate.
Qed.

Ltac eval_month :=
  repeat match goal with
         | |- context [Z.div ?a 12] =>
             let v := eval vm_compute in (Z.div a 12) in
             progress change (Z.div a 12) with v
         | |- context [Z.modulo ?a 12] =>
             let v := eval vm_compute in (Z.modulo a 12) in
             progress change (Z.modulo a 12) with v
         end.

(** The target day lies 7 to 366 days after the local day, not beyond
    the following year; for weekly it is 7 days after. *)
Lemma targetDay_delta h t f u :
  unitOf f = Some u ->
  7 <= targetDay h t u - Day (LocalTime h t) <= 366
  /\ targetDay h t u < DayFromYear (YearFromTime (LocalTime h t) + 2)
  /\ (f = "weekly" -> targetDay h t u = Day (LocalTime h t) + 7).
Proof.
  intros Hu. unfold targetDay.
  set (lt := LocalTime h t).
  destruct (local_fields lt) as (HM & HD & Hday).
  set (Y := YearFromTime lt) in *. set (M := MonthFromTime lt) in *.
  set (D := DateFromTime lt) in *.
  rewrite (MakeDay_month Y M D HM) in Hday.
  destruct (DaysInYear_leapFlag Y) as [Hy Hl].
  destruct (DaysInYear_leapFlag (Y + 1)) as [Hy1 Hl1].
  pose proof (DayFromYear_step Y) as Hstep.
  pose proof (DayFromYear_step (Y + 1)) as Hstep1.
  replace (Y + 1 + 1) with (Y + 2) in Hstep1 by lia.
  rewrite (DaysInMonth_length Y M HM) in HD.
  assert (C : M = 0 \/ M = 1 \/ M = 2 \/ M = 3 \/ M = 4 \/ M = 5 \/ M = 6
              \/ M = 7 \/ M = 8 \/ M = 9 \/ M = 10 \/ M = 11) by lia.
  unfold unitOf in Hu.
  destruct (String.eqb_spec f "weekly").
  { injection Hu as <-.
    rewrite !Z.add_0_r, MakeDay_date, (MakeDay_month Y M D HM).
    clearbody Y M D.
    repeat (destruct C as [C|C]); subst M; simpl monthStart in *;
      simpl monthLength in *; lia. }
  assert (Hw : (f = "weekly" -> False)) by congruence.
  destruct (String.eqb f "monthly").
  { injection Hu as <-. rewrite !Z.add_0_r.
    rewrite (MakeDay_normal Y (M + 1)).
    clearbody Y M D.
    repeat (destruct C as [C|C]); subst M; eval_month;
      rewrite ?Z.add_0_r, MakeDay_month by lia; simpl monthStart in *;
      simpl monthLength in *; (split; [|split; [|tauto]]); lia. }
  destruct (String.eqb f "quarterly").
  { injection Hu as <-. rewrite !Z.add_0_r.
    rewrite (MakeDay_normal Y (M + 3)).
    clearbody Y M D.
    repeat (destruct C as [C|C]); subst M; eval_month;
      rewrite ?Z.add_0_r, MakeDay_month by lia; simpl monthStart in *;
      simpl monthLength in *; (split; [|split; [|tauto]]); lia. }
  destruct (String.eqb f "yearly"); [|discriminate].
  injection Hu as <-. rewrite !Z.add_0_r.
  rewrite (MakeDay_month (Y + 1) M D HM).
  clearbody Y M D.
  repeat (destruct C as [C|C]); subst M; simpl monthStart in *;
    simpl monthLength in *; (split; [|split; [|tauto]]); lia.
Qed.

Lemma time_decompose t : t = Day t * msPerDay + TimeWithinDay t.
Proof. unfold Day, TimeWithinDay, msPerDay. zdm. Qed.

Lemma TimeWithinDay_range t : 0 <= TimeWithinDay t < msPerDay.
Proof. unfold TimeWithinDay, msPerDay. zdm. Qed.

Lemma clock_shift t k :
  HourFromTime (t + k * msPerDay) = HourFromTime t
  /\ MinFromTime (t + k * msPerDay) = MinFromTime t.
Proof.
  unfold HourFromTime, MinFromTime, msPerDay, msPerHour, msPerMinute.
  split; zdm.
Qed.

Lemma TimeClip_in_range t : - maxTime <= t <= maxTime -> TimeClip t = Some t.
Proof.
  intros H. unfold TimeClip.
  destruct (Z.ltb_spec maxTime (Z.abs t)); [lia | reflexivity].
Qed.

(** Away from the ends of the range of time values the setter call
    yields a valid date: the time value that the zone gives for the
    local time aimed at, which is later than the date it started
    from. *)
Lemma advance_safe h t f u :
  host_ok h -> safeLocal (LocalTime h t) -> unitOf f = Some u ->
  let x := advancedLocal h t u in
  advance h (Some t) f = Some (Some (UTC h x))
  /\ x = LocalTime h t + (targetDay h t u - Day (LocalTime h t)) * msPerDay
  /\ UTC h x
     = t + (targetDay h t u - Day (LocalTime h t)) * msPerDay
       + (LocalTZA h t true - LocalTZA h x false)
  /\ LocalTime h (UTC h x)
     = x + (LocalTZA h (UTC h x) true - LocalTZA h x false)
  /\ t < UTC h x.
Proof.
  intros [Hz _] Hsafe Hu x.
  destruct (targetDay_delta h t f u Hu) as (Hd & _ & _).
  rewrite (advance_unit h t f u Hu).
  change (MakeDate (targetDay h t u) (TimeWithinDay (LocalTime h t))) with x.
  pose proof (time_decompose (LocalTime h t)) as Hdec.
  assert (Hx : x = LocalTime h t
                   + (targetDay h t u - Day (LocalTime h t)) * msPerDay).
  { subst x. unfold advancedLocal, MakeDate. lia. }
  pose proof (Hz t true) as Z1. pose proof (Hz x false) as Z2.
  assert (E : UTC h x
              = t + (targetDay h t u - Day (LocalTime h t)) * msPerDay
                + (LocalTZA h t true - LocalTZA h x false)).
  { unfold UTC. unfold LocalTime in Hx at 1. lia. }
  split; [|split; [exact Hx|split; [exact E|split]]].
  - rewrite TimeClip_in_range; [reflexivity|].
    rewrite E. unfold safeLocal in Hsafe. unfold LocalTime in Hsafe at 1 2.
    unfold msPerDay, maxTime in *. lia.
  - unfold LocalTime at 1. unfold UTC at 1. lia.
  - rewrite E. unfold msPerDay in *. lia.
Qed.

(** *** The strings [parseISO] accepts *)

Lemma is_digit_value c :
  is_digit c = true -> 0 <= Z.of_N (code c) - 48 <= 9.
Proof.
  unfold is_digit. intros H. apply andb_true_iff in H as [H1 H2].
  apply N.leb_le in H1, H2. lia.
Qed.

Lemma takeDigits_range n acc s v s' :
  takeDigits n acc s = Some (v, s') ->
  acc * 10 ^ Z.of_nat n <= v < (acc + 1) * 10 ^ Z.of_nat n.
Proof.
  revert acc s. induction n as [|n IH]; intros acc s H.
  - simpl in H. injection H as <- _. simpl. lia.
  - simpl in H. destruct s as [|c s]; [discriminate|].
    destruct (is_digit c) eqn:Ed; [|discriminate].
    apply IH in H. pose proof (is_digit_value c Ed) as Hc.
    rewrite Nat2Z.inj_succ, Z.pow_succ_r by lia.
    assert (0 < 10 ^ Z.of_nat n) by (apply Z.pow_pos_nonneg; lia).
    nia.
Qed.

Ltac bind_some H x E :=
  match type of H with
  | context [mbind _ ?m] =>
      destruct m as [x|] eqn:E; cbn [mbind option_bind] in H;
      [|discriminate H]
  end.

Lemma parseDatePart_range s day rest :
  parseDatePart s = Some (day, rest) ->
  DayFromYear 0 <= day < DayFromYear 10000.
Proof.
  unfold parseDatePart. intros H.
  bind_some H ys E1. destruct ys as [y s1].
  bind_some H s2 E2.
  bind_some H ms E3. destruct ms as [m s3].
  bind_some H s4 E4.
  bind_some H ds E5. destruct ds as [d s5].
  destruct ((1 <=? m) && (m <=? 12) && (1 <=? d) && (d <=? DaysInMonth y (m - 1)))
    eqn:Hc; [|discriminate].
  injection H as <- _.
  repeat (apply andb_true_iff in Hc as [Hc ?]).
  apply Z.leb_le in Hc.
  repeat match goal with Hx : (_ <=? _) = true |- _ => apply Z.leb_le in Hx end.
  apply takeDigits_range in E1. simpl in E1.
  assert (Hm : 0 <= m - 1 < 12) by lia.
  rewrite (DaysInMonth_length y (m - 1) Hm) in *.
  rewrite (MakeDay_month y (m - 1) d Hm).
  destruct (DaysInYear_leapFlag y) as [Hy Hl].
  pose proof (DayFromYear_mono 0 y ltac:(lia)).
  pose proof (DayFromYear_mono (y + 1) 10000 ltac:(lia)).
  rewrite DayFromYear_step in *.
  assert (C : m - 1 = 0 \/ m - 1 = 1 \/ m - 1 = 2 \/ m - 1 = 3 \/ m - 1 = 4
              \/ m - 1 = 5 \/ m - 1 = 6 \/ m - 1 = 7 \/ m - 1 = 8
              \/ m - 1 = 9 \/ m - 1 = 10 \/ m - 1 = 11) by lia.
  repeat (destruct C as [C|C]); rewrite C in *; simpl monthStart;
    simpl monthLength in *; lia.
Qed.

Lemma parseSeconds_range s v rest :
  parseSeconds s = Some (v, rest) -> 0 <= v < 60000.
Proof.
  unfold parseSeconds. intros H.
  destruct (expect ":" s) as [s1|]; [|injection H as <- _; lia].
  bind_some H ss E1. destruct ss as [sec s2].
  apply takeDigits_range in E1. simpl in E1.
  destruct (Z.ltb_spec 59 sec); [discriminate|].
  destruct (expect "." s2) as [s3|].
  - bind_some H fs E2. destruct fs as [ms s4].
    apply takeDigits_range in E2. simpl in E2.
    injection H as <- _. unfold msPerSecond. lia.
  - injection H as <- _. unfold msPerSecond. lia.
Qed.

Lemma parseTimePart_range s time rest :
  parseTimePart s = Some (time, rest) -> 0 <= time < msPerDay.
Proof.
  unfold parseTimePart. intros H.
  bind_some H s1 E1.
  bind_some H hs E2. destruct hs as [hh s2].
  bind_some H s3 E3.
  bind_some H ms E4. destruct ms as [mm s4].
  bind_some H rs E5. destruct rs as [r s5].
  apply takeDigits_range in E2, E4. simpl in E2, E4.
  apply parseSeconds_range in E5.
  destruct (Z.leb_spec hh 23), (Z.leb_spec mm 59); try discriminate.
  injection H as <- _.
  unfold MakeTime, msPerHour, msPerMinute, msPerSecond, msPerDay. lia.
Qed.

(** The years [parseISO] reads are 0 to 9999. *)
Lemma parseISO_range s utc tv :
  parseISO s = Some (utc, tv) ->
  DayFromYear 0 * msPerDay <= tv < DayFromYear 10000 * msPerDay.
Proof.
  unfold parseISO. intros H.
  bind_some H ds E1. destruct ds as [day s1].
  apply parseDatePart_range in E1.
  assert (Hgen : forall time, 0 <= time < msPerDay ->
            DayFromYear 0 * msPerDay <= MakeDate day time
            < DayFromYear 10000 * msPerDay).
  { intros time Ht. unfold MakeDate, msPerDay in *. lia. }
  destruct (isEmpty s1).
  - injection H as _ <-. apply Hgen. unfold msPerDay. lia.
  - bind_some H ts E2. destruct ts as [time s2].
    apply parseTimePart_range in E2.
    destruct (isEmpty s2); [injection H as _ <-; now apply Hgen|].
    destruct (String.eqb s2 "Z"); [injection H as _ <-; now apply Hgen|].
    discriminate.
Qed.

(** A property checked on every integer of a range. *)
Lemma range_check (P : Z -> bool) (lo n : Z) :
  forallb P (List.map (fun i => lo + Z.of_nat i) (List.seq 0 (Z.to_nat n)))
  = true ->
  forall x, lo <= x < lo + n -> P x = true.
Proof.
  intros H x Hx. rewrite forallb_forall in H. apply H.
  apply List.in_map_iff. exists (Z.to_nat (x - lo)). split; [lia|].
  apply List.in_seq. lia.
Qed.

Lemma pad_length n : 0 <= n <= 99 -> String.length (pad (Some n)) = 2%nat.
Proof.
  intros H.
  pose proof (range_check (fun x => Nat.eqb (String.length (pad (Some x))) 2)
                0 100 ltac:(vm_compute; reflexivity) n ltac:(lia)) as E.
  now apply Nat.eqb_eq in E.
Qed.

Lemma year_length n :
  1000 <= n <= 9999 -> String.length (intToString n) = 4%nat.
Proof.
  intros H.
  pose proof (range_check (fun x => Nat.eqb (String.length (intToString x)) 4)
                1000 9000 ltac:(vm_compute; reflexivity) n ltac:(lia)) as E.
  now apply Nat.eqb_eq in E.
Qed.

Lemma YearFromDay_between a b d :
  DayFromYear a <= d < DayFromYear b -> a <= YearFromDay d < b.
Proof.
  intros H. pose proof (YearFromDay_spec d) as S. split.
  - destruct (Z.le_gt_cases a (YearFromDay d)); [assumption|].
    pose proof (DayFromYear_mono (YearFromDay d + 1) a ltac:(lia)). lia.
  - destruct (Z.lt_ge_cases (YearFromDay d) b); [assumption|].
    pose proof (DayFromYear_mono b (YearFromDay d) ltac:(lia)). lia.
Qed.

Lemma DaysInMonth_normal y m :
  DaysInMonth y m = DaysInMonth (y + m / 12) (m mod 12).
Proof.
  unfold DaysInMonth.
  rewrite (MakeDay_normal y (m + 1)), (MakeDay_normal y m).
  rewrite (MakeDay_normal (y + m / 12) (m mod 12 + 1)),
    (MakeDay_normal (y + m / 12) (m mod 12)).
  replace (y + m / 12 + (m mod 12 + 1) / 12) with (y + (m + 1) / 12) by zdm.
  replace ((m mod 12 + 1) mod 12) with ((m + 1) mod 12) by zdm.
  replace (y + m / 12 + m mod 12 / 12) with (y + m / 12) by zdm.
  replace (m mod 12 mod 12) with (m mod 12) by zdm.
  reflexivity.
Qed.

Lemma unitOf_nonneg f dy dm dd :
  unitOf f = Some (dy, dm, dd) -> 0 <= dd.
Proof.
  unfold unitOf.
  repeat match goal with
         | |- context [String.eqb ?a ?b] => destruct (String.eqb a b)
         end; intros [= <- <- <-] || discriminate; lia.
Qed.

(** The day of the month is kept when it exists in the month aimed
    at. *)
Lemma advance_landsOn h t f u t' :
  unitOf f = Some u ->
  LocalTime h t' = MakeDate (targetDay h t u) (TimeWithinDay (LocalTime h t)) ->
  landsOn h t u t'.
Proof.
  intros Hu HL. destruct u as [[dy dm] dd]. unfold landsOn.
  intros Hd. rewrite HL. unfold targetDay.
  destruct (local_fields (LocalTime h t)) as (HM & HD & _).
  pose proof (unitOf_nonneg f dy dm dd Hu) as Hdd.
  rewrite MakeDay_normal.
  rewrite DaysInMonth_normal in Hd.
  assert (H1 : 1 <= DateFromTime (LocalTime h t) + dd) by lia.
  exact (fields_of_MakeDay _ _ _ _
           (Z.mod_pos_bound _ 12 eq_refl) (conj H1 Hd)
           (TimeWithinDay_range _)).
Qed.

(** A string in the date-time format parses to a valid date far from
    the ends of the range. *)
Lemma parse_valid h T :
  host_ok h -> validTimestamp T = true ->
  exists t,
    JsDate.parse h T = Some t /\ safeLocal (LocalTime h t)
    /\ isEmpty T = false.
Proof.
  intros [Hz _] Hv. unfold validTimestamp in Hv.
  destruct (parseISO T) as [[utc tv]|] eqn:E; [|discriminate].
  assert (Hne : isEmpty T = false) by (destruct T; [discriminate|reflexivity]).
  pose proof (parseISO_range T utc tv E) as R.
  change (DayFromYear 0) with (-719528) in R.
  change (DayFromYear 10000) with 2932897 in R.
  unfold JsDate.parse. rewrite E.
  destruct utc.
  - exists tv. rewrite TimeClip_in_range
      by (unfold maxTime, msPerDay in *; lia).
    split; [reflexivity|]. split; [|exact Hne].
    pose proof (Hz tv true). unfold safeLocal, LocalTime.
    unfold maxTime, msPerDay in *. lia.
  - exists (UTC h tv). pose proof (Hz tv false).
    pose proof (Hz (UTC h tv) true).
    rewrite TimeClip_in_range
      by (unfold UTC; unfold maxTime, msPerDay in *; lia).
    split; [reflexivity|]. split; [|exact Hne].
    unfold safeLocal, LocalTime, UTC in *.
    unfold maxTime, msPerDay in *. lia.
Qed.

Lemma calculateNextContact_parsed h T f t :
  isEmpty T = false -> In f frequencies -> JsDate.parse h T = Some t ->
  calculateNextContact h T f
  = match advance h (Some t) f with
    | Some d => Some (formatLocal h d)
    | None => None
    end.
Proof.
  intros HT Hf Hp. unfold calculateNextContact. rewrite HT, Hp.
  assert (Hfe : isEmpty f = false)
    by (destruct Hf as [<-|[<-|[<-|[<-|[]]]]]; reflexivity).
  now rewrite Hfe.
Qed.

Lemma length_append s1 s2 :
  String.length (s1 +:+ s2) = (String.length s1 + String.length s2)%nat.
Proof. induction s1; simpl; congruence. Qed.

(** Two hosts with the same zone and the same parser, whatever their
    clocks say, give the same results. *)
Section ClockIndependence.

Variables h h' : Host.
Hypothesis same_zone : forall t isUTC, LocalTZA h' t isUTC = LocalTZA h t isUTC.
Hypothesis same_parser : legacyParse h' = legacyParse h.

Lemma LocalTime_ext x : LocalTime h' x = LocalTime h x.
Proof. unfold LocalTime. now rewrite same_zone. Qed.

Lemma UTC_ext x : UTC h' x = UTC h x.
Proof. unfold UTC. now rewrite same_zone. Qed.

Lemma getters_ext d :
  getFullYear h' d = getFullYear h d /\ getMonth h' d = getMonth h d
  /\ getDate h' d = getDate h d /\ getHours h' d = getHours h d
  /\ getMinutes h' d = getMinutes h d.
Proof.
  unfold getFullYear, getMonth, getDate, getHours, getMinutes.
  destruct d as [t|]; cbn [mbind option_bind]; [|now repeat split].
  now rewrite LocalTime_ext.
Qed.

Lemma setters_ext d x :
  setDate h' d x = setDate h d x /\ setMonth h' d x = setMonth h d x
  /\ setFullYear h' d x = setFullYear h d x.
Proof.
  unfold setDate, setMonth, setFullYear.
  destruct d as [t|], x as [n|]; cbn [mbind option_bind];
    rewrite ?LocalTime_ext, ?UTC_ext; now repeat split.
Qed.

Lemma advance_ext d f : advance h' d f = advance h d f.
Proof.
  unfold advance.
  destruct (getters_ext d) as (-> & -> & -> & _).
  destruct (setters_ext d (plus (getDate h d) 7)) as (-> & _).
  destruct (setters_ext d (plus (getMonth h d) 1)) as (_ & -> & _).
  destruct (setters_ext d (plus (getMonth h d) 3)) as (_ & -> & _).
  destruct (setters_ext d (plus (getFullYear h d) 1)) as (_ & _ & ->).
  reflexivity.
Qed.

Lemma formatLocal_ext d : formatLocal h' d = formatLocal h d.
Proof.
  unfold formatLocal.
  now destruct (getters_ext d) as (-> & -> & -> & -> & ->).
Qed.

Lemma parse_ext s : JsDate.parse h' s = JsDate.parse h s.
Proof.
  unfold JsDate.parse. rewrite same_parser.
  destruct (parseISO s) as [[[] tv]|]; rewrite ?UTC_ext; reflexivity.
Qed.

Lemma calculateNextContact_ignores_clock T f :
  calculateNextContact h' T f = calculateNextContact h T f.
Proof.
  unfold calculateNextContact. rewrite parse_ext, advance_ext.
  destruct (isEmpty T || isEmpty f); [reflexivity|].
  destruct (advance h (JsDate.parse h T) f); [|reflexivity].
  now rewrite formatLocal_ext.
Qed.

End ClockIndependence.

(** C2, as stated, fails: with the host's clock at 15:45 and
    [lastContacted] at 09:28, the result carries 09:28, the time of day
    of [lastContacted], and not 15:45.  Nor is the year padded: from the
    year 99 the result has a two-digit year. *)
Lemma calculateNextContact_not_clock_stamped :
  calculateNextContact afternoonHost "2025-04-24T09:28" "weekly"
  = Some "2025-05-01T09:28"
  /\ pad (getHours afternoonHost (Some (now afternoonHost))) +:+ ":"
     +:+ pad (getMinutes afternoonHost (Some (now afternoonHost))) = "15:45"
  /\ String.substring 11 5 "2025-05-01T09:28" = "09:28"
  /\ ~ clockStamped afternoonHost "2025-05-01T09:28"
  /\ calculateNextContact afternoonHost "0099-01-01T00:00" "weekly"
     = Some "99-01-08T00:00".
Proof.
  split; [vm_compute; reflexivity|]. split; [vm_compute; reflexivity|].
  split; [reflexivity|]. split; [|vm_compute; reflexivity].
  unfold clockStamped. vm_compute. discriminate.
Qed.

(* ===================================================================== *)
(** * Part III: further properties of the code                            *)
(* ===================================================================== *)

(** ** The storage folder *)

Section FolderFacts.

Variable folder : string.

Lemma lookup_app_none (v w : Vault) p :
  getAbstractFileByPath v p = None ->
  getAbstractFileByPath (v ++ w) p = getAbstractFileByPath w p.
Proof.
  unfold getAbstractFileByPath. induction v as [|a v IH]; simpl; [reflexivity|].
  destruct (String.eqb (path_of a) p); [discriminate | exact IH].
Qed.

Lemma lookup_app_some (v w : Vault) p f :
  getAbstractFileByPath v p = Some f ->
  getAbstractFileByPath (v ++ w) p = Some f.
Proof.
  unfold getAbstractFileByPath. induction v as [|a v IH]; simpl; [discriminate|].
  destruct (String.eqb (path_of a) p); [trivial | exact IH].
Qed.

Lemma lookup_app_other (v : Vault) (f : TAbstractFile) q :
  q <> path_of f ->
  getAbstractFileByPath (v ++ [f]) q = getAbstractFileByPath v q.
Proof.
  intros Hq. destruct (getAbstractFileByPath v q) as [g|] eqn:E.
  - now apply lookup_app_some.
  - rewrite (lookup_app_none v [f] q E). unfold getAbstractFileByPath. simpl.
    destruct (String.eqb_spec (path_of f) q); [congruence | reflexivity].
Qed.

Lemma ensure_run (v : Vault) :
  ensureContactsFolderExists folder v
  = (inr tt,
     match getAbstractFileByPath v folder with
     | Some _ => v
     | None => v ++ [TFolder folder]
     end).
Proof.
  unfold ensureContactsFolderExists, swallow, Obsidian.bind, getVault,
    createFolder, ret.
  destruct (getAbstractFileByPath v folder) eqn:E; [reflexivity|].
  now rewrite E.
Qed.

End FolderFacts.

(** X1: [ensureContactsFolderExists] never throws; afterwards something
    stands at the folder path; it adds at most the folder, after the
    entries that were there, and changes no other path; run a second
    time it changes nothing. *)
Theorem ensureContactsFolderExists_idempotent folder v :
  exists v',
    ensureContactsFolderExists folder v = (inr tt, v')
    /\ getAbstractFileByPath v' folder <> None
    /\ (v' = v \/ v' = v ++ [TFolder folder])
    /\ (forall q, q <> folder ->
          getAbstractFileByPath v' q = getAbstractFileByPath v q)
    /\ ensureContactsFolderExists folder v' = (inr tt, v').
Proof.
  rewrite ensure_run.
  destruct (getAbstractFileByPath v folder) as [f|] eqn:E.
  - exists v. split; [reflexivity|]. split; [congruence|].
    split; [now left|]. split; [reflexivity|].
    now rewrite ensure_run, E.
  - exists (v ++ [TFolder folder]).
    assert (Hnew : getAbstractFileByPath (v ++ [TFolder folder]) folder
                   = Some (TFolder folder)).
    { rewrite (lookup_app_none _ _ _ E). unfold getAbstractFileByPath. simpl.
      now rewrite String.eqb_refl. }
    split; [reflexivity|]. split; [congruence|].
    split; [now right|]. split.
    + intros q Hq. now apply lookup_app_other.
    + now rewrite ensure_run, Hnew.
Qed.

(** ** Creating, updating and reading back *)

Section MoreRepositoryFacts.

Variable h : Host.
Variable folder : string.

Lemma startsWith_app p s : startsWith p (p +:+ s) = true.
Proof. induction p as [|a p IH]; simpl; [reflexivity|]. now rewrite Ascii.eqb_refl. Qed.

Lemma rev_app_append s t acc :
  String.rev_app (s +:+ t) acc = String.rev_app t (String.rev_app s acc).
Proof. revert acc. induction s as [|a s IH]; intros acc; simpl; [reflexivity|]. apply IH. Qed.

Lemma endsWith_md s : endsWith ".md" (s +:+ ".md") = true.
Proof.
  unfold endsWith, String.rev. rewrite rev_app_append. simpl. reflexivity.
Qed.

Lemma filePath_shape n :
  startsWith folder (filePath folder n) = true
  /\ endsWith ".md" (filePath folder n) = true.
Proof.
  unfold filePath. split; [apply startsWith_app|].
  rewrite <- !append_assoc. apply endsWith_md.
Qed.

Lemma read_file (v : Vault) p d st :
  getAbstractFileByPath v p = Some (TFile p d st) ->
  getContactFromFile (TFile p d st) v = (inr (decode d st), v).
Proof.
  intros H. unfold getContactFromFile, Obsidian.bind, read, ret.
  simpl path_of. now rewrite H.
Qed.

Lemma createContact_run c n v :
  name c = Some n ->
  createContact h folder c v
  = match getAbstractFileByPath v (filePath folder n) with
    | Some _ => (inl (Error "File already exists."), v)
    | None =>
        (inr tt,
         v ++ [TFile (filePath folder n) (fileContent c)
                     (mkStats (now h) (now h))])
    end.
Proof.
  intros Hn. unfold createContact. rewrite Hn.
  unfold derefName, Obsidian.bind, ret, create. reflexivity.
Qed.

End MoreRepositoryFacts.

(** X2: [createContact] on a contact with a name writes one new file,
    at [<folder>/<name with non-alphanumerics replaced>.md], after the
    entries that were there, with the encoded contact as text and the
    clock as creation and modification time, and touches no other path;
    when something stands at that path it throws and changes nothing. *)
Theorem createContact_creates h folder c n v :
  name c = Some n ->
  (getAbstractFileByPath v (filePath folder n) = None ->
   exists f,
     f = TFile (folder +:+ "/" +:+ replaceNonAlnum n +:+ ".md")
               (fileContent c) (mkStats (now h) (now h))
     /\ createContact h folder c v = (inr tt, v ++ [f])
     /\ getAbstractFileByPath (v ++ [f]) (filePath folder n) = Some f
     /\ forall q, q <> filePath folder n ->
          getAbstractFileByPath (v ++ [f]) q = getAbstractFileByPath v q)
  /\ (getAbstractFileByPath v (filePath folder n) <> None ->
      createContact h folder c v = (inl (Error "File already exists."), v)).
Proof.
  intros Hn. rewrite (createContact_run h folder c n v Hn). split.
  - intros Hfree. rewrite Hfree. eexists. split; [reflexivity|].
    split; [reflexivity|]. split.
    + rewrite (lookup_app_none _ _ _ Hfree).
      unfold getAbstractFileByPath. simpl. unfold filePath.
      now rewrite String.eqb_refl.
    + intros q Hq. now apply lookup_app_other.
  - intros Htaken.
    destruct (getAbstractFileByPath v (filePath folder n));
      [reflexivity | contradiction].
Qed.

Lemma createContact_creates_witness :
  name zed = Some "Zed"
  /\ getAbstractFileByPath [TFolder "Contacts"] (filePath "Contacts" "Zed") = None
  /\ createContact utcHost "Contacts" zed [TFolder "Contacts"]
     = (inr tt,
        [TFolder "Contacts";
         TFile "Contacts/Zed.md" (fileContent zed)
               (mkStats (now utcHost) (now utcHost))]).
Proof.
  split; [reflexivity|]. split; [reflexivity|].
  destruct (createContact_creates utcHost "Contacts" zed "Zed"
              [TFolder "Contacts"] eq_refl) as [Hfree _].
  destruct (Hfree eq_refl) as (f & -> & Hrun & _).
  exact Hrun.
Defined.

Section ListingAfterCreate.

Variable h : Host.
Variable folder : string.

Lemma markdown_app (v w : Vault) :
  getMarkdownFiles (v ++ w) = getMarkdownFiles v ++ getMarkdownFiles w.
Proof. unfold getMarkdownFiles. apply List.filter_app. Qed.

(** Decoding an encoded round-trippable contact. *)
Lemma decode_roundTrippable c st :
  roundTrippable c = true ->
  decode (fileContent c) st = Some (readBackContact c st)
  /\ agreesOnFrontMatter c (readBackContact c st).
Proof.
  intros H. pose proof (roundTrippable_singleLine c H) as Hsl.
  rewrite (decode_fileContent c st Hsl).
  unfold roundTrippable in H.
  repeat (apply andb_true_iff in H as [H ?]).
  destruct (name c) as [n|] eqn:En, (email c) as [e|] eqn:Ee,
    (phone c) as [p|] eqn:Ep; try discriminate.
  repeat (apply andb_true_iff in H as [H ?]).
  simpl interp.
  rewrite (decodeValue_clean n) by assumption.
  apply negb_true_iff in H. rewrite H.
  split; [reflexivity|].
  unfold agreesOnFrontMatter, keeps, readBackContact. simpl.
  rewrite En, Ee, Ep. simpl interp.
  rewrite (decodeValue_clean n), (decodeValue_clean e),
    (decodeValue_clean p), !orElse_empty by assumption.
  repeat split; intros Hset;
    first [ now apply readBack_clean | now apply readBackTags_plain ].
Qed.

Lemma nodup_app_fresh (v : Vault) (f : TAbstractFile) :
  List.NoDup (List.map path_of v) ->
  getAbstractFileByPath v (path_of f) = None ->
  List.NoDup (List.map path_of (v ++ [f])).
Proof.
  intros Hnd Hfree. rewrite List.map_app. simpl.
  apply List.NoDup_app; [exact Hnd | repeat constructor; intros [] |].
  intros p Hp [<-|[]].
  apply List.in_map_iff in Hp as (g & Hg & Hin).
  pose proof (proj1 (lookup_none_iff v (path_of f)) Hfree g Hin) as E.
  rewrite Hg, String.eqb_refl in E. discriminate.
Qed.

End ListingAfterCreate.

(** X3: in a vault with distinct paths in which the storage folder
    exists, creating a round-trippable contact at a free path and then
    listing gives the former listing followed by one more contact, which
    agrees with the created one on its frontmatter fields. *)
Theorem createContact_then_getAllContacts h folder c n v l :
  roundTrippable c = true ->
  name c = Some n ->
  List.NoDup (List.map path_of v) ->
  getAbstractFileByPath v folder <> None ->
  getAbstractFileByPath v (filePath folder n) = None ->
  getAllContacts folder v = (inr l, v) ->
  exists d v',
    (createContact h folder c ;;; getAllContacts folder) v
    = (inr (l ++ [d]), v')
    /\ agreesOnFrontMatter c d.
Proof.
  intros Hrt Hn Hnd Hfolder Hfree Hl.
  set (f := TFile (filePath folder n) (fileContent c) (mkStats (now h) (now h))).
  assert (Hrun : createContact h folder c v = (inr tt, v ++ [f])).
  { rewrite (createContact_run h folder c n v Hn). now rewrite Hfree. }
  destruct (decode_roundTrippable c (mkStats (now h) (now h)) Hrt)
    as (Hd & Hagree).
  exists (readBackContact c (mkStats (now h) (now h))), (v ++ [f]).
  split; [|exact Hagree].
  unfold Obsidian.bind at 1. rewrite Hrun.
  rewrite (getAllContacts_spec folder v Hnd) in Hl.
  rewrite (getAllContacts_spec folder (v ++ [f])
             (nodup_app_fresh v f Hnd Hfree)).
  destruct (getAbstractFileByPath v folder) as [g|] eqn:Eg; [|contradiction].
  rewrite (lookup_app_some _ _ _ _ Eg).
  injection Hl as <-.
  rewrite markdown_app, List.filter_app, omap_app.
  destruct (filePath_shape folder n) as [Hs He].
  unfold getMarkdownFiles at 2. simpl List.filter at 2.
  subst f. cbn [List.filter]. rewrite He. cbn [List.filter path_of].
  rewrite Hs. cbn [omap list_omap decodeFile]. now rewrite Hd.
Qed.

Lemma createContact_then_getAllContacts_witness :
  roundTrippable zed = true
  /\ name zed = Some "Zed"
  /\ List.NoDup (List.map path_of [TFolder "Contacts"])
  /\ getAbstractFileByPath [TFolder "Contacts"] "Contacts" <> None
  /\ getAbstractFileByPath [TFolder "Contacts"] (filePath "Contacts" "Zed") = None
  /\ getAllContacts "Contacts" [TFolder "Contacts"] = (inr [], [TFolder "Contacts"])
  /\ exists d v',
       (createContact utcHost "Contacts" zed ;;; getAllContacts "Contacts")
         [TFolder "Contacts"]
       = (inr ([] ++ [d]), v')
       /\ agreesOnFrontMatter zed d.
Proof.
  assert (H3 : List.NoDup (List.map path_of [TFolder "Contacts"]))
    by (repeat constructor; intros []).
  assert (H4 : getAbstractFileByPath [TFolder "Contacts"] "Contacts" <> None)
    by discriminate.
  split; [reflexivity|]. split; [reflexivity|]. split; [exact H3|].
  split; [exact H4|]. split; [reflexivity|]. split; [reflexivity|].
  exact (createContact_then_getAllContacts utcHost "Contacts" zed "Zed"
           [TFolder "Contacts"] [] eq_refl eq_refl H3 H4 eq_refl eq_refl).
Defined.

Section UpdateFacts.

Variable h : Host.
Variable folder : string.

Lemma modify_twice (v v' : Vault) p d st data' :
  getAbstractFileByPath v p = Some (TFile p d st) ->
  modify h (TFile p d st) data' v = (inr tt, v') ->
  modify h (TFile p data' (mkStats (ctime st) (now h))) data' v' = (inr tt, v').
Proof.
  intros Hp Hm. unfold modify in *. simpl path_of in *. rewrite Hp in Hm.
  injection Hm as <-.
  set (g := fun f : TAbstractFile => _).
  assert (Hg : forall f, path_of (g f) = path_of f).
  { intros [p' d' st'|p']; simpl; [|reflexivity].
    destruct (String.eqb p' p); reflexivity. }
  rewrite (lookup_map g v p p) by (intros; now rewrite Hg).
  rewrite Hp. simpl. rewrite String.eqb_refl. f_equal.
  rewrite List.map_map. apply List.map_ext.
  intros [p' d' st'|p']; simpl; [|reflexivity].
  destruct (String.eqb p' p) eqn:E; simpl; now rewrite E.
Qed.

Lemma updateContact_same_path c orig n old v :
  name c = Some n ->
  orElse orig (name c) = Some old ->
  filePath folder old = filePath folder n ->
  updateContact h folder c orig v
  = match getAbstractFileByPath v (filePath folder n) with
    | None => (inl (Error "Original contact file not found"), v)
    | Some (TFile p d st) => modify h (TFile p d st) (fileContent c) v
    | Some (TFolder _) => (inl (Error "Updated contact file not found"), v)
    end.
Proof.
  intros Hn Ho Hsame.
  rewrite (updateContact_unfold h folder c orig n old v Hn Ho), Hsame.
  rewrite String.eqb_refl. simpl negb.
  destruct (getAbstractFileByPath v (filePath folder n)) as [[p d st|p]|] eqn:E;
    unfold Obsidian.bind, ret, getVault, throw; rewrite ?E; reflexivity.
Qed.

End UpdateFacts.

(** X4: when the old and the new name derive the same path and a file
    stands there, [updateContact] overwrites its text with the encoded
    contact, sets its modification time to the clock's, and keeps its
    creation time and every path of the vault.  Doing it again, at
    whatever time, changes nothing but the modification time of that
    file, and nothing at all when the clock reads the same.  When a
    folder stands there it throws and changes nothing. *)
Theorem updateContact_in_place h folder c orig n old v :
  name c = Some n ->
  orElse orig (name c) = Some old ->
  filePath folder old = filePath folder n ->
  (forall d st,
     getAbstractFileByPath v (filePath folder n)
     = Some (TFile (filePath folder n) d st) ->
     exists v',
       updateContact h folder c orig v = (inr tt, v')
       /\ getAbstractFileByPath v' (filePath folder n)
          = Some (TFile (filePath folder n) (fileContent c)
                        (mkStats (ctime st) (now h)))
       /\ List.map path_of v' = List.map path_of v
       /\ (forall q, q <> filePath folder n ->
             getAbstractFileByPath v' q = getAbstractFileByPath v q)
       /\ forall h', exists v'',
            updateContact h' folder c orig v' = (inr tt, v'')
            /\ getAbstractFileByPath v'' (filePath folder n)
               = Some (TFile (filePath folder n) (fileContent c)
                             (mkStats (ctime st) (now h')))
            /\ List.map path_of v'' = List.map path_of v'
            /\ (forall q, q <> filePath folder n ->
                  getAbstractFileByPath v'' q = getAbstractFileByPath v' q)
            /\ (now h' = now h -> v'' = v'))
  /\ (getAbstractFileByPath v (filePath folder n)
      = Some (TFolder (filePath folder n)) ->
      updateContact h folder c orig v
      = (inl (Error "Updated contact file not found"), v)).
Proof.
  intros Hn Ho Hsame. split.
  - intros d st Hdoc.
    destruct (modify_file h v _ d st (fileContent c) Hdoc)
      as (v' & Hmod & Hnew & Hpaths & Hoth).
    exists v'.
    rewrite (updateContact_same_path h folder c orig n old v Hn Ho Hsame), Hdoc.
    repeat (split; [assumption|]).
    intros h'.
    destruct (modify_file h' v' _ (fileContent c) (mkStats (ctime st) (now h))
                (fileContent c) Hnew)
      as (v'' & Hmod' & Hnew' & Hpaths' & Hoth').
    exists v''.
    rewrite (updateContact_same_path h' folder c orig n old v' Hn Ho Hsame),
      Hnew.
    repeat (split; [assumption|]).
    intros Hclock.
    pose proof (modify_twice h v v' _ d st (fileContent c) Hdoc Hmod) as Htw.
    assert (Hsame' : modify h' (TFile (filePath folder n) (fileContent c)
                                 (mkStats (ctime st) (now h)))
                       (fileContent c) v'
                     = modify h (TFile (filePath folder n) (fileContent c)
                                   (mkStats (ctime st) (now h)))
                         (fileContent c) v')
      by (unfold modify; now rewrite Hclock).
    rewrite Hsame', Htw in Hmod'. now injection Hmod' as <-.
  - intros Hdir.
    now rewrite (updateContact_same_path h folder c orig n old v Hn Ho Hsame),
      Hdir.
Qed.

Lemma updateContact_in_place_witness :
  name bobNew = Some "Bob New"
  /\ orElse None (name bobNew) = Some "Bob New"
  /\ filePath "Contacts" "Bob New" = filePath "Contacts" "Bob New"
  /\ exists v',
       updateContact utcHost "Contacts" bobNew None
         [TFolder "Contacts";
          TFile "Contacts/Bob-New.md" "old text" (mkStats 1000 2000)]
       = (inr tt, v')
       /\ getAbstractFileByPath v' (filePath "Contacts" "Bob New")
          = Some (TFile (filePath "Contacts" "Bob New") (fileContent bobNew)
                        (mkStats 1000 (now utcHost))).
Proof.
  split; [reflexivity|]. split; [reflexivity|]. split; [reflexivity|].
  destruct (updateContact_in_place utcHost "Contacts" bobNew None "Bob New"
              "Bob New"
              [TFolder "Contacts";
               TFile "Contacts/Bob-New.md" "old text" (mkStats 1000 2000)]
              eq_refl eq_refl eq_refl) as [Hfile _].
  destruct (Hfile "old text" (mkStats 1000 2000) eq_refl)
    as (v' & Hrun & Hnew & _).
  exists v'. split; [exact Hrun | exact Hnew].
Defined.

(** X5: after [updateContact] has succeeded for a round-trippable
    contact, in place or with a rename to a free path, reading the file
    at the path derived from the contact's name gives a contact that
    agrees with it on its frontmatter fields. *)
Theorem updateContact_then_read h folder c orig n old v d st :
  roundTrippable c = true ->
  name c = Some n ->
  orElse orig (name c) = Some old ->
  getAbstractFileByPath v (filePath folder old)
  = Some (TFile (filePath folder old) d st) ->
  filePath folder old = filePath folder n
  \/ getAbstractFileByPath v (filePath folder n) = None ->
  exists v' f c',
    updateContact h folder c orig v = (inr tt, v')
    /\ getAbstractFileByPath v' (filePath folder n) = Some f
    /\ getContactFromFile f v' = (inr (Some c'), v')
    /\ agreesOnFrontMatter c c'.
Proof.
  intros Hrt Hn Ho Hold Hcase.
  set (st' := mkStats (ctime st) (now h)).
  destruct (decode_roundTrippable c st' Hrt) as (Hd & Hagree).
  assert (Hgoal : exists v',
            updateContact h folder c orig v = (inr tt, v')
            /\ getAbstractFileByPath v' (filePath folder n)
               = Some (TFile (filePath folder n) (fileContent c) st')).
  { destruct (String.eqb_spec (filePath folder old) (filePath folder n))
      as [Hsame|Hdiff].
    - rewrite Hsame in Hold.
      destruct (modify_file h v _ d st (fileContent c) Hold)
        as (v' & Hmod & Hnew & _).
      exists v'. split; [|exact Hnew].
      now rewrite (updateContact_same_path h folder c orig n old v Hn Ho Hsame),
        Hold.
    - destruct Hcase as [Hsame|Hfree]; [contradiction|].
      destruct (rename_file v _ _ d st Hold Hfree Hdiff)
        as (v1 & Hren & Hnew1 & _).
      destruct (modify_file h v1 _ d st (fileContent c) Hnew1)
        as (v2 & Hmod & Hnew2 & _).
      exists v2. split; [|exact Hnew2].
      rewrite (updateContact_unfold h folder c orig n old v Hn Ho), Hold.
      apply String.eqb_neq in Hdiff. rewrite Hdiff. simpl negb.
      unfold Obsidian.bind at 1. rewrite Hren.
      unfold Obsidian.bind, getVault. now rewrite Hnew1. }
  destruct Hgoal as (v' & Hrun & Hnew).
  exists v', (TFile (filePath folder n) (fileContent c) st'),
    (readBackContact c st').
  split; [exact Hrun|]. split; [exact Hnew|]. split; [|exact Hagree].
  now rewrite (read_file v' _ _ _ Hnew), Hd.
Qed.

Lemma updateContact_then_read_witness :
  roundTrippable bobNew = true
  /\ name bobNew = Some "Bob New"
  /\ orElse (Some "Bob Old") (name bobNew) = Some "Bob Old"
  /\ getAbstractFileByPath bobVault (filePath "Contacts" "Bob Old")
     = Some (TFile (filePath "Contacts" "Bob Old") "old text"
                   (mkStats 1000 2000))
  /\ getAbstractFileByPath bobVault (filePath "Contacts" "Bob New") = None
  /\ exists v' f c',
       updateContact utcHost "Contacts" bobNew (Some "Bob Old") bobVault
       = (inr tt, v')
       /\ getAbstractFileByPath v' (filePath "Contacts" "Bob New") = Some f
       /\ getContactFromFile f v' = (inr (Some c'), v')
       /\ agreesOnFrontMatter bobNew c'.
Proof.
  split; [reflexivity|]. split; [reflexivity|]. split; [reflexivity|].
  split; [reflexivity|]. split; [reflexivity|].
  exact (updateContact_then_read utcHost "Contacts" bobNew (Some "Bob Old")
           "Bob New" "Bob Old" bobVault "old text" (mkStats 1000 2000)
           eq_refl eq_refl eq_refl eq_refl (or_intror eq_refl)).
Defined.

(** X6: a contact without a name cannot be stored: [createContact] and
    [updateContact] throw a TypeError before they touch the vault,
    whatever the original name, and so does the "Mark as Contacted"
    button of a dialog opened without a contact. *)
Theorem nameless_contact_throws h folder view c orig v :
  name c = None ->
  let e := TypeError "Cannot read properties of undefined (reading 'replace')" in
  createContact h folder c v = (inl e, v)
  /\ updateContact h folder c orig v = (inl e, v)
  /\ snd (markAsContacted h folder view (construct None)) v = (inl e, v).
Proof.
  intros Hn e. split; [|split].
  - unfold createContact. now rewrite Hn.
  - unfold updateContact. rewrite Hn.
    unfold orElse. destruct (truthy orig) eqn:Et.
    + destruct orig as [o|]; [reflexivity | discriminate].
    + reflexivity.
  - reflexivity.
Qed.

Lemma nameless_contact_throws_witness :
  name emptyContact = None
  /\ createContact utcHost "Contacts" emptyContact [TFolder "Contacts"]
     = (inl (TypeError "Cannot read properties of undefined (reading 'replace')"),
        [TFolder "Contacts"]).
Proof.
  split; [reflexivity|].
  destruct (nameless_contact_throws utcHost "Contacts" true emptyContact None
              [TFolder "Contacts"] eq_refl) as [H _].
  exact H.
Defined.

(** ** What decoding yields *)

Section DecodeFacts.

Implicit Types (s : string) (fm : gmap string string).

Lemma trimEnd_idem s : trimEnd (trimEnd s) = trimEnd s.
Proof.
  induction s as [|c s IH]; simpl; [reflexivity|].
  destruct (is_ws c && isEmpty (trimEnd s)) eqn:E; [reflexivity|].
  simpl. rewrite IH, E. reflexivity.
Qed.

Lemma trimStart_head s :
  match trimStart s with String c _ => is_ws c = false | EmptyString => True end.
Proof.
  induction s as [|c s IH]; simpl; [trivial|].
  destruct (is_ws c) eqn:E; [exact IH | exact E].
Qed.

Lemma trimEnd_head s :
  match s with String c _ => is_ws c = false | EmptyString => True end ->
  match trimEnd s with String c _ => is_ws c = false | EmptyString => True end.
Proof.
  destruct s as [|c s]; simpl; [trivial|]. intros E. rewrite E. simpl. exact E.
Qed.

Lemma trim_trimmed s : trimmed (trim s).
Proof.
  unfold trimmed, trim at 1.
  rewrite (trimStart_id (trim s)).
  - unfold trim. apply trimEnd_idem.
  - unfold trim. apply trimEnd_head, trimStart_head.
Qed.

Lemma trimEnd_colon s : trimEnd (String colon s) = String colon (trimEnd s).
Proof. reflexivity. Qed.

Lemma trimEnd_join (l : list string) :
  Forall trimmed l -> trimEnd (join ":" l) = join ":" l.
Proof.
  induction l as [|a l IH]; intros H; [reflexivity|].
  apply Forall_cons_iff in H as [Ha Hl].
  destruct l as [|b l]; [now apply trim_id_end|].
  change (join ":" (a :: b :: l)) with (a +:+ String colon (join ":" (b :: l))).
  apply trimEnd_app; [discriminate|].
  rewrite trimEnd_colon. now rewrite (IH Hl).
Qed.

Lemma trimmed_join (l : list string) :
  Forall trimmed l -> trimmed (join ":" l).
Proof.
  intros H. unfold trimmed, trim. rewrite trimStart_id.
  - now apply trimEnd_join.
  - destruct l as [|a l]; [exact I|].
    pose proof (Forall_inv H) as Ha. apply trim_id_head in Ha.
    destruct l as [|b l]; [exact Ha|].
    change (join ":" (a :: b :: l)) with (a +:+ String colon (join ":" (b :: l))).
    destruct a; [reflexivity | exact Ha].
Qed.

Lemma parseLine_trimmed fm line :
  map_Forall (fun _ v => trimmed v) fm ->
  map_Forall (fun _ v => trimmed v) (parseLine fm line).
Proof.
  intros H. unfold parseLine.
  destruct (List.map trim (split colon line)) as [|key values] eqn:E;
    [exact H|].
  destruct (negb (isEmpty key) && negb (Nat.eqb (List.length values) 0));
    [|exact H].
  destruct (String.eqb key "__proto__"); [exact H|].
  apply map_Forall_insert_2; [|exact H].
  apply trimmed_join.
  assert (Hall : Forall trimmed (key :: values)).
  { rewrite <- E. apply Forall_map, Forall_forall. intros x _.
    apply trim_trimmed. }
  now apply Forall_inv_tail in Hall.
Qed.

Lemma extractFrontMatter_trimmed content fm :
  extractFrontMatter content = Some fm ->
  map_Forall (fun _ v => trimmed v) fm.
Proof.
  unfold extractFrontMatter.
  destruct (matchFrontMatter content) as [yaml|]; [|discriminate].
  intros [= <-].
  generalize (split newline yaml). intros lines.
  assert (Hgen : forall acc : gmap string string,
            map_Forall (fun _ v => trimmed v) acc ->
            map_Forall (fun _ v => trimmed v)
                       (List.fold_left parseLine lines acc)).
  { induction lines as [|l lines IH]; intros acc Hacc; [exact Hacc|].
    simpl. apply IH. now apply parseLine_trimmed. }
  apply Hgen. apply map_Forall_empty.
Qed.

Lemma orElse_default x y :
  orElse x (Some y) = Some (if truthy x then interp x else y).
Proof.
  unfold orElse. destruct (truthy x) eqn:E; [|reflexivity].
  destruct x; [reflexivity | discriminate].
Qed.

End DecodeFacts.

(** X7: whatever the text of a document, a contact decoded from it has a
    non-empty name and a defined email, phone, created and modified (an
    absent or empty email or phone reads as the empty string, an absent
    created or modified as the file's time stamp), its scalar fields have
    no white space at either end, and its tags, when present, are a
    non-empty list of strings without white space at either end. *)
Theorem decode_invariants content st d :
  decode content st = Some d ->
  truthy (name d) = true
  /\ (exists e, email d = Some e) /\ (exists p, phone d = Some p)
  /\ (exists t, created d = Some t) /\ (exists t, modified d = Some t)
  /\ trimmedIfSet (name d) /\ trimmedIfSet (email d)
  /\ trimmedIfSet (phone d) /\ trimmedIfSet (company d)
  /\ trimmedIfSet (title d) /\ trimmedIfSet (notes d)
  /\ trimmedIfSet (last_contacted d)
  /\ trimmedIfSet (next_contact d) /\ trimmedIfSet (contact_frequency d)
  /\ (forall l, tags d = Some l -> l <> [] /\ Forall trimmed l).
Proof.
  unfold decode.
  destruct (extractFrontMatter content) as [fm|] eqn:Efm; [|discriminate].
  pose proof (extractFrontMatter_trimmed content fm Efm) as Htr.
  assert (Hk : forall k, trimmedIfSet (fm !! k)).
  { intros k. destruct (fm !! k) as [x|] eqn:E; [|exact I].
    exact (Htr k x E). }
  unfold contactOfFrontMatter.
  destruct (truthy (fm !! "name")) eqn:En; simpl negb; cbv iota;
    [|discriminate].
  intros [= <-]. cbn [name email phone company title notes tags created
                       modified last_contacted next_contact contact_frequency].
  rewrite !orElse_default.
  split; [exact En|].
  repeat (split; [eexists; reflexivity|]).
  split; [apply Hk|].
  split.
  { pose proof (Hk "email") as H. unfold trimmedIfSet.
    destruct (truthy (fm !! "email")) eqn:E; [|reflexivity].
    destruct (fm !! "email"); [exact H | discriminate]. }
  split.
  { pose proof (Hk "phone") as H. unfold trimmedIfSet.
    destruct (truthy (fm !! "phone")) eqn:E; [|reflexivity].
    destruct (fm !! "phone"); [exact H | discriminate]. }
  repeat (split; [apply Hk|]).
  intros l Hl.
  destruct (truthy (fm !! "tags")); [|discriminate].
  destruct (fm !! "tags") as [t|]; [|discriminate].
  cbn [fmap option_fmap option_map] in Hl. injection Hl as <-. split.
  - intros E. apply List.map_eq_nil in E. now apply split_not_nil in E.
  - apply Forall_map, Forall_forall. intros x _. apply trim_trimmed.
Qed.

Lemma decode_invariants_witness :
  decode (fileContent annFull) (mkStats 1000 2000)
  = Some (readBackContact annFull (mkStats 1000 2000))
  /\ truthy (name (readBackContact annFull (mkStats 1000 2000))) = true.
Proof.
  assert (H : decode (fileContent annFull) (mkStats 1000 2000)
              = Some (readBackContact annFull (mkStats 1000 2000)))
    by (vm_compute; reflexivity).
  split; [exact H|].
  destruct (decode_invariants _ _ _ H) as [Hn _]. exact Hn.
Defined.

(** ** The listing *)

Section ListingMembers.

Variable folder : string.

Lemma in_markdown (v : Vault) f :
  In f (getMarkdownFiles v)
  <-> exists p d st, f = TFile p d st /\ In f v /\ endsWith ".md" p = true.
Proof.
  unfold getMarkdownFiles. rewrite List.filter_In. split.
  - intros [Hin H]. destruct f as [p d st|p]; [|discriminate].
    now exists p, d, st.
  - intros (p & d & st & -> & Hin & H). now split.
Qed.

Lemma in_omap_decodeFile (files : list TAbstractFile) c :
  In c (omap decodeFile files)
  <-> exists p d st, In (TFile p d st) files /\ decode d st = Some c.
Proof.
  rewrite <- !list_elem_of_In, list_elem_of_omap. split.
  - intros (f & Hf & Hd). destruct f as [p d st|p]; [|discriminate].
    exists p, d, st. now rewrite <- list_elem_of_In.
  - intros (p & d & st & Hf & Hd). exists (TFile p d st).
    now rewrite list_elem_of_In.
Qed.

Lemma length_omap {A B} (f : A -> option B) (l : list A) :
  (List.length (omap f l) <= List.length l)%nat.
Proof.
  unfold omap. induction l as [|a l IH]; simpl; [lia|].
  destruct (f a); simpl; lia.
Qed.

Lemma length_filter {A} (f : A -> bool) (l : list A) :
  (List.length (List.filter f l) <= List.length l)%nat.
Proof.
  induction l as [|a l IH]; simpl; [lia|].
  destruct (f a); simpl; lia.
Qed.

End ListingMembers.

(** X8: in a vault whose paths are distinct, [getAllContacts] never
    throws and leaves the vault as it was.  Without an entry at the
    folder path the list is empty.  Otherwise a contact is listed exactly
    when some file whose path ends in [.md] and starts with the folder
    string decodes to it; every listed contact has a non-empty name, and
    the list is no longer than the list of markdown files. *)
Theorem getAllContacts_listing folder (v : Vault) :
  List.NoDup (List.map path_of v) ->
  exists l,
    getAllContacts folder v = (inr l, v)
    /\ (getAbstractFileByPath v folder = None -> l = [])
    /\ (getAbstractFileByPath v folder <> None ->
        forall c, In c l <->
          exists p d st,
            In (TFile p d st) v /\ endsWith ".md" p = true
            /\ startsWith folder p = true /\ decode d st = Some c)
    /\ (forall c, In c l -> truthy (name c) = true)
    /\ (List.length l <= List.length (getMarkdownFiles v))%nat.
Proof.
  intros Hnd. rewrite (getAllContacts_spec folder v Hnd).
  eexists. split; [reflexivity|].
  destruct (getAbstractFileByPath v folder) as [e|] eqn:E.
  - split; [discriminate|]. split; [|split].
    + intros _ c. rewrite in_omap_decodeFile. split.
      * intros (p & d & st & Hin & Hd).
        apply List.filter_In in Hin as [Hin Hs].
        apply in_markdown in Hin as (p' & d' & st' & [= <- <- <-] & Hin & He).
        now exists p, d, st.
      * intros (p & d & st & Hin & He & Hs & Hd).
        exists p, d, st. split; [|exact Hd].
        apply List.filter_In. split; [|exact Hs].
        apply in_markdown. now exists p, d, st.
    + intros c Hc. apply in_omap_decodeFile in Hc as (p & d & st & _ & Hd).
      unfold decode in Hd.
      destruct (extractFrontMatter d) as [fm|]; [|discriminate].
      unfold contactOfFrontMatter in Hd.
      destruct (truthy (fm !! "name")) eqn:En; [|discriminate].
      simpl in Hd. injection Hd as <-. exact En.
    + etransitivity; [apply length_omap | apply length_filter].
  - split; [reflexivity|]. split; [intros H; now contradiction H|].
    split; [intros c []|]. simpl. lia.
Qed.

Lemma getAllContacts_listing_witness :
  exists l,
    getAllContacts "Contacts" annVault = (inr l, annVault)
    /\ (List.length l <= List.length (getMarkdownFiles annVault))%nat.
Proof.
  destruct (getAllContacts_listing "Contacts" annVault) as (l & H & _ & _ & _ & Hl).
  - vm_compute. repeat constructor; intros H; vm_compute in H; intuition discriminate.
  - exists l. split; [exact H | exact Hl].
Defined.

(** ** What a written document always has *)

Section DocumentFacts.

Lemma lazyUntilFence_found a b :
  lazyUntilFence (a +:+ nl +:+ "---" +:+ b) <> None.
Proof.
  induction a as [|x a IH].
  - discriminate.
  - change (String x a +:+ nl +:+ "---" +:+ b)
      with (String x (a +:+ nl +:+ "---" +:+ b)).
    rewrite lazyUntilFence_cons.
    destruct (Ascii.eqb newline x && startsWith "---" (a +:+ nl +:+ "---" +:+ b));
      [discriminate|].
    destruct (lazyUntilFence (a +:+ nl +:+ "---" +:+ b));
      [discriminate | contradiction].
Qed.

Lemma blank_trimStart s : nonblank s = false -> trimStart s = "".
Proof.
  induction s as [|c s IH]; simpl; [reflexivity|].
  intros H. apply orb_false_iff in H as [Hc Hs].
  apply negb_false_iff in Hc. rewrite Hc. now apply IH.
Qed.

Lemma blank_no_colon s : nonblank s = false -> contains colon s = false.
Proof.
  induction s as [|c s IH]; simpl; [reflexivity|].
  intros H. apply orb_false_iff in H as [Hc Hs].
  apply negb_false_iff in Hc. rewrite (IH Hs), orb_false_r.
  destruct (Ascii.eqb_spec c colon) as [->|]; [discriminate Hc | reflexivity].
Qed.

Lemma decodeValue_blank v : nonblank v = false -> decodeValue v = "".
Proof.
  intros H. unfold decodeValue.
  rewrite split_no_sep by (simpl; now apply blank_no_colon).
  cbn [List.map join]. rewrite (trim_ws " "%char v eq_refl).
  unfold trim. now rewrite blank_trimStart.
Qed.

Lemma isEmpty_decodeValue v : isEmpty (decodeValue v) = negb (nonblank v).
Proof.
  destruct (nonblank v) eqn:E.
  - now apply decodeValue_nonblank.
  - now rewrite decodeValue_blank.
Qed.

End DocumentFacts.

(** X9: the document written for any contact begins with a frontmatter
    block, so [extractFrontMatter] finds one.  When the values written to
    the frontmatter hold no line break, the document decodes to a contact
    exactly when the name has a code unit that is not white space: a
    contact whose name is empty or white space only is written to disk
    but never listed again. *)
Theorem fileContent_readable_iff c st :
  extractFrontMatter (fileContent c) <> None
  /\ (singleLineFields c = true ->
      (decode (fileContent c) st = None
       <-> nonblank (interp (name c)) = false)).
Proof.
  split.
  - unfold extractFrontMatter, fileContent.
    rewrite matchFrontMatter_fenced.
    pose proof (lazyUntilFence_found (createFrontMatter c)
                  (nl +:+ nl +:+ "# " +:+ interp (name c) +:+ nl +:+ nl
                   +:+ interp (orElse (notes c) (Some "")))) as H.
    destruct (lazyUntilFence _); [discriminate | contradiction].
  - intros Hsl. rewrite (decode_fileContent c st Hsl), isEmpty_decodeValue.
    destruct (nonblank (interp (name c))); simpl; split; congruence.
Qed.

Lemma fileContent_readable_iff_witness :
  singleLineFields nameOnly = true
  /\ (decode (fileContent nameOnly) (mkStats 1000 2000) = None
      <-> nonblank (interp (name nameOnly)) = false).
Proof.
  split; [reflexivity|].
  apply (fileContent_readable_iff nameOnly (mkStats 1000 2000)). reflexivity.
Defined.

(** X10: the notes of a contact are written to the body of the document
    and never read back.  When the values written to the frontmatter
    hold no line break, changing the notes does not change what the
    document decodes to, and the decoded contact has no notes. *)
Theorem notes_are_write_only c x st :
  singleLineFields c = true ->
  decode (fileContent (with_notes x c)) st = decode (fileContent c) st
  /\ forall d, decode (fileContent c) st = Some d -> notes d = None.
Proof.
  intros Hsl.
  assert (Hsl' : singleLineFields (with_notes x c) = true) by exact Hsl.
  rewrite (decode_fileContent c st Hsl),
    (decode_fileContent (with_notes x c) st Hsl').
  split; [reflexivity|].
  intros d. destruct (isEmpty (decodeValue (interp (name c))));
    [discriminate|]. now intros [= <-].
Qed.

Lemma notes_are_write_only_witness :
  singleLineFields annFull = true
  /\ decode (fileContent (with_notes (Some "call back on Monday") annFull))
            (mkStats 1000 2000)
     = decode (fileContent annFull) (mkStats 1000 2000).
Proof.
  split; [reflexivity|].
  apply (notes_are_write_only annFull (Some "call back on Monday")
           (mkStats 1000 2000)). reflexivity.
Defined.

(** ** File names *)

Section FileNameFacts.

Lemma append_inj_l s t u : s +:+ t = s +:+ u -> t = u.
Proof. induction s as [|a s IH]; simpl; [trivial|]. intros [= H]. auto. Qed.

Lemma append_inj_r s s' t : s +:+ t = s' +:+ t -> s = s'.
Proof.
  revert s'. induction s as [|a s IH]; intros [|b s'] H.
  - reflexivity.
  - apply (f_equal String.length) in H. simpl in H.
    rewrite length_append in H. lia.
  - apply (f_equal String.length) in H. simpl in H.
    rewrite length_append in H. lia.
  - simpl in H. injection H as -> H. f_equal. now apply IH.
Qed.

Lemma replaceNonAlnum_cons a s :
  replaceNonAlnum (String a s)
  = String (if is_alnum a then a else dash) (replaceNonAlnum s).
Proof. reflexivity. Qed.

Lemma slug_fixed s : isSlug s = true -> replaceNonAlnum s = s.
Proof.
  induction s as [|a s IH]; [reflexivity|].
  unfold isSlug. cbn [allChars]. intros H.
  apply andb_true_iff in H as [Ha Hs].
  rewrite replaceNonAlnum_cons, (IH Hs).
  destruct (is_alnum a); [reflexivity|].
  simpl in Ha. apply Ascii.eqb_eq in Ha. now subst a.
Qed.

End FileNameFacts.

(** X11: the file of a contact lies directly in the contacts folder,
    whatever the name: the path is the folder, a slash, a base name and
    [.md], where the base name has the length of the contact's name, is
    made of letters, digits and dashes only (no slash, no dot), and is
    left alone by a second sanitising.  A name that is already made of
    letters, digits and dashes is its own base name. *)
Theorem filePath_stays_in_folder folder n :
  exists b,
    filePath folder n = folder +:+ "/" +:+ b +:+ ".md"
    /\ b = replaceNonAlnum n
    /\ isSlug b = true
    /\ String.length b = String.length n
    /\ contains "/" b = false /\ contains "." b = false
    /\ replaceNonAlnum b = b
    /\ (isSlug n = true <-> b = n).
Proof.
  exists (replaceNonAlnum n). split; [reflexivity|]. split; [reflexivity|].
  assert (Hslug : isSlug (replaceNonAlnum n) = true).
  { induction n as [|a n IH]; [reflexivity|].
    rewrite replaceNonAlnum_cons. unfold isSlug. cbn [allChars].
    fold (isSlug (replaceNonAlnum n)). rewrite IH, andb_true_r.
    destruct (is_alnum a) eqn:E; [now rewrite E | reflexivity]. }
  assert (Hno : forall ch s, is_alnum ch = false -> ch <> dash ->
                  isSlug s = true -> contains ch s = false).
  { intros ch s Hch Hd. induction s as [|a s IH]; [reflexivity|].
    unfold isSlug. cbn [allChars contains]. intros H.
    apply andb_true_iff in H as [Ha Hs]. rewrite (IH Hs), orb_false_r.
    destruct (Ascii.eqb_spec a ch) as [->|]; [|reflexivity].
    rewrite Hch in Ha. simpl in Ha. apply Ascii.eqb_eq in Ha. contradiction. }
  split; [exact Hslug|]. split.
  { induction n as [|a n IH]; [reflexivity|].
    rewrite replaceNonAlnum_cons. simpl. f_equal. apply IH.
    clear -Hslug. rewrite replaceNonAlnum_cons in Hslug.
    unfold isSlug in Hslug. cbn [allChars] in Hslug.
    now apply andb_true_iff in Hslug as [_ H]. }
  split; [apply Hno; [reflexivity | discriminate | exact Hslug]|].
  split; [apply Hno; [reflexivity | discriminate | exact Hslug]|].
  split; [now apply slug_fixed|].
  split; [apply slug_fixed|]. intros E. now rewrite <- E.
Qed.

(** X12: two names get the same file exactly when they are the same
    after sanitising; names made of letters, digits and dashes only get
    different files unless they are equal. *)
Theorem filePath_injective_on_slugs folder n1 n2 :
  (filePath folder n1 = filePath folder n2
   <-> replaceNonAlnum n1 = replaceNonAlnum n2)
  /\ (isSlug n1 = true -> isSlug n2 = true ->
      filePath folder n1 = filePath folder n2 -> n1 = n2).
Proof.
  assert (Hiff : filePath folder n1 = filePath folder n2
                 <-> replaceNonAlnum n1 = replaceNonAlnum n2).
  { unfold filePath. split.
    - intros H. apply append_inj_l, append_inj_l in H.
      now apply append_inj_r in H.
    - now intros ->. }
  split; [exact Hiff|].
  intros H1 H2 H. apply Hiff in H.
  now rewrite (slug_fixed n1 H1), (slug_fixed n2 H2) in H.
Qed.

Lemma filePath_injective_on_slugs_witness :
  isSlug "Ann-Lee" = true /\ isSlug "Ann-Lee" = true
  /\ (filePath "Contacts" "Ann-Lee" = filePath "Contacts" "Ann-Lee"
      -> "Ann-Lee" = "Ann-Lee").
Proof.
  split; [reflexivity|]. split; [reflexivity|].
  apply (filePath_injective_on_slugs "Contacts" "Ann-Lee" "Ann-Lee");
    reflexivity.
Defined.

(** ** Printing a date and reading it back *)

Section PrintParse.

Lemma takeDigits_app k acc s v r rest :
  takeDigits k acc s = Some (v, r) ->
  takeDigits k acc (s +:+ rest) = Some (v, r +:+ rest).
Proof.
  revert acc s. induction k as [|k IH]; intros acc s H; simpl in *.
  - now injection H as <- <-.
  - destruct s as [|c s]; [discriminate|]. simpl.
    destruct (is_digit c); [|discriminate]. now apply IH.
Qed.

Lemma printsAs_take k n rest :
  printsAs k n = true ->
  takeDigits k 0 (padStart0 k (intToString n) +:+ rest) = Some (n, rest).
Proof.
  unfold printsAs. intros H.
  destruct (takeDigits k 0 (padStart0 k (intToString n))) as [[v [|? ?]]|] eqn:E;
    try discriminate.
  apply Z.eqb_eq in H. subst v.
  now rewrite (takeDigits_app _ _ _ _ _ rest E).
Qed.

Lemma take2 n rest :
  0 <= n <= 99 ->
  takeDigits 2 0 (padStart0 2 (intToString n) +:+ rest) = Some (n, rest).
Proof.
  intros H. apply printsAs_take.
  exact (range_check (printsAs 2) 0 100 ltac:(vm_compute; reflexivity) n
           ltac:(lia)).
Qed.

Lemma take3 n rest :
  0 <= n <= 999 ->
  takeDigits 3 0 (padStart0 3 (intToString n) +:+ rest) = Some (n, rest).
Proof.
  intros H. apply printsAs_take.
  exact (range_check (printsAs 3) 0 1000 ltac:(vm_compute; reflexivity) n
           ltac:(lia)).
Qed.

Lemma take4 n rest :
  0 <= n <= 9999 ->
  takeDigits 4 0 (padStart0 4 (intToString n) +:+ rest) = Some (n, rest).
Proof.
  intros H. apply printsAs_take.
  exact (range_check (printsAs 4) 0 10000 ltac:(vm_compute; reflexivity) n
           ltac:(lia)).
Qed.

Lemma expect_cons c rest : expect c (String c "" +:+ rest) = Some rest.
Proof. simpl. now rewrite Ascii.eqb_refl. Qed.

Lemma monthLength_bound m l :
  0 <= m < 12 -> 0 <= l <= 1 -> 28 <= monthLength m l <= 31.
Proof.
  intros Hm H.
  assert (C : m = 0 \/ m = 1 \/ m = 2 \/ m = 3 \/ m = 4 \/ m = 5 \/ m = 6
              \/ m = 7 \/ m = 8 \/ m = 9 \/ m = 10 \/ m = 11) by lia.
  repeat (destruct C as [->|C]; [simpl; lia|]). subst m. simpl. lia.
Qed.

Lemma leapFlag_range y : 0 <= leapFlag y <= 1.
Proof. unfold leapFlag. destruct (DaysInYear y =? 366); lia. Qed.

Lemma parseDatePart_printed y m d rest :
  0 <= y <= 9999 -> 0 <= m < 12 -> 1 <= d <= DaysInMonth y m ->
  parseDatePart (padStart0 4 (intToString y) +:+ "-"
                 +:+ padStart0 2 (intToString (m + 1)) +:+ "-"
                 +:+ padStart0 2 (intToString d) +:+ rest)
  = Some (MakeDay y m d, rest).
Proof.
  intros Hy Hm Hd. unfold parseDatePart.
  pose proof (DaysInMonth_length y m Hm) as Hl.
  pose proof (monthLength_bound m (leapFlag y) Hm (leapFlag_range y)) as Hb.
  rewrite take4 by lia. cbn [mbind option_bind].
  rewrite expect_cons. cbn [mbind option_bind].
  rewrite take2 by lia. cbn [mbind option_bind].
  rewrite expect_cons. cbn [mbind option_bind].
  rewrite take2 by lia. cbn [mbind option_bind].
  replace (m + 1 - 1) with m by lia.
  replace ((1 <=? m + 1) && (m + 1 <=? 12) && (1 <=? d)
           && (d <=? DaysInMonth y m)) with true; [reflexivity|].
  symmetry. rewrite !andb_true_iff, !Z.leb_le. lia.
Qed.

Lemma parseTimePart_minutes hh mm :
  0 <= hh <= 23 -> 0 <= mm <= 59 ->
  parseTimePart ("T" +:+ padStart0 2 (intToString hh) +:+ ":"
                 +:+ padStart0 2 (intToString mm))
  = Some (MakeTime hh mm 0 0, "").
Proof.
  intros Hh Hm. unfold parseTimePart.
  rewrite expect_cons. cbn [mbind option_bind].
  rewrite take2 by lia. cbn [mbind option_bind].
  rewrite expect_cons. cbn [mbind option_bind].
  rewrite <- (append_nil_r (padStart0 2 (intToString mm))).
  rewrite take2 by lia. cbn [mbind option_bind].
  cbn [parseSeconds expect mbind option_bind].
  replace ((hh <=? 23) && (mm <=? 59)) with true; [reflexivity|].
  symmetry. rewrite andb_true_iff, !Z.leb_le. lia.
Qed.

Lemma parseTimePart_millis hh mm ss ms rest :
  0 <= hh <= 23 -> 0 <= mm <= 59 -> 0 <= ss <= 59 -> 0 <= ms <= 999 ->
  parseTimePart ("T" +:+ padStart0 2 (intToString hh) +:+ ":"
                 +:+ padStart0 2 (intToString mm) +:+ ":"
                 +:+ padStart0 2 (intToString ss) +:+ "."
                 +:+ padStart0 3 (intToString ms) +:+ rest)
  = Some (MakeTime hh mm 0 (ss * msPerSecond + ms), rest).
Proof.
  intros Hh Hm Hs Hms. unfold parseTimePart.
  rewrite expect_cons. cbn [mbind option_bind].
  rewrite take2 by lia. cbn [mbind option_bind].
  rewrite expect_cons. cbn [mbind option_bind].
  rewrite take2 by lia. cbn [mbind option_bind].
  unfold parseSeconds. rewrite expect_cons.
  rewrite take2 by lia. cbn [mbind option_bind].
  replace (59 <? ss) with false by (symmetry; apply Z.ltb_ge; lia).
  rewrite expect_cons.
  rewrite take3 by lia. cbn [mbind option_bind].
  replace ((hh <=? 23) && (mm <=? 59)) with true; [reflexivity|].
  symmetry. rewrite andb_true_iff, !Z.leb_le. lia.
Qed.

Lemma clock_fields t :
  0 <= HourFromTime t <= 23 /\ 0 <= MinFromTime t <= 59
  /\ 0 <= SecFromTime t <= 59 /\ 0 <= msFromTime t <= 999
  /\ MakeTime (HourFromTime t) (MinFromTime t) 0
       (SecFromTime t * msPerSecond + msFromTime t) = TimeWithinDay t
  /\ MakeTime (HourFromTime t) (MinFromTime t) 0 0
     = TimeWithinDay t - t mod msPerMinute.
Proof.
  unfold HourFromTime, MinFromTime, SecFromTime, msFromTime, MakeTime,
    TimeWithinDay, msPerHour, msPerMinute, msPerSecond, msPerDay.
  repeat split; zdm.
Qed.

Lemma year_bounds t :
  0 <= YearFromTime t <= 9999 ->
  DayFromYear 0 * msPerDay <= t < DayFromYear 10000 * msPerDay.
Proof.
  intros Hy. unfold YearFromTime in Hy.
  pose proof (YearFromDay_spec (Day t)) as S.
  pose proof (DayFromYear_mono 0 (YearFromDay (Day t)) ltac:(lia)).
  pose proof (DayFromYear_mono (YearFromDay (Day t) + 1) 10000 ltac:(lia)).
  unfold Day, msPerDay in *. zdm.
Qed.

End PrintParse.

(** X13: the time stamp that [toISOString] prints for a date of the
    years 0 to 9999 is read by [new Date] as the same instant, whatever
    the host's zone and whatever its fallback parser. *)
Theorem parse_toISOString h t :
  0 <= YearFromTime t <= 9999 ->
  JsDate.parse h (toISOString t) = Some t
  /\ validTimestamp (toISOString t) = true.
Proof.
  intros Hy.
  destruct (local_fields t) as (HM & HD & HMD). cbv zeta in HM, HD, HMD.
  destruct (clock_fields t) as (Hh & Hm & Hs & Hms & Htw & _).
  assert (E : parseISO (toISOString t) = Some (true, t)).
  { unfold toISOString.
    replace ((0 <=? YearFromTime t) && (YearFromTime t <=? 9999)) with true
      by (symmetry; rewrite andb_true_iff, !Z.leb_le; lia).
    unfold parseISO.
    rewrite parseDatePart_printed by assumption. cbn [mbind option_bind].
    change (isEmpty ("T" +:+ ?r)) with false. cbv iota.
    rewrite parseTimePart_millis by assumption. cbn [mbind option_bind].
    cbn [isEmpty String.append]. rewrite String.eqb_refl.
    rewrite HMD, Htw. f_equal. f_equal. unfold MakeDate.
    symmetry. apply time_decompose. }
  split.
  - unfold JsDate.parse. rewrite E. apply TimeClip_in_range.
    pose proof (year_bounds t Hy) as B.
    assert (E0 : DayFromYear 0 * msPerDay = -62167219200000)
      by (vm_compute; reflexivity).
    assert (E1 : DayFromYear 10000 * msPerDay = 253402300800000)
      by (vm_compute; reflexivity).
    rewrite E0, E1 in B. unfold maxTime. lia.
  - unfold validTimestamp. now rewrite E.
Qed.

Lemma parse_toISOString_witness :
  0 <= YearFromTime 1767225600000 <= 9999
  /\ JsDate.parse afternoonHost (toISOString 1767225600000)
     = Some 1767225600000.
Proof.
  split; [vm_compute; split; discriminate|].
  apply (parse_toISOString afternoonHost 1767225600000).
  vm_compute; split; discriminate.
Defined.

Section LocalPrintParse.

Variable h : Host.

Lemma padStart0_full k s : String.length s = k -> padStart0 k s = s.
Proof.
  intros <-. unfold padStart0. now rewrite Nat.sub_diag.
Qed.

Lemma formatLocal_fields t :
  let lt := LocalTime h t in
  1000 <= YearFromTime lt <= 9999 ->
  formatLocal h (Some t)
  = padStart0 4 (intToString (YearFromTime lt)) +:+ "-"
    +:+ padStart0 2 (intToString (MonthFromTime lt + 1)) +:+ "-"
    +:+ padStart0 2 (intToString (DateFromTime lt))
    +:+ "T" +:+ padStart0 2 (intToString (HourFromTime lt)) +:+ ":"
    +:+ padStart0 2 (intToString (MinFromTime lt)).
Proof.
  intros lt Hy. rewrite (padStart0_full 4) by now apply year_length.
  reflexivity.
Qed.

Lemma parseISO_formatLocal t :
  1000 <= YearFromTime (LocalTime h t) <= 9999 ->
  parseISO (formatLocal h (Some t))
  = Some (false, LocalTime h t - LocalTime h t mod msPerMinute).
Proof.
  intros Hy. rewrite (formatLocal_fields t Hy).
  set (lt := LocalTime h t) in *.
  destruct (local_fields lt) as (HM & HD & HMD). cbv zeta in HM, HD, HMD.
  destruct (clock_fields lt) as (Hh & Hm & _ & _ & _ & Htw).
  unfold parseISO.
  rewrite parseDatePart_printed by (assumption || lia).
  cbn [mbind option_bind].
  change (isEmpty ("T" +:+ ?r)) with false. cbv iota.
  rewrite parseTimePart_minutes by assumption. cbn [mbind option_bind isEmpty].
  rewrite HMD, Htw. f_equal. f_equal. unfold MakeDate.
  pose proof (time_decompose lt). lia.
Qed.

Lemma local_year_bounds t :
  0 <= YearFromTime (LocalTime h t) <= 9999 ->
  -62167219200000 <= LocalTime h t < 253402300800000.
Proof.
  intros Hy. pose proof (year_bounds _ Hy) as B.
  assert (E0 : DayFromYear 0 * msPerDay = -62167219200000)
    by (vm_compute; reflexivity).
  assert (E1 : DayFromYear 10000 * msPerDay = 253402300800000)
    by (vm_compute; reflexivity).
  now rewrite E0, E1 in B.
Qed.

Lemma year_range a b t :
  a <= YearFromTime t <= b
  <-> DayFromYear a * msPerDay <= t < DayFromYear (b + 1) * msPerDay.
Proof.
  unfold YearFromTime. split.
  - intros Hy. pose proof (YearFromDay_spec (Day t)) as S.
    pose proof (DayFromYear_mono a (YearFromDay (Day t)) ltac:(lia)).
    pose proof (DayFromYear_mono (YearFromDay (Day t) + 1) (b + 1) ltac:(lia)).
    unfold Day, msPerDay in *. zdm.
  - intros Ht. pose proof (YearFromDay_between a (b + 1) (Day t)) as B.
    assert (DayFromYear a <= Day t < DayFromYear (b + 1))
      by (unfold Day, msPerDay in *; zdm).
    lia.
Qed.

(** What [new Date] makes of the printed string: the time value that
    the zone gives for the local minute printed. *)
Lemma parse_formatLocal_aux t :
  host_ok h ->
  1000 <= YearFromTime (LocalTime h t) <= 9999 ->
  validTimestamp (formatLocal h (Some t)) = true
  /\ parseISO (formatLocal h (Some t))
     = Some (false, minuteFloor (LocalTime h t))
  /\ JsDate.parse h (formatLocal h (Some t))
     = Some (UTC h (minuteFloor (LocalTime h t)))
  /\ 0 <= LocalTime h t - minuteFloor (LocalTime h t) < msPerMinute.
Proof.
  intros [Hz _] Hy.
  pose proof (parseISO_formatLocal t Hy) as E.
  change (LocalTime h t - LocalTime h t mod msPerMinute)
    with (minuteFloor (LocalTime h t)) in E.
  assert (Hr : 0 <= LocalTime h t - minuteFloor (LocalTime h t) < msPerMinute).
  { unfold minuteFloor.
    pose proof (Z.mod_pos_bound (LocalTime h t) msPerMinute eq_refl). lia. }
  split; [unfold validTimestamp; now rewrite E|].
  split; [exact E|]. split; [|exact Hr].
  unfold JsDate.parse. rewrite E. apply TimeClip_in_range.
  pose proof (local_year_bounds t ltac:(lia)) as B.
  pose proof (Hz (minuteFloor (LocalTime h t)) false).
  unfold UTC. unfold maxTime, msPerDay, msPerMinute in *. lia.
Qed.

(** A date in the local years 1000 to 9997 is far from the ends of the
    range of time values. *)
Lemma safeLocal_years t :
  1000 <= YearFromTime (LocalTime h t) <= 9997 -> safeLocal (LocalTime h t).
Proof.
  intros Hy. apply year_range in Hy.
  assert (E0 : DayFromYear 1000 * msPerDay = -30610224000000)
    by (vm_compute; reflexivity).
  assert (E1 : DayFromYear (9997 + 1) * msPerDay = 253339228800000)
    by (vm_compute; reflexivity).
  rewrite E0, E1 in Hy. unfold safeLocal, maxTime, msPerDay. lia.
Qed.

(** One call of [calculateNextContact] on a date that is far from the
    ends of the range: the date it formats, and how far the local time
    of that date is from the local time it started from. *)
Lemma calculateNextContact_step T f t :
  host_ok h -> In f frequencies -> T <> "" ->
  JsDate.parse h T = Some t -> safeLocal (LocalTime h t) ->
  exists u t',
    unitOf f = Some u
    /\ advance h (Some t) f = Some (Some t')
    /\ t' = UTC h (advancedLocal h t u)
    /\ t < t'
    /\ calculateNextContact h T f = Some (formatLocal h (Some t'))
    /\ LocalTime h t + 5 * msPerDay < LocalTime h t'
       < LocalTime h t + 368 * msPerDay.
Proof.
  intros Hh Hf HT Hp Hsafe.
  assert (Hne : isEmpty T = false) by now apply isEmpty_false.
  destruct (proj1 (unitOf_frequencies f) Hf) as [u Hu].
  destruct (advance_safe h t f u Hh Hsafe Hu) as (Ha & Hx & _ & HL & Hlt).
  destruct (targetDay_delta h t f u Hu) as (Hd & _ & _).
  destruct Hh as [Hz _].
  pose proof (Hz (UTC h (advancedLocal h t u)) true) as Z1.
  pose proof (Hz (advancedLocal h t u) false) as Z2.
  exists u, (UTC h (advancedLocal h t u)).
  split; [exact Hu|]. split; [exact Ha|]. split; [reflexivity|].
  split; [exact Hlt|].
  split; [now rewrite (calculateNextContact_parsed h T f t Hne Hf Hp), Ha|].
  unfold msPerDay in *. lia.
Qed.

Lemma years_after_step t t' lo hi :
  1000 <= lo -> hi <= 9997 ->
  lo <= YearFromTime (LocalTime h t) <= hi ->
  LocalTime h t - 3 * msPerDay < LocalTime h t'
  < LocalTime h t + 370 * msPerDay ->
  lo - 1 <= YearFromTime (LocalTime h t') <= hi + 2.
Proof.
  intros Hlo Hhi Hy Hb. apply year_range in Hy. apply year_range.
  pose proof (DayFromYear_step (lo - 1)) as S0.
  replace (lo - 1 + 1) with lo in S0 by lia.
  pose proof (DayFromYear_step (hi + 1)) as S1.
  pose proof (DayFromYear_step (hi + 1 + 1)) as S2.
  replace (hi + 2 + 1) with (hi + 1 + 1 + 1) by lia.
  destruct (DaysInYear_leapFlag (lo - 1)) as [L0 RL01].
  destruct (DaysInYear_leapFlag (hi + 1)) as [L1 RL12].
  destruct (DaysInYear_leapFlag (hi + 1 + 1)) as [L2 RL23].
  unfold msPerDay in *. lia.
Qed.

End LocalPrintParse.

(** X14: the string that the template of [calculateNextContact] prints
    for a date whose local year has four digits is in the date-time
    format and denotes the local time of the date with the seconds and
    milliseconds dropped; [new Date] reads it as the time value that the
    zone gives for that local time.  This is the date itself with the
    seconds and milliseconds dropped when the zone's offset for that
    local time is the offset at the date, as it is wherever the offset
    does not change. *)
Theorem parse_formatLocal h t :
  host_ok h ->
  1000 <= YearFromTime (LocalTime h t) <= 9999 ->
  let x := minuteFloor (LocalTime h t) in
  validTimestamp (formatLocal h (Some t)) = true
  /\ parseISO (formatLocal h (Some t)) = Some (false, x)
  /\ JsDate.parse h (formatLocal h (Some t)) = Some (UTC h x)
  /\ 0 <= LocalTime h t - x < msPerMinute
  /\ (LocalTZA h x false = LocalTZA h t true ->
      JsDate.parse h (formatLocal h (Some t))
      = Some (t - LocalTime h t mod msPerMinute))
  /\ (fixedOffset h -> LocalTZA h x false = LocalTZA h t true).
Proof.
  intros Hh Hy x.
  destruct (parse_formatLocal_aux h t Hh Hy) as (Hv & Hi & Hp & Hr).
  fold x in Hi, Hp, Hr.
  split; [exact Hv|]. split; [exact Hi|]. split; [exact Hp|].
  split; [exact Hr|]. split; [|intros Hfix; apply Hfix].
  intros Ho. rewrite Hp. f_equal. unfold UTC. rewrite Ho.
  subst x. unfold minuteFloor, LocalTime. lia.
Qed.

Lemma parse_formatLocal_witness :
  host_ok easternHost
  /\ 1000 <= YearFromTime (LocalTime easternHost 1767282345678) <= 9999
  /\ JsDate.parse easternHost (formatLocal easternHost (Some 1767282345678))
     = Some 1767282300000.
Proof.
  assert (Hh : host_ok easternHost).
  { split; [|vm_compute; split; discriminate].
    intros t b. unfold easternHost, LocalTZA, easternTZA, msPerHour, msPerDay.
    destruct b;
      [destruct ((springForward2025 <=? t) && (t <? fallBack2025))
      |destruct ((springForward2025 - 4 * 3600000 <=? t)
                 && (t <? fallBack2025 - 4 * 3600000))]; lia. }
  assert (Hy : 1000 <= YearFromTime (LocalTime easternHost 1767282345678) <= 9999)
    by (vm_compute; split; discriminate).
  split; [exact Hh|]. split; [exact Hy|].
  destruct (parse_formatLocal easternHost 1767282345678 Hh Hy)
    as (_ & _ & _ & _ & E & _).
  apply E. vm_compute. reflexivity.
Defined.

(** X15: the result of [calculateNextContact] can be fed back to it.
    For a recognised frequency and a last contact that [new Date] reads
    as a date whose local year is between 1000 and 9995, the result is a
    string in the date-time format; [new Date] reads it as a date later
    than the last contact, of a local year between 1000 and 9997: the
    time value that the zone gives for the local minute of the advanced
    date.  A further call with the result returns a string in the
    date-time format again.  In a zone whose offset never changes the
    date read back is between 7 days minus a minute and 366 days after
    the last contact. *)
Theorem calculateNextContact_chains h T f t :
  host_ok h -> In f frequencies -> T <> "" ->
  JsDate.parse h T = Some t ->
  1000 <= YearFromTime (LocalTime h t) <= 9995 ->
  exists out t' t'' out2,
    calculateNextContact h T f = Some out
    /\ advance h (Some t) f = Some (Some t')
    /\ validTimestamp out = true
    /\ JsDate.parse h out = Some t''
    /\ t'' = UTC h (minuteFloor (LocalTime h t'))
    /\ t < t''
    /\ 1000 <= YearFromTime (LocalTime h t'') <= 9997
    /\ calculateNextContact h out f = Some out2
    /\ validTimestamp out2 = true
    /\ (fixedOffset h ->
        t + 7 * msPerDay - msPerMinute < t'' <= t + 366 * msPerDay).
Proof.
  intros Hh Hf HT Hp Hy.
  assert (Hsafe : safeLocal (LocalTime h t))
    by (apply safeLocal_years; lia).
  destruct (calculateNextContact_step h T f t Hh Hf HT Hp Hsafe)
    as (u & t' & Hu & Ha & Ht' & Hlt & Hc & Hb).
  assert (Hy' : 1000 <= YearFromTime (LocalTime h t') <= 9997).
  { pose proof (years_after_step h t t' 1001 9995) as Y.
    destruct (Z.eq_dec (YearFromTime (LocalTime h t)) 1000) as [E|E].
    - assert (B : 1000 <= YearFromTime (LocalTime h t') <= 9995 + 2).
      { apply year_range. apply (proj1 (year_range 1000 9995 _)) in Hy.
        pose proof (DayFromYear_step (9995 + 1)) as S1.
        pose proof (DayFromYear_step (9995 + 1 + 1)) as S2.
        replace (9995 + 2 + 1) with (9995 + 1 + 1 + 1) by lia.
        destruct (DaysInYear_leapFlag (9995 + 1)) as [L1 RL14].
        destruct (DaysInYear_leapFlag (9995 + 1 + 1)) as [L2 RL25].
        unfold msPerDay in *. lia. }
      lia.
    - assert (B : 1001 - 1 <= YearFromTime (LocalTime h t') <= 9995 + 2)
        by (apply Y; unfold msPerDay in *; lia).
      lia. }
  destruct (parse_formatLocal_aux h t' Hh ltac:(lia)) as (Hv & _ & Hpo & Hr).
  set (x2 := minuteFloor (LocalTime h t')) in *.
  set (t'' := UTC h x2) in *.
  assert (Hz := proj1 Hh).
  pose proof (Hz t'' true) as Z1. pose proof (Hz x2 false) as Z2.
  pose proof (Hz t' true) as Z3. pose proof (Hz t true) as Z4.
  assert (HL'' : LocalTime h t''
                 = x2 + (LocalTZA h t'' true - LocalTZA h x2 false)).
  { assert (Et : t'' = x2 - LocalTZA h x2 false) by reflexivity.
    unfold LocalTime. lia. }
  assert (Hb'' : LocalTime h t' - 3 * msPerDay < LocalTime h t''
                 < LocalTime h t' + 370 * msPerDay).
  { rewrite HL''. unfold msPerDay, msPerMinute in *. lia. }
  assert (Hy'' : 1000 <= YearFromTime (LocalTime h t'') <= 9997).
  { apply year_range. apply (proj1 (year_range 1000 9995 _)) in Hy.
    pose proof (DayFromYear_step (9995 + 1)) as S1.
    pose proof (DayFromYear_step (9995 + 1 + 1)) as S2.
    replace (9997 + 1) with (9995 + 1 + 1 + 1) by lia.
    destruct (DaysInYear_leapFlag (9995 + 1)) as [L1 RL16].
    destruct (DaysInYear_leapFlag (9995 + 1 + 1)) as [L2 RL27].
    rewrite HL''. unfold msPerDay, msPerMinute in *. lia. }
  assert (Hlt'' : t < t'').
  { assert (LocalTime h t + 2 * msPerDay < LocalTime h t'')
      by (rewrite HL''; unfold msPerDay, msPerMinute in *; lia).
    unfold LocalTime in H. unfold msPerDay in *. lia. }
  assert (Hone : formatLocal h (Some t') <> "").
  { intros E. unfold validTimestamp in Hv. rewrite E in Hv. discriminate. }
  destruct (calculateNextContact_step h (formatLocal h (Some t')) f t'' Hh Hf
              Hone Hpo (safeLocal_years h t'' Hy''))
    as (u2 & t3 & _ & _ & _ & _ & Hc2 & Hb3).
  assert (Hy3 : 1000 <= YearFromTime (LocalTime h t3) <= 9999).
  { apply year_range. apply (proj1 (year_range 1000 9997 _)) in Hy''.
    pose proof (DayFromYear_step (9997 + 1)) as S1.
    pose proof (DayFromYear_step (9997 + 1 + 1)) as S2.
    replace (9999 + 1) with (9997 + 1 + 1 + 1) by lia.
    destruct (DaysInYear_leapFlag (9997 + 1)) as [L1 RL18].
    destruct (DaysInYear_leapFlag (9997 + 1 + 1)) as [L2 RL29].
    unfold msPerDay in *. lia. }
  destruct (parse_formatLocal_aux h t3 Hh Hy3) as (Hv3 & _).
  exists (formatLocal h (Some t')), t', t'', (formatLocal h (Some t3)).
  split; [exact Hc|]. split; [exact Ha|]. split; [exact Hv|].
  split; [exact Hpo|]. split; [reflexivity|]. split; [exact Hlt''|].
  split; [exact Hy''|]. split; [exact Hc2|]. split; [exact Hv3|].
  intros Hfix.
  destruct (advance_safe h t f u Hh Hsafe Hu) as (_ & _ & E & _ & _).
  destruct (targetDay_delta h t f u Hu) as (Hd & _ & _).
  rewrite <- Ht' in E.
  rewrite (Hfix (advancedLocal h t u) false t true) in E.
  subst t''. unfold UTC. rewrite (Hfix x2 false t' true).
  subst x2. unfold minuteFloor in *. unfold LocalTime in *.
  unfold msPerDay, msPerMinute in *. lia.
Qed.

Lemma calculateNextContact_chains_witness :
  exists out out2,
    calculateNextContact easternHost "2025-03-02T02:30" "weekly" = Some out
    /\ validTimestamp out = true
    /\ calculateNextContact easternHost out "weekly" = Some out2.
Proof.
  destruct (calculateNextContact_chains easternHost "2025-03-02T02:30" "weekly"
              1740900600000)
    as (out & t' & t'' & out2 & H1 & _ & H2 & _ & _ & _ & _ & H3 & _).
  - split; [|vm_compute; split; discriminate].
    intros t b. unfold easternHost, LocalTZA, easternTZA, msPerHour, msPerDay.
    destruct b;
      [destruct ((springForward2025 <=? t) && (t <? fallBack2025))
      |destruct ((springForward2025 - 4 * 3600000 <=? t)
                 && (t <? fallBack2025 - 4 * 3600000))]; lia.
  - left. reflexivity.
  - discriminate.
  - vm_compute. reflexivity.
  - vm_compute. split; discriminate.
  - exists out, out2. split; [exact H1|]. split; [exact H2 | exact H3].
Defined.

(** ** The date column of the view *)

Section ViewFacts.

Variable h : Host.

Lemma formatLocal_formatDay d :
  formatLocal h d
  = formatDay h d +:+ "T" +:+ pad (getHours h d) +:+ ":"
    +:+ pad (getMinutes h d).
Proof.
  unfold formatLocal, formatDay. now rewrite <- !append_assoc.
Qed.

Lemma formatDay_not_empty d : formatDay h d <> "".
Proof.
  unfold formatDay. intros E.
  apply (f_equal String.length) in E. rewrite length_append in E.
  simpl in E. lia.
Qed.

Lemma formatLocal_not_empty d : formatLocal h d <> "".
Proof.
  rewrite formatLocal_formatDay. intros E.
  apply (f_equal String.length) in E. rewrite length_append in E.
  pose proof (formatDay_not_empty d) as N.
  destruct (formatDay h d); [contradiction | simpl in E; lia].
Qed.

Lemma same_day_fields a b :
  Day a = Day b ->
  YearFromTime a = YearFromTime b /\ MonthFromTime a = MonthFromTime b
  /\ DateFromTime a = DateFromTime b.
Proof.
  intros E.
  assert (Y : YearFromTime a = YearFromTime b)
    by (unfold YearFromTime; now rewrite E).
  assert (L : InLeapYear a = InLeapYear b)
    by (unfold InLeapYear; now rewrite Y).
  assert (W : DayWithinYear a = DayWithinYear b)
    by (unfold DayWithinYear; now rewrite E, Y).
  assert (M : MonthFromTime a = MonthFromTime b)
    by (unfold MonthFromTime; now rewrite W, L).
  split; [exact Y|]. split; [exact M|].
  unfold DateFromTime. now rewrite W, M, L.
Qed.

Lemma same_local_print a b :
  Day (LocalTime h a) = Day (LocalTime h b) ->
  HourFromTime (LocalTime h a) = HourFromTime (LocalTime h b) ->
  MinFromTime (LocalTime h a) = MinFromTime (LocalTime h b) ->
  formatLocal h (Some a) = formatLocal h (Some b)
  /\ formatDay h (Some a) = formatDay h (Some b)
  /\ getHours h (Some a) = getHours h (Some b)
  /\ getMinutes h (Some a) = getMinutes h (Some b).
Proof.
  intros D Hh Hm.
  destruct (same_day_fields _ _ D) as (Y & M & Dt).
  assert (Fd : formatDay h (Some a) = formatDay h (Some b)).
  { unfold formatDay, getFullYear, getMonth, getDate.
    cbn [mbind option_bind]. now rewrite Y, M, Dt. }
  assert (Gh : getHours h (Some a) = getHours h (Some b)).
  { unfold getHours. cbn [mbind option_bind]. now rewrite Hh. }
  assert (Gm : getMinutes h (Some a) = getMinutes h (Some b)).
  { unfold getMinutes. cbn [mbind option_bind]. now rewrite Hm. }
  split; [|now split].
  now rewrite !formatLocal_formatDay, Fd, Gh, Gm.
Qed.

Lemma minuteFloor_fields x :
  Day (minuteFloor x) = Day x
  /\ HourFromTime (minuteFloor x) = HourFromTime x
  /\ MinFromTime (minuteFloor x) = MinFromTime x.
Proof.
  unfold minuteFloor, Day, HourFromTime, MinFromTime, msPerDay, msPerHour,
    msPerMinute.
  repeat split; zdm.
Qed.

End ViewFacts.



(** X17: what the view shows for the result of [calculateNextContact].
    For a date whose local year has four digits, [formatDate] of the
    string printed by [calculateNextContact]'s template shows the date
    that [new Date] reads from it: the time value that the zone gives
    for the local minute printed.  When the zone has that local minute,
    as it has every local minute where the offset never changes, what
    is shown is the string itself, or its date part when the local time
    is midnight. *)
Theorem formatDate_of_formatLocal h t :
  host_ok h ->
  1000 <= YearFromTime (LocalTime h t) <= 9999 ->
  let midnight x := (HourFromTime x =? 0) && (MinFromTime x =? 0) in
  let t' := UTC h (minuteFloor (LocalTime h t)) in
  formatDate h (Some (formatLocal h (Some t)))
  = Some (if midnight (LocalTime h t')
          then formatDay h (Some t') else formatLocal h (Some t'))
  /\ (existsLocally h (minuteFloor (LocalTime h t)) ->
      formatDate h (Some (formatLocal h (Some t)))
      = Some (if midnight (LocalTime h t)
              then formatDay h (Some t) else formatLocal h (Some t)))
  /\ (fixedOffset h -> existsLocally h (minuteFloor (LocalTime h t)))
  /\ formatLocal h (Some t)
     = formatDay h (Some t) +:+ "T" +:+ pad (getHours h (Some t)) +:+ ":"
       +:+ pad (getMinutes h (Some t)).
Proof.
  intros Hh Hy midnight t'.
  destruct (parse_formatLocal_aux h t Hh Hy) as (_ & _ & Hp & _).
  fold t' in Hp.
  assert (Htr : truthy (Some (formatLocal h (Some t))) = true).
  { pose proof (formatLocal_not_empty h (Some t)) as N. simpl.
    destruct (formatLocal h (Some t)); [contradiction | reflexivity]. }
  assert (Hgen : formatDate h (Some (formatLocal h (Some t)))
                 = Some (if midnight (LocalTime h t')
                         then formatDay h (Some t')
                         else formatLocal h (Some t'))).
  { unfold formatDate. rewrite Htr. cbn [negb interp]. rewrite Hp.
    unfold getHours, getMinutes, notZero, midnight.
    cbn [mbind option_bind].
    destruct (HourFromTime (LocalTime h t') =? 0),
      (MinFromTime (LocalTime h t') =? 0); reflexivity. }
  split; [exact Hgen|]. split; [|split; [|apply formatLocal_formatDay]].
  - intros Hex. unfold existsLocally in Hex. fold t' in Hex.
    destruct (minuteFloor_fields (LocalTime h t)) as (D & H1 & M1).
    rewrite <- Hex in D, H1, M1.
    destruct (same_local_print h t' t D H1 M1) as (FL & FD & _ & _).
    rewrite Hgen, FL, FD. unfold midnight. now rewrite H1, M1.
  - intros Hfix. unfold existsLocally, LocalTime, UTC.
    rewrite (Hfix (minuteFloor (t + LocalTZA h t true)
                   - LocalTZA h (minuteFloor (t + LocalTZA h t true)) false)
               true (minuteFloor (t + LocalTZA h t true)) false).
    lia.
Qed.

Lemma formatDate_of_formatLocal_witness :
  host_ok afternoonHost
  /\ formatDate afternoonHost
       (Some (formatLocal afternoonHost (Some 1767282345678)))
     = Some "2026-01-01T15:45".
Proof.
  assert (Hh : host_ok afternoonHost).
  { split; [intros t b; unfold msPerDay; simpl; lia
           |vm_compute; split; discriminate]. }
  split; [exact Hh|].
  destruct (formatDate_of_formatLocal afternoonHost 1767282345678 Hh)
    as (_ & E & _).
  - vm_compute; split; discriminate.
  - rewrite E; [vm_compute; reflexivity|].
    vm_compute. reflexivity.
Defined.

(** ** The Save / Create button *)

Section SaveFacts.

Variables (h : Host) (folder : string) (view : bool).

Lemma toISOString_not_empty t : toISOString t <> "".
Proof.
  unfold toISOString. intros E.
  apply (f_equal String.length) in E. rewrite length_append in E.
  simpl in E. lia.
Qed.

Lemma bind_not_rejected {A} (m : Async A) (k : Async Outcome) v v' :
  (forall w w', k w <> (inr Rejected, w')) ->
  (m ;;; k) v <> (inr Rejected, v').
Proof.
  intros Hk. unfold Obsidian.bind. destruct (m v) as [[e|a] w].
  - discriminate.
  - apply Hk.
Qed.

Lemma refresh_not_rejected w w' :
  (if view
   then (contacts <- getAllContacts folder ;; ret (Saved (Some contacts)))
   else ret (Saved None)) w <> (inr Rejected, w').
Proof.
  destruct view; [|discriminate].
  unfold Obsidian.bind. destruct (getAllContacts folder w) as [[e|l] w''];
    discriminate.
Qed.

End SaveFacts.

(** X18: the Save / Create button does nothing to the vault and leaves
    the modal as it is when the name or the phone is undefined or empty;
    in every other case it never ends in the notice about the required
    fields. *)
Theorem onClick_requires_name_and_phone h folder view m v :
  let missing := negb (truthy (name (contact m)))
                 || negb (truthy (phone (contact m))) in
  (missing = true ->
   fst (onClick h folder view m) = m
   /\ snd (onClick h folder view m) v = (inr Rejected, v))
  /\ (missing = false ->
      forall v', snd (onClick h folder view m) v <> (inr Rejected, v')).
Proof.
  intros missing. subst missing. unfold onClick.
  destruct (negb (truthy (name (contact m)))
            || negb (truthy (phone (contact m)))).
  - split; [|discriminate]. intros _. split; reflexivity.
  - split; [discriminate|]. intros _ v'. cbn [snd].
    apply bind_not_rejected. apply refresh_not_rejected.
Qed.

(** X19: when a frequency is set, and in edit mode also a last contact,
    what the Save / Create button writes does not depend on the text of
    the "Next Contact Date" field: the field is overwritten by
    [calculateNextContact] before the contact is stored. *)
Theorem onClick_discards_typed_next_contact h folder view m x y v :
  truthy (contact_frequency (contact m)) = true ->
  isEdit m = false \/ truthy (last_contacted (contact m)) = true ->
  let typed z := mkModal (with_next_contact z (contact m)) (isEdit m)
                         (originalName m) in
  snd (onClick h folder view (typed x)) v
  = snd (onClick h folder view (typed y)) v.
Proof.
  intros Hf Hl typed. subst typed. unfold onClick.
  cbn [contact isEdit originalName name phone with_next_contact].
  destruct (negb (truthy (name (contact m)))
            || negb (truthy (phone (contact m)))); [reflexivity|].
  cbn [snd]. destruct (isEdit m) eqn:Ed.
  - destruct Hl as [Hl|Hl]; [discriminate|].
    unfold recalculated.
    cbn [contact_frequency last_contacted with_next_contact].
    rewrite Hf, Hl. reflexivity.
  - assert (Hiso : truthy (Some (toISOString (now h))) = true).
    { pose proof (toISOString_not_empty (now h)) as N. simpl.
      destruct (toISOString (now h)); [contradiction | reflexivity]. }
    unfold createdContact, recalculated.
    cbn [contact_frequency last_contacted with_next_contact
         with_last_contacted with_modified with_created].
    destruct (truthy (last_contacted (contact m)));
      rewrite ?Hf; cbn [andb contact_frequency last_contacted
                        with_next_contact];
      rewrite ?Hf, Hiso; reflexivity.
Qed.

Lemma onClick_discards_typed_next_contact_witness :
  snd (onClick utcHost "Contacts" true
         (mkModal (with_next_contact (Some "2030-01-01") annFull) false None))
      [TFolder "Contacts"]
  = snd (onClick utcHost "Contacts" true
           (mkModal (with_next_contact None annFull) false None))
        [TFolder "Contacts"].
Proof.
  apply (onClick_discards_typed_next_contact utcHost "Contacts" true
           (mkModal annFull false None) (Some "2030-01-01") None
           [TFolder "Contacts"]).
  - reflexivity.
  - left. reflexivity.
Defined.

(** ** Time stamps in the frontmatter *)

Section StampFacts.

Lemma allChars_app p s t :
  allChars p (s +:+ t) = allChars p s && allChars p t.
Proof.
  induction s as [|c s IH]; simpl; [reflexivity|].
  now rewrite IH, andb_assoc.
Qed.

Lemma noWs_app s t : noWs (s +:+ t) = noWs s && noWs t.
Proof. apply allChars_app. Qed.

Lemma noWs_digits_fuel fuel n acc :
  noWs acc = true -> noWs (digits_fuel fuel n acc) = true.
Proof.
  revert n acc. induction fuel as [|fuel IH]; intros n acc H; simpl;
    [exact H|].
  assert (Hd : noWs (String (digit (n mod 10)) acc) = true).
  { unfold noWs. cbn [allChars]. fold (noWs acc). rewrite H, andb_true_r.
    pose proof (Z.mod_pos_bound n 10 ltac:(lia)) as B.
    assert (C : n mod 10 = 0 \/ n mod 10 = 1 \/ n mod 10 = 2 \/ n mod 10 = 3
                \/ n mod 10 = 4 \/ n mod 10 = 5 \/ n mod 10 = 6
                \/ n mod 10 = 7 \/ n mod 10 = 8 \/ n mod 10 = 9) by lia.
    repeat (destruct C as [->|C]; [reflexivity|]). now rewrite C. }
  destruct (n <? 10); [exact Hd | now apply IH].
Qed.

Lemma noWs_intToString n : noWs (intToString n) = true.
Proof.
  unfold intToString, digits. destruct (n <? 0).
  - unfold noWs. cbn [allChars]. apply andb_true_iff. split; [reflexivity|].
    now apply noWs_digits_fuel.
  - now apply noWs_digits_fuel.
Qed.

Lemma noWs_zeros k : noWs (String.concat "" (repeat "0" k)) = true.
Proof.
  induction k as [|k IH]; [reflexivity|].
  cbn [repeat]. destruct (repeat "0" k) as [|x l]; [reflexivity|].
  change (String.concat "" ("0" :: x :: l))
    with ("0" +:+ "" +:+ String.concat "" (x :: l)).
  now rewrite !noWs_app, IH.
Qed.

Lemma noWs_padStart0 k s : noWs s = true -> noWs (padStart0 k s) = true.
Proof. intros H. unfold padStart0. now rewrite noWs_app, noWs_zeros, H. Qed.

Lemma noWs_numberToString x : noWs (numberToString x) = true.
Proof. destruct x; [apply noWs_intToString | reflexivity]. Qed.

Lemma noWs_pad x : noWs (pad x) = true.
Proof. apply noWs_padStart0, noWs_numberToString. Qed.

Lemma noWs_toISOString t : noWs (toISOString t) = true.
Proof.
  unfold toISOString.
  repeat (rewrite noWs_app; apply andb_true_iff; split);
    try reflexivity; try (apply noWs_padStart0, noWs_intToString).
  destruct ((0 <=? YearFromTime t) && (YearFromTime t <=? 9999)).
  - apply noWs_padStart0, noWs_intToString.
  - unfold noWs. cbn [allChars]. apply andb_true_iff. split.
    + now destruct (YearFromTime t <? 0).
    + apply noWs_padStart0, noWs_intToString.
Qed.

Lemma noWs_formatLocal h d : noWs (formatLocal h d) = true.
Proof.
  unfold formatLocal.
  repeat (rewrite noWs_app; apply andb_true_iff; split);
    try reflexivity; try apply noWs_pad; apply noWs_numberToString.
Qed.

Lemma noWs_contains s c : noWs s = true -> is_ws c = true -> contains c s = false.
Proof.
  intros H Hc. induction s as [|a s IH]; [reflexivity|].
  unfold noWs in H. cbn [allChars] in H.
  apply andb_true_iff in H as [Ha Hs]. cbn [contains].
  rewrite (IH Hs), orb_false_r.
  destruct (Ascii.eqb_spec a c) as [->|]; [|reflexivity].
  now rewrite Hc in Ha.
Qed.

Lemma noWs_trimEnd s : noWs s = true -> trimEnd s = s.
Proof.
  induction s as [|a s IH]; [reflexivity|].
  unfold noWs. cbn [allChars]. intros H.
  apply andb_true_iff in H as [Ha Hs]. apply negb_true_iff in Ha.
  cbn [trimEnd]. now rewrite (IH Hs), Ha.
Qed.

Lemma noWs_trim s : noWs s = true -> trim s = s.
Proof.
  intros H. unfold trim. rewrite trimStart_id.
  - now apply noWs_trimEnd.
  - destruct s as [|a s]; [exact I|].
    unfold noWs in H. cbn [allChars] in H.
    apply andb_true_iff in H as [Ha _]. now apply negb_true_iff in Ha.
Qed.

Lemma noWs_split sep s :
  noWs s = true -> Forall (fun seg => noWs seg = true) (split sep s).
Proof.
  induction s as [|a s IH]; intros H.
  - repeat constructor.
  - unfold noWs in H. cbn [allChars] in H.
    apply andb_true_iff in H as [Ha Hs]. specialize (IH Hs).
    cbn [split]. destruct (Ascii.eqb a sep).
    + constructor; [reflexivity | exact IH].
    + destruct (split sep s) as [|w ws].
      * constructor; [|constructor]. unfold noWs. cbn [allChars].
        now rewrite Ha.
      * apply Forall_cons_iff in IH as [Hw Hws]. constructor; [|exact Hws].
        unfold noWs. cbn [allChars]. fold (noWs w). now rewrite Ha, Hw.
Qed.

Lemma noWs_clean s : noWs s = true -> clean s = true.
Proof.
  intros H. unfold clean, singleLine.
  rewrite (noWs_contains s newline H eq_refl). cbn [negb andb].
  apply forallb_forall. intros seg Hin.
  pose proof (noWs_split colon s H) as F.
  rewrite Forall_forall in F. apply String.eqb_eq, noWs_trim, F.
  now apply list_elem_of_In.
Qed.

End StampFacts.

Section CreateFacts.

Variables (h : Host) (folder : string).

Lemma noWs_singleLine s : noWs s = true -> singleLine s = true.
Proof.
  intros H. unfold singleLine. now rewrite (noWs_contains s newline H eq_refl).
Qed.

Lemma singleLine_calculateNextContact T f :
  singleLine (interp (calculateNextContact h T f)) = true.
Proof.
  unfold calculateNextContact.
  destruct (isEmpty T || isEmpty f); [reflexivity|].
  destruct (advance h (JsDate.parse h T) f); [|reflexivity].
  apply noWs_singleLine, noWs_formatLocal.
Qed.

Lemma singleLineFields_iff c :
  singleLineFields c = true
  <-> (singleLine (interp (name c)) = true
       /\ singleLine (interp (email c)) = true
       /\ singleLine (interp (phone c)) = true
       /\ singleLine (interp (company c)) = true
       /\ singleLine (interp (title c)) = true
       /\ forallb singleLine (tagList c) = true
       /\ singleLine (interp (contact_frequency c)) = true)
      /\ singleLine (interp (last_contacted c)) = true
      /\ singleLine (interp (next_contact c)) = true
      /\ singleLine (interp (created c)) = true
      /\ singleLine (interp (modified c)) = true.
Proof. unfold singleLineFields. rewrite !andb_true_iff. tauto. Qed.

Lemma singleLineFields_recalculated c :
  singleLineFields c = true -> singleLineFields (recalculated h c) = true.
Proof.
  unfold recalculated.
  destruct (truthy (contact_frequency c) && truthy (last_contacted c));
    [|trivial].
  rewrite !singleLineFields_iff. intros (H & Hl & _ & Hc & Hm).
  split; [exact H|]. split; [exact Hl|]. split; [|now split].
  apply singleLine_calculateNextContact.
Qed.

Lemma singleLineFields_createdContact iso c :
  noWs iso = true ->
  singleLineFields c = true ->
  singleLineFields (createdContact h iso c) = true.
Proof.
  intros Hiso Hc. unfold createdContact.
  apply singleLineFields_recalculated.
  apply singleLineFields_iff in Hc as (H & _ & Hn & _ & _).
  apply singleLineFields_iff.
  pose proof (noWs_singleLine iso Hiso) as S.
  split; [exact H|]. repeat split; solve [exact S | exact Hn].
Qed.

Lemma truthy_not_empty s : s <> "" -> truthy (Some s) = true.
Proof. destruct s; [contradiction | reflexivity]. Qed.

Lemma createdContact_fields iso c :
  iso <> "" ->
  let full := createdContact h iso c in
  name full = name c
  /\ created full = Some iso /\ modified full = Some iso
  /\ last_contacted full = Some iso
  /\ next_contact full
     = if truthy (contact_frequency c)
       then calculateNextContact h iso (interp (contact_frequency c))
       else next_contact c.
Proof.
  intros Hne full. subst full. unfold createdContact, recalculated.
  cbn [contact_frequency last_contacted with_last_contacted with_modified
       with_created].
  rewrite (truthy_not_empty iso Hne), andb_true_r.
  destruct (truthy (contact_frequency c)); repeat split; reflexivity.
Qed.

Lemma recalculated_fields c :
  name (recalculated h c) = name c
  /\ contact_frequency (recalculated h c) = contact_frequency c.
Proof.
  unfold recalculated.
  destruct (truthy (contact_frequency c) && truthy (last_contacted c));
    split; reflexivity.
Qed.

End CreateFacts.

(** X20: creating a contact and reading its file.  For a new contact
    with a name that is not blank, a phone, no line break in the values
    of the form and a file path that is free, the Create button adds one
    file at the path derived from the name; the contact decoded from
    that file has the host's clock reading, printed by [toISOString], as
    created, modified and last contacted, and, when a recognised
    frequency is set, a next contact computed from that reading. *)
Theorem onClick_creates h folder view m n v :
  isEdit m = false ->
  name (contact m) = Some n -> nonblank n = true ->
  truthy (phone (contact m)) = true ->
  singleLineFields (contact m) = true ->
  List.NoDup (List.map path_of v) ->
  getAbstractFileByPath v (filePath folder n) = None ->
  let iso := toISOString (now h) in
  exists f d l,
    snd (onClick h folder view m) v
    = (inr (Saved (if view then Some l else None)), v ++ [f])
    /\ getAllContacts folder (v ++ [f]) = (inr l, v ++ [f])
    /\ path_of f = filePath folder n
    /\ decodeFile f = Some d
    /\ created d = Some iso /\ modified d = Some iso
    /\ last_contacted d = Some iso
    /\ (forall fr, contact_frequency (contact m) = Some fr ->
        In fr frequencies ->
        exists out, calculateNextContact h iso fr = Some out
                    /\ next_contact d = Some out).
Proof.
  intros Hed Hn Hnb Hph Hsl Hnd Hfree iso.
  pose proof (toISOString_not_empty (now h)) as Hne. fold iso in Hne.
  pose proof (noWs_toISOString (now h)) as Hws. fold iso in Hws.
  set (c1 := recalculated h (contact m)).
  set (full := createdContact h iso c1).
  destruct (recalculated_fields h (contact m)) as [Hn1 Hf1]. fold c1 in Hn1, Hf1.
  destruct (createdContact_fields h iso c1 Hne)
    as (Hname & Hcr & Hmo & Hla & Hnx). fold full in Hname, Hcr, Hmo, Hla, Hnx.
  assert (Hfull : singleLineFields full = true).
  { apply singleLineFields_createdContact; [exact Hws|].
    now apply singleLineFields_recalculated. }
  assert (Hnf : name full = Some n) by now rewrite Hname, Hn1.
  set (st := mkStats (now h) (now h)).
  set (f := TFile (filePath folder n) (fileContent full) st).
  assert (Hdec : decode (fileContent full) st = Some (readBackContact full st)).
  { rewrite (decode_fileContent full st Hfull), Hnf. cbn [interp].
    now rewrite (decodeValue_nonblank n Hnb). }
  assert (Hnd' : List.NoDup (List.map path_of (v ++ [f])))
    by (apply nodup_app_fresh; [exact Hnd | exact Hfree]).
  pose proof (getAllContacts_spec folder (v ++ [f]) Hnd') as Hall.
  pose proof (decodeValue_clean iso (noWs_clean iso Hws)) as Hdv.
  exists f, (readBackContact full st). eexists.
  split; [|split; [exact Hall|]].
  - unfold onClick. rewrite Hn, Hph. cbn [truthy negb orb].
    replace (negb (isEmpty n)) with true
      by (destruct n; [discriminate Hnb | reflexivity]).
    cbn [negb orb snd]. rewrite Hed. fold iso c1 full.
    unfold Obsidian.bind at 1.
    rewrite (createContact_run h folder full n v Hnf), Hfree.
    fold st f. destruct view; [|reflexivity].
    unfold Obsidian.bind. rewrite Hall. reflexivity.
  - split; [reflexivity|]. split; [exact Hdec|].
    cbn [readBackContact created modified last_contacted next_contact].
    rewrite Hcr, Hmo, Hla. cbn [interp]. rewrite Hdv.
    unfold orElse, readBack. rewrite (truthy_not_empty iso Hne).
    cbn [interp]. rewrite Hdv.
    repeat (split; [reflexivity|]).
    intros fr Hfr Hin. rewrite Hnx, Hf1, Hfr.
    assert (Hfrt : truthy (Some fr) = true)
      by (destruct Hin as [<-|[<-|[<-|[<-|[]]]]]; reflexivity).
    rewrite Hfrt. cbn [interp].
    destruct (calculateNextContact h iso fr) as [out|] eqn:Ec.
    + exists out. split; [reflexivity|].
      assert (Hout : noWs out = true).
      { revert Ec. unfold calculateNextContact.
        destruct (isEmpty iso || isEmpty fr); [discriminate|].
        destruct (advance h (JsDate.parse h iso) fr); [|discriminate].
        intros [= <-]. apply noWs_formatLocal. }
      assert (Hoe : out <> "").
      { revert Ec. unfold calculateNextContact.
        destruct (isEmpty iso || isEmpty fr); [discriminate|].
        destruct (advance h (JsDate.parse h iso) fr); [|discriminate].
        intros [= <-]. apply formatLocal_not_empty. }
      rewrite (truthy_not_empty out Hoe). cbn [interp].
      now rewrite (decodeValue_clean out (noWs_clean out Hout)).
    + apply (calculateNextContact_none_iff h) in Ec as [E|E];
        [contradiction | contradiction].
Qed.

Lemma onClick_creates_witness :
  exists f d,
    path_of f = "Contacts/Zed.md"
    /\ decodeFile f = Some d
    /\ created d = Some (toISOString (now utcHost)).
Proof.
  destruct (onClick_creates utcHost "Contacts" true (mkModal zed false None)
              "Zed" [TFolder "Contacts"])
    as (f & d & l & _ & _ & Hp & Hd & Hc & _).
  - reflexivity.
  - reflexivity.
  - reflexivity.
  - reflexivity.
  - reflexivity.
  - vm_compute. repeat constructor. intros [].
  - reflexivity.
  - exists f, d. split; [exact Hp|]. split; [exact Hd | exact Hc].
Defined.

(** ** The loop of [onOpen] *)

Section OnOpenFacts.

Variable w : option Calc.

Lemma differs_refl x : differs x x = false.
Proof. destruct x; simpl; [now rewrite String.eqb_refl | reflexivity]. Qed.

Lemma visit_spec c :
  visit w c = (c, false)
  \/ (visit w c = (with_next_contact (calculatedNext w c) c, true)
      /\ truthy (contact_frequency c) = true
      /\ truthy (last_contacted c) = true
      /\ truthy (calculatedNext w c) = true
      /\ next_contact c <> calculatedNext w c).
Proof.
  unfold visit.
  destruct (truthy (contact_frequency c) && truthy (last_contacted c)) eqn:E;
    [|now left].
  destruct (truthy (calculatedNext w c)
            && differs (next_contact c) (calculatedNext w c)) eqn:E';
    [|now left].
  right. apply andb_true_iff in E as [E1 E2].
  apply andb_true_iff in E' as [E3 E4].
  repeat (split; [reflexivity || assumption|]).
  intros Heq. rewrite Heq, differs_refl in E4. discriminate.
Qed.

Lemma visit_again c : visit w (fst (visit w c)) = (fst (visit w c), false).
Proof.
  destruct (visit_spec c) as [E|(E & F1 & F2 & F3 & F4)]; rewrite E;
    cbn [fst]; [exact E|].
  unfold visit.
  cbn [contact_frequency last_contacted next_contact with_next_contact].
  rewrite F1, F2. cbn [andb].
  assert (Hsame : calculatedNext w (with_next_contact (calculatedNext w c) c)
                  = calculatedNext w c) by reflexivity.
  now rewrite Hsame, differs_refl, andb_false_r.
Qed.

Lemma handed_cons b a c c' u :
  handed w b a u -> handed w (c :: b) (c' :: a) u.
Proof.
  intros (H1 & H2 & H3 & H4 & H5 & x & H6 & H7).
  repeat (split; [assumption || now right|]).
  exists x. split; [now right | assumption].
Qed.

Lemma reconcile_spec contacts :
  List.length (fst (reconcile w contacts)) = List.length contacts
  /\ List.map name (fst (reconcile w contacts)) = List.map name contacts
  /\ Forall (handed w contacts (fst (reconcile w contacts)))
            (snd (reconcile w contacts))
  /\ reconcile w (fst (reconcile w contacts))
     = (fst (reconcile w contacts), []).
Proof.
  induction contacts as [|c cs (IH1 & IH2 & IH3 & IH4)].
  - repeat split. constructor.
  - cbn [reconcile]. pose proof (visit_again c) as Hag.
    destruct (visit_spec c) as [E|(E & F1 & F2 & F3 & F4)];
      rewrite E in Hag |- *; destruct (reconcile w cs) as [cs' calls];
      cbn [fst snd] in *.
    + split; [simpl; now rewrite IH1|]. split; [simpl; now rewrite IH2|].
      split.
      * eapply List.Forall_impl; [|exact IH3]. intros u. apply handed_cons.
      * cbn [reconcile]. now rewrite Hag, IH4.
    + split; [simpl; now rewrite IH1|]. split; [simpl; now rewrite IH2|].
      split.
      * constructor.
        -- split; [now left|]. repeat (split; [assumption|]).
           split; [reflexivity|]. exists c.
           split; [now left|]. split; [reflexivity | exact F4].
        -- eapply List.Forall_impl; [|exact IH3]. intros u. apply handed_cons.
      * cbn [reconcile]. now rewrite Hag, IH4.
Qed.

End OnOpenFacts.

(** X21: the loop of [onOpen] that brings [next_contact] up to date.
    The plugin object has no [calculateNextContact], so unless the
    global object has one the loop changes no contact and calls
    [updateContact] for none.  With any such function, the loop keeps
    the number and the order of the contacts, every contact it hands to
    [updateContact] has a frequency, a last contact and, as next contact,
    the non-empty string just computed, which differs from the one it had;
    and a second pass over the contacts it leaves calls [updateContact]
    for none. *)
Theorem reconcile_properties (w : option Calc) (contacts : list Contact) :
  (w = None -> reconcile w contacts = (contacts, []))
  /\ List.length (fst (reconcile w contacts)) = List.length contacts
  /\ List.map name (fst (reconcile w contacts)) = List.map name contacts
  /\ Forall (fun u =>
       In u (fst (reconcile w contacts))
       /\ truthy (contact_frequency u) = true
       /\ truthy (last_contacted u) = true
       /\ truthy (next_contact u) = true
       /\ next_contact u = calculatedNext w u
       /\ exists c, In c contacts /\ u = with_next_contact (next_contact u) c
                    /\ next_contact c <> next_contact u)
     (snd (reconcile w contacts))
  /\ reconcile w (fst (reconcile w contacts))
     = (fst (reconcile w contacts), []).
Proof.
  destruct (reconcile_spec w contacts) as (H1 & H2 & H3 & H4).
  split; [|split; [exact H1|split; [exact H2|split; [exact H3|exact H4]]]].
  intros ->. clear. induction contacts as [|c cs IH]; [reflexivity|].
  cbn [reconcile]. rewrite IH.
  unfold visit, calculatedNext, pluginCalculateNextContact.
  cbn [truthy andb].
  now destruct (truthy (contact_frequency c) && truthy (last_contacted c)).
Qed.

(** ** The format checks of the dialog *)

Section RegexFacts.

Lemma append_eq_nil a b : a +:+ b = "" -> a = "" /\ b = "".
Proof. destruct a; [simpl; auto | discriminate]. Qed.

Lemma append_eq_cons a b c s :
  a +:+ b = String c s ->
  (a = "" /\ b = String c s)
  \/ exists a', a = String c a' /\ s = a' +:+ b.
Proof.
  destruct a as [|x a]; simpl; intros H; [now left|].
  injection H as -> <-. right. now exists a.
Qed.

Lemma nullable_lang r : nullable r = true <-> lang r "".
Proof.
  split.
  - induction r; simpl; intros H; try discriminate.
    + constructor.
    + apply andb_true_iff in H as [H1 H2].
      change "" with ("" +:+ ""). constructor; auto.
    + apply orb_true_iff in H as [H|H];
        [apply lang_alt_l | apply lang_alt_r]; auto.
    + constructor.
  - intros H. remember "" as s eqn:E.
    induction H; simpl; try reflexivity; try discriminate.
    + apply append_eq_nil in E as [-> ->].
      now rewrite IHlang1, IHlang2.
    + now rewrite IHlang.
    + rewrite IHlang by assumption. apply orb_true_r.
Qed.

Lemma star_cons_inv r c s :
  lang (Star r) (String c s) ->
  exists a b, s = a +:+ b /\ lang r (String c a) /\ lang (Star r) b.
Proof.
  intros H. remember (Star r) as q eqn:Eq. remember (String c s) as t eqn:Et.
  revert s Et. induction H; intros s' Et; try discriminate.
  injection Eq as ->.
  apply append_eq_cons in Et as [[-> ->]|(a' & -> & ->)].
  - now apply IHlang2.
  - now exists a', b.
Qed.

Lemma deriv_lang c r s : lang (deriv c r) s <-> lang r (String c s).
Proof.
  revert s. induction r as [| |p|r1 IH1 r2 IH2|r1 IH1 r2 IH2|r IH];
    intros s; simpl.
  - split; intros H; inversion H.
  - split; intros H; inversion H.
  - destruct (p c) eqn:E; split; intros H.
    + inversion H; subst. now constructor.
    + inversion H; subst. constructor.
    + inversion H.
    + inversion H; subst. congruence.
  - split.
    + intros H.
      assert (Hseq : lang (Seq (deriv c r1) r2) s ->
                     lang (Seq r1 r2) (String c s)).
      { intros H'. inversion H'; subst.
        change (String c (a +:+ b)) with (String c a +:+ b).
        constructor; [now apply IH1 | assumption]. }
      destruct (nullable r1) eqn:N; [|now apply Hseq].
      inversion H; subst; [now apply Hseq|].
      change (String c s) with ("" +:+ String c s).
      constructor; [now apply nullable_lang | now apply IH2].
    + intros H. inversion H as [| |? ? a b Ha Hb Er Es| | | |]; subst.
      apply append_eq_cons in Es as [[-> ->]|(a' & -> & ->)].
      * apply nullable_lang in Ha. rewrite Ha.
        apply lang_alt_r. now apply IH2.
      * assert (Hs : lang (Seq (deriv c r1) r2) (a' +:+ b))
          by (constructor; [now apply IH1 | assumption]).
        destruct (nullable r1); [now apply lang_alt_l | exact Hs].
  - split; intros H; inversion H; subst;
      solve [apply lang_alt_l; now apply IH1 | apply lang_alt_r; now apply IH2].
  - split.
    + intros H. inversion H; subst.
      change (String c (a +:+ b)) with (String c a +:+ b).
      constructor; [now apply IH | assumption].
    + intros H. apply star_cons_inv in H as (a & b & -> & Ha & Hb).
      constructor; [now apply IH | assumption].
Qed.

(** The matcher decides the language. *)
Lemma test_lang r s : test r s = true <-> lang r s.
Proof.
  revert r. induction s as [|c s IH]; intros r; simpl.
  - apply nullable_lang.
  - rewrite IH. apply deriv_lang.
Qed.

Lemma lang_plus_cls p s :
  lang (Plus (Cls p)) s <-> s <> "" /\ allChars p s = true.
Proof.
  assert (Hstar : forall t, lang (Star (Cls p)) t <-> allChars p t = true).
  { intros t. split.
    - intros H. remember (Star (Cls p)) as q eqn:E.
      induction H; try discriminate; [reflexivity|].
      injection E as ->. inversion H as [|p' c' Hc| | | | |]; subst. simpl.
      rewrite IHlang2 by reflexivity. now rewrite Hc.
    - induction t as [|c t IH]; simpl; intros H; [constructor|].
      apply andb_true_iff in H as [Hc Ht].
      change (String c t) with (String c "" +:+ t).
      constructor; [now constructor | now apply IH]. }
  unfold Plus. split.
  - intros H. inversion H as [| |? ? a b Ha Hb| | | |]; subst.
    inversion Ha as [|p' c' Hc| | | | |]; subst. simpl.
    apply Hstar in Hb. rewrite Hb, Hc. split; [discriminate | reflexivity].
  - intros [Hne H]. destruct s as [|c s]; [contradiction|].
    simpl in H. apply andb_true_iff in H as [Hc Hs].
    change (String c s) with (String c "" +:+ s).
    constructor; [now constructor | now apply Hstar].
Qed.

Lemma lang_lit c s : lang (Lit c) s <-> s = String c "".
Proof.
  unfold Lit. split.
  - intros H. inversion H as [|p' c' Hc| | | | |]; subst.
    apply Ascii.eqb_eq in Hc. now subst.
  - intros ->. constructor. apply Ascii.eqb_refl.
Qed.

End RegexFacts.

(** X22: the email field is left unmarked exactly when it is empty or
    of the form [a@b.c] where [a], [b] and [c] are non-empty and hold
    neither white space nor a further [@]. *)
Theorem emailFlagged_iff value :
  emailFlagged value = false
  <-> value = ""
      \/ exists a b c,
           value = a +:+ "@" +:+ b +:+ "." +:+ c
           /\ a <> "" /\ b <> "" /\ c <> ""
           /\ allChars plainChar a = true /\ allChars plainChar b = true
           /\ allChars plainChar c = true.
Proof.
  unfold emailFlagged, flagged.
  destruct value as [|x value]; [split; [now left | reflexivity]|].
  cbn [isEmpty negb andb]. rewrite negb_false_iff, test_lang.
  unfold emailRegex. split.
  - intros H. right.
    inversion H as [| |? ? a r1 Ha H1 E1 E2| | | |]; subst; clear H.
    inversion H1 as [| |? ? at' r2 Hat H2 E3 E4| | | |]; subst; clear H1.
    inversion H2 as [| |? ? b r3 Hb H3 E5 E6| | | |]; subst; clear H2.
    inversion H3 as [| |? ? dot c Hdot Hc E7 E8| | | |]; subst; clear H3.
    apply lang_lit in Hat, Hdot. subst at' dot.
    apply lang_plus_cls in Ha as [Na Pa], Hb as [Nb Pb], Hc as [Nc Pc].
    exists a, b, c. repeat split; assumption.
  - intros [E|(a & b & c & E & Na & Nb & Nc & Pa & Pb & Pc)];
      [discriminate|].
    rewrite E.
    constructor; [now apply lang_plus_cls|].
    constructor; [now apply lang_lit|].
    constructor; [now apply lang_plus_cls|].
    constructor; [now apply lang_lit | now apply lang_plus_cls].
Qed.

Section PhoneFacts.

Lemma lang_seq_iff r1 r2 s :
  lang (Seq r1 r2) s <-> exists a b, s = a +:+ b /\ lang r1 a /\ lang r2 b.
Proof.
  split.
  - intros H. inversion H as [| |? ? a b Ha Hb| | | |]; subst. now exists a, b.
  - intros (a & b & -> & Ha & Hb). now constructor.
Qed.

Lemma lang_opt_iff r s : lang (Opt r) s <-> s = "" \/ lang r s.
Proof.
  unfold Opt. split.
  - intros H. inversion H as [| | |? ? ? Ha|? ? ? Hb| |]; subst.
    + inversion Ha. now left.
    + now right.
  - intros [->|H]; [apply lang_alt_l; constructor | now apply lang_alt_r].
Qed.

Lemma lang_cls_iff p s :
  lang (Cls p) s <-> exists c, s = String c "" /\ p c = true.
Proof.
  split.
  - intros H. inversion H as [|p' c' Hc| | | | |]; subst. now exists c'.
  - intros (c & -> & Hc). now constructor.
Qed.

Lemma lang_rep_cls p n s :
  lang (Rep n (Cls p)) s
  <-> String.length s = n /\ allChars p s = true.
Proof.
  revert s. induction n as [|n IH]; intros s; simpl.
  - split.
    + intros H. inversion H. now split.
    + intros [H _]. destruct s; [constructor | discriminate].
  - rewrite lang_seq_iff. split.
    + intros (a & b & -> & Ha & Hb).
      apply lang_cls_iff in Ha as (c & -> & Hc). apply IH in Hb as [Hl Hp].
      simpl. now rewrite Hl, Hc, Hp.
    + intros [Hl Hp]. destruct s as [|c s]; [discriminate|].
      simpl in Hl, Hp. apply andb_true_iff in Hp as [Hc Hs].
      exists (String c ""), s. split; [reflexivity|].
      split; [now constructor|]. apply IH. split; [lia | exact Hs].
Qed.

Lemma lang_optChar c s : lang (Opt (Lit c)) s <-> optChar c s.
Proof. unfold optChar. now rewrite lang_opt_iff, lang_lit. Qed.

Lemma lang_optSep s : lang (Opt (Cls sepChar)) s <-> optSep s.
Proof. unfold optSep. now rewrite lang_opt_iff, lang_cls_iff. Qed.

Lemma lang_areaCode s :
  lang areaCode s
  <-> exists o d c p,
        s = o +:+ d +:+ c +:+ p
        /\ optChar "(" o /\ digitString 3 d /\ optChar ")" c /\ optSep p.
Proof.
  unfold areaCode. rewrite lang_seq_iff. split.
  - intros (o & r1 & -> & Ho & H1).
    apply lang_seq_iff in H1 as (d & r2 & -> & Hd & H2).
    apply lang_seq_iff in H2 as (c & p & -> & Hc & Hp).
    exists o, d, c, p. split; [reflexivity|].
    split; [now apply lang_optChar|]. split; [now apply lang_rep_cls|].
    split; [now apply lang_optChar | now apply lang_optSep].
  - intros (o & d & c & p & -> & Ho & Hd & Hc & Hp).
    exists o, (d +:+ c +:+ p). split; [reflexivity|].
    split; [now apply lang_optChar|].
    apply lang_seq_iff. exists d, (c +:+ p). split; [reflexivity|].
    split; [now apply lang_rep_cls|].
    apply lang_seq_iff. exists c, p. split; [reflexivity|].
    split; [now apply lang_optChar | now apply lang_optSep].
Qed.

Lemma lang_countryCode s :
  lang countryCode s
  <-> exists o d e p,
        s = o +:+ d +:+ e +:+ p
        /\ optChar "+" o /\ digitString 1 d
        /\ (e = "" \/ digitString 1 e) /\ optSep p.
Proof.
  assert (Hone : forall t, lang (Cls is_digit) t <-> digitString 1 t).
  { intros t. unfold digitString. rewrite lang_cls_iff. split.
    - intros (c & -> & Hc). simpl. now rewrite Hc.
    - intros [Hl Hp]. destruct t as [|c [|? ?]]; try discriminate.
      simpl in Hp. rewrite andb_true_r in Hp. now exists c. }
  unfold countryCode. rewrite lang_seq_iff. split.
  - intros (o & r1 & -> & Ho & H1).
    apply lang_seq_iff in H1 as (de & p & -> & Hde & Hp).
    apply lang_seq_iff in Hde as (d & e & -> & Hd & He).
    exists o, d, e, p. rewrite append_assoc. split; [reflexivity|].
    split; [now apply lang_optChar|]. split; [now apply Hone|].
    split; [|now apply lang_optSep].
    apply lang_opt_iff in He as [->|He]; [now left | right; now apply Hone].
  - intros (o & d & e & p & -> & Ho & Hd & He & Hp).
    exists o, (d +:+ e +:+ p). split; [reflexivity|].
    split; [now apply lang_optChar|].
    apply lang_seq_iff. exists (d +:+ e), p.
    split; [now rewrite append_assoc|].
    split; [|now apply lang_optSep].
    apply lang_seq_iff. exists d, e. split; [reflexivity|].
    split; [now apply Hone|]. apply lang_opt_iff.
    destruct He as [->|He]; [now left | right; now apply Hone].
Qed.

(** The strings of the phone expression, part by part. *)
Lemma lang_phoneRegex s :
  lang phoneRegex s
  <-> exists cc ac a p b,
        s = cc +:+ ac +:+ a +:+ p +:+ b
        /\ (cc = "" \/ lang countryCode cc)
        /\ (ac = "" \/ lang areaCode ac)
        /\ digitString 3 a /\ optSep p /\ digitString 4 b.
Proof.
  unfold phoneRegex. rewrite lang_seq_iff. split.
  - intros (cc & r1 & -> & Hcc & H1).
    apply lang_seq_iff in H1 as (ac & r2 & -> & Hac & H2).
    apply lang_seq_iff in H2 as (a & r3 & -> & Ha & H3).
    apply lang_seq_iff in H3 as (p & b & -> & Hp & Hb).
    exists cc, ac, a, p, b. split; [reflexivity|].
    split; [now apply lang_opt_iff|]. split; [now apply lang_opt_iff|].
    split; [now apply lang_rep_cls|].
    split; [now apply lang_optSep | now apply lang_rep_cls].
  - intros (cc & ac & a & p & b & -> & Hcc & Hac & Ha & Hp & Hb).
    exists cc, (ac +:+ a +:+ p +:+ b). split; [reflexivity|].
    split; [now apply lang_opt_iff|].
    apply lang_seq_iff. exists ac, (a +:+ p +:+ b). split; [reflexivity|].
    split; [now apply lang_opt_iff|].
    apply lang_seq_iff. exists a, (p +:+ b). split; [reflexivity|].
    split; [now apply lang_rep_cls|].
    apply lang_seq_iff. exists p, b. split; [reflexivity|].
    split; [now apply lang_optSep | now apply lang_rep_cls].
Qed.

Lemma phoneFlagged_lang v :
  phoneFlagged v = false <-> v = "" \/ lang phoneRegex v.
Proof.
  unfold phoneFlagged, flagged. destruct v as [|x v].
  - split; [now left | reflexivity].
  - cbn [isEmpty negb andb]. rewrite negb_false_iff, test_lang.
    split; [now right | intros [E|H]; [discriminate | exact H]].
Qed.

End PhoneFacts.

Section PhoneShapes.

Lemma phone_form o a cl p1 b p2 c :
  optChar "(" o -> digitString 3 a -> optChar ")" cl -> optSep p1 ->
  digitString 3 b -> optSep p2 -> digitString 4 c ->
  lang phoneRegex (o +:+ a +:+ cl +:+ p1 +:+ b +:+ p2 +:+ c).
Proof.
  intros Ho Ha Hcl Hp1 Hb Hp2 Hc. apply lang_phoneRegex.
  exists "", (o +:+ a +:+ cl +:+ p1), b, p2, c.
  split; [cbn [String.append]; now rewrite !append_assoc|].
  split; [now left|]. split; [|split; [exact Hb | split; [exact Hp2 | exact Hc]]].
  right. apply lang_areaCode. exists o, a, cl, p1.
  split; [reflexivity|]. split; [exact Ho|]. split; [exact Ha|].
  split; [exact Hcl | exact Hp1].
Qed.

Lemma countDigits_app s t :
  countDigits (s +:+ t) = (countDigits s + countDigits t)%nat.
Proof. induction s as [|c s IH]; simpl; [reflexivity|]. rewrite IH. lia. Qed.

Lemma sep_not_digit x : sepChar x = true -> is_digit x = false.
Proof.
  destruct x as [[] [] [] [] [] [] [] []]; vm_compute; congruence.
Qed.

Lemma part_nil : part 0 0 0 "".
Proof. repeat split; simpl; lia. Qed.

Lemma part_weaken lo hi len lo' hi' len' s :
  (lo' <= lo)%nat -> (hi <= hi')%nat -> (len <= len')%nat ->
  part lo hi len s -> part lo' hi' len' s.
Proof. unfold part. intros ? ? ? (H1 & H2 & H3). repeat split; try assumption; lia. Qed.

Lemma part_app l1 h1 n1 l2 h2 n2 a b :
  part l1 h1 n1 a -> part l2 h2 n2 b ->
  part (l1 + l2) (h1 + h2) (n1 + n2) (a +:+ b).
Proof.
  unfold part. intros (A1 & A2 & A3) (B1 & B2 & B3).
  rewrite allChars_app, countDigits_app, length_append, A1, B1.
  repeat split; lia.
Qed.

Lemma part_digits k s : digitString k s -> part k k k s.
Proof.
  intros [Hl Hp]. subst k.
  assert (H : allChars phoneChar s = true
              /\ countDigits s = String.length s).
  { induction s as [|c s IH]; [now split|].
    simpl in Hp. apply andb_true_iff in Hp as [Hc Hs].
    destruct (IH Hs) as [I1 I2]. simpl. unfold phoneChar at 1.
    rewrite Hc, I1, I2. now split. }
  destruct H as [H1 H2]. unfold part. rewrite H1, H2. repeat split; lia.
Qed.

Lemma part_optSep s : optSep s -> part 0 0 1 s.
Proof.
  intros [->|(x & -> & Hx)]; [apply (part_weaken 0 0 0); (lia || apply part_nil)|].
  unfold part. simpl. unfold phoneChar. rewrite Hx, (sep_not_digit x Hx).
  simpl. repeat split; lia.
Qed.

Lemma part_optChar c s :
  is_digit c = false -> phoneChar c = true -> optChar c s -> part 0 0 1 s.
Proof.
  intros Hd Hp [->| ->]; [apply (part_weaken 0 0 0); (lia || apply part_nil)|].
  unfold part. simpl. rewrite Hd, Hp. repeat split; lia.
Qed.

Lemma part_areaCode s : lang areaCode s -> part 3 3 6 s.
Proof.
  intros H. apply lang_areaCode in H as (o & d & c & p & -> & Ho & Hd & Hc & Hp).
  apply (part_app 0 0 1 3 3 5); [now apply (part_optChar "(")|].
  apply (part_app 3 3 3 0 0 2); [now apply part_digits|].
  apply (part_app 0 0 1 0 0 1);
    [now apply (part_optChar ")") | now apply part_optSep].
Qed.

Lemma part_countryCode s : lang countryCode s -> part 1 2 4 s.
Proof.
  intros H.
  apply lang_countryCode in H as (o & d & e & p & -> & Ho & Hd & He & Hp).
  apply (part_app 0 0 1 1 2 3); [now apply (part_optChar "+")|].
  apply (part_app 1 1 1 0 1 2); [now apply part_digits|].
  apply (part_app 0 1 1 0 0 1); [|now apply part_optSep].
  destruct He as [->|He].
  - apply (part_weaken 0 0 0); (lia || apply part_nil).
  - apply (part_weaken 1 1 1); (lia || now apply part_digits).
Qed.

End PhoneShapes.

(** X23: the phone field is left unmarked for each of the formats that
    the comment of the check lists, whatever the digits: ten digits in
    a row, three groups joined by dashes or by blanks, the first group
    in parentheses; and also for seven digits with or without a dash. *)
Theorem phoneFlagged_documented_formats a b c :
  digitString 3 a -> digitString 3 b -> digitString 4 c ->
  phoneFlagged (a +:+ b +:+ c) = false
  /\ phoneFlagged (a +:+ "-" +:+ b +:+ "-" +:+ c) = false
  /\ phoneFlagged ("(" +:+ a +:+ ") " +:+ b +:+ "-" +:+ c) = false
  /\ phoneFlagged (a +:+ " " +:+ b +:+ " " +:+ c) = false
  /\ phoneFlagged (b +:+ c) = false
  /\ phoneFlagged (b +:+ "-" +:+ c) = false.
Proof.
  intros Ha Hb Hc.
  assert (Hdash : optSep "-") by (right; now exists "-"%char).
  assert (Hblank : optSep " ") by (right; now exists " "%char).
  assert (Hnone : optSep "") by now left.
  assert (Seven : forall p, optSep p -> lang phoneRegex (b +:+ p +:+ c)).
  { intros p Hp. apply lang_phoneRegex. exists "", "", b, p, c.
    split; [reflexivity|]. split; [now left|]. split; [now left|].
    split; [exact Hb | split; [exact Hp | exact Hc]]. }
  repeat split; apply phoneFlagged_lang; right.
  - exact (phone_form "" a "" "" b "" c (or_introl eq_refl) Ha
             (or_introl eq_refl) Hnone Hb Hnone Hc).
  - exact (phone_form "" a "" "-" b "-" c (or_introl eq_refl) Ha
             (or_introl eq_refl) Hdash Hb Hdash Hc).
  - exact (phone_form "(" a ")" " " b "-" c (or_intror eq_refl) Ha
             (or_intror eq_refl) Hblank Hb Hdash Hc).
  - exact (phone_form "" a "" " " b " " c (or_introl eq_refl) Ha
             (or_introl eq_refl) Hblank Hb Hblank Hc).
  - exact (Seven "" Hnone).
  - exact (Seven "-" Hdash).
Qed.

Lemma phoneFlagged_documented_formats_witness :
  phoneFlagged "(123) 456-7890" = false.
Proof.
  destruct (phoneFlagged_documented_formats "123" "456" "7890")
    as (_ & _ & H & _); [split; reflexivity ..|].
  exact H.
Defined.

(** X24: a non-empty phone value that is left unmarked holds only
    digits, white space, dashes, parentheses and plus signs, has between
    7 and 12 digits and at most 18 characters, and ends in four
    digits. *)
Theorem phoneFlagged_shape v :
  phoneFlagged v = false -> v <> "" ->
  allChars phoneChar v = true
  /\ (7 <= countDigits v <= 12)%nat
  /\ (7 <= String.length v <= 18)%nat
  /\ exists p c, v = p +:+ c /\ digitString 4 c.
Proof.
  intros H Hne. apply phoneFlagged_lang in H as [->|H]; [contradiction|].
  apply lang_phoneRegex in H
    as (cc & ac & a & p & b & -> & Hcc & Hac & Ha & Hp & Hb).
  assert (Pcc : part 0 2 4 cc).
  { destruct Hcc as [->|Hcc].
    - apply (part_weaken 0 0 0); (lia || apply part_nil).
    - apply (part_weaken 1 2 4); (lia || now apply part_countryCode). }
  assert (Pac : part 0 3 6 ac).
  { destruct Hac as [->|Hac].
    - apply (part_weaken 0 0 0); (lia || apply part_nil).
    - apply (part_weaken 3 3 6); (lia || now apply part_areaCode). }
  pose proof (part_app _ _ _ _ _ _ _ _ Pcc
                (part_app _ _ _ _ _ _ _ _ Pac
                   (part_app _ _ _ _ _ _ _ _ (part_digits 3 a Ha)
                      (part_app _ _ _ _ _ _ _ _ (part_optSep p Hp)
                         (part_digits 4 b Hb))))) as (P1 & P2 & P3).
  split; [exact P1|]. split; [simpl in P2; lia|]. split; [simpl in P2, P3; lia|].
  exists (cc +:+ ac +:+ a +:+ p), b. split; [|exact Hb].
  now rewrite !append_assoc.
Qed.

Lemma phoneFlagged_shape_witness :
  (7 <= countDigits "555-0100" <= 12)%nat.
Proof.
  destruct (phoneFlagged_shape "555-0100") as (_ & H & _);
    [reflexivity | discriminate | exact H].
Defined.

(** ** Saving back what was read *)

Section StableFacts.

Lemma contains_trimStart ch s :
  contains ch s = false -> contains ch (trimStart s) = false.
Proof.
  induction s as [|a s IH]; simpl; [trivial|]. intros H.
  apply orb_false_iff in H as [Ha Hs].
  destruct (is_ws a); [now apply IH|]. simpl. now rewrite Ha, Hs.
Qed.

Lemma contains_trimEnd ch s :
  contains ch s = false -> contains ch (trimEnd s) = false.
Proof.
  induction s as [|a s IH]; simpl; [trivial|]. intros H.
  apply orb_false_iff in H as [Ha Hs].
  destruct (is_ws a && isEmpty (trimEnd s)); [reflexivity|].
  simpl. now rewrite Ha, (IH Hs).
Qed.

Lemma contains_trim ch s : contains ch s = false -> contains ch (trim s) = false.
Proof. intros H. unfold trim. now apply contains_trimEnd, contains_trimStart. Qed.

Lemma split_free sep s :
  Forall (fun x => contains sep x = false) (split sep s).
Proof.
  induction s as [|a s IH]; simpl; [repeat constructor|].
  destruct (Ascii.eqb a sep) eqn:E; [constructor; [reflexivity | exact IH]|].
  destruct (split sep s) as [|w ws]; [repeat constructor; simpl; now rewrite E|].
  apply Forall_cons_iff in IH as [Hw Hws].
  constructor; [simpl; now rewrite E, Hw | exact Hws].
Qed.

Lemma split_without ch sep s :
  contains ch s = false ->
  Forall (fun x => contains ch x = false) (split sep s).
Proof.
  induction s as [|a s IH]; simpl; intros H; [repeat constructor|].
  apply orb_false_iff in H as [Ha Hs]. specialize (IH Hs).
  destruct (Ascii.eqb a sep); [constructor; [reflexivity | exact IH]|].
  destruct (split sep s) as [|w ws]; [repeat constructor; simpl; now rewrite Ha|].
  apply Forall_cons_iff in IH as [Hw Hws].
  constructor; [simpl; now rewrite Ha, Hw | exact Hws].
Qed.

Lemma contains_join_colon ch (l : list string) :
  Ascii.eqb colon ch = false ->
  Forall (fun e => contains ch e = false) l ->
  contains ch (join ":" l) = false.
Proof.
  intros Hc. induction l as [|a l IH]; intros H; [reflexivity|].
  apply Forall_cons_iff in H as [Ha Hl].
  destruct l as [|b l]; [exact Ha|].
  change (join ":" (a :: b :: l)) with (a +:+ String colon (join ":" (b :: l))).
  rewrite contains_app, Ha. cbn [contains orb]. rewrite Hc. now apply IH.
Qed.

Lemma clean_join (l : list string) :
  l <> [] -> Forall piece l -> clean (join ":" l) = true.
Proof.
  intros Hne H. unfold clean, singleLine.
  rewrite (contains_join_colon newline l eq_refl)
    by (eapply List.Forall_impl; [|exact H]; now intros e (_ & _ & He)).
  cbn [negb andb]. change (join ":" l) with (join (String colon "") l).
  rewrite (split_join colon l Hne)
    by (eapply List.Forall_impl; [|exact H]; now intros e (_ & He & _)).
  apply forallb_forall. intros e He. apply String.eqb_eq.
  rewrite Forall_forall in H. apply H. now apply list_elem_of_In.
Qed.

Lemma pieces_of_line line :
  contains newline line = false ->
  Forall piece (List.map trim (split colon line)).
Proof.
  intros H. apply Forall_map, Forall_forall. intros seg Hin.
  pose proof (split_free colon line) as F1.
  pose proof (split_without newline colon line H) as F2.
  rewrite Forall_forall in F1, F2.
  split; [apply trim_trimmed|].
  split; apply contains_trim; [now apply F1 | now apply F2].
Qed.

Lemma parseLine_clean (fm : gmap string string) line :
  contains newline line = false ->
  map_Forall (fun _ v => clean v = true) fm ->
  map_Forall (fun _ v => clean v = true) (parseLine fm line).
Proof.
  intros Hl H. unfold parseLine.
  pose proof (pieces_of_line line Hl) as P.
  destruct (List.map trim (split colon line)) as [|key values]; [exact H|].
  destruct (isEmpty key); cbn [negb andb]; [exact H|].
  destruct values as [|v values]; [exact H|]. cbn [List.length Nat.eqb negb].
  destruct (String.eqb key "__proto__"); [exact H|].
  apply map_Forall_insert_2; [|exact H].
  apply clean_join; [discriminate|]. now apply Forall_inv_tail in P.
Qed.

Lemma extractFrontMatter_clean content fm :
  extractFrontMatter content = Some fm ->
  map_Forall (fun _ v => clean v = true) fm.
Proof.
  unfold extractFrontMatter.
  destruct (matchFrontMatter content) as [yaml|]; [|discriminate].
  intros [= <-].
  pose proof (split_free newline yaml) as F. revert F.
  generalize (split newline yaml). intros lines F.
  assert (Hgen : forall acc : gmap string string,
            map_Forall (fun _ v => clean v = true) acc ->
            map_Forall (fun _ v => clean v = true)
                       (List.fold_left parseLine lines acc)).
  { induction lines as [|l lines IH]; intros acc Hacc; [exact Hacc|].
    apply Forall_cons_iff in F as [Fl Fls].
    simpl. apply IH; [exact Fls|]. now apply parseLine_clean. }
  apply Hgen. apply map_Forall_empty.
Qed.

Lemma digits_fuel_not_empty fuel n acc :
  acc <> "" -> digits_fuel fuel n acc <> "".
Proof.
  revert n acc. induction fuel as [|fuel IH]; intros n acc H; simpl;
    [exact H|].
  destruct (n <? 10); [discriminate | apply IH; discriminate].
Qed.

Lemma intToString_not_empty n : intToString n <> "".
Proof.
  unfold intToString, digits. destruct (n <? 0); [discriminate|].
  cbn [digits_fuel]. destruct (n <? 10); [discriminate|].
  apply digits_fuel_not_empty. discriminate.
Qed.

Lemma decode_roundTrippable_back content st d :
  decode content st = Some d ->
  forallb plainTag (tagList d) = true ->
  roundTrippable d = true
  /\ (exists x, created d = Some x /\ x <> "" /\ clean x = true)
  /\ (exists x, modified d = Some x /\ x <> "" /\ clean x = true).
Proof.
  unfold decode.
  destruct (extractFrontMatter content) as [fm|] eqn:Efm; [|discriminate].
  pose proof (extractFrontMatter_clean content fm Efm) as Hcl.
  assert (Hk : forall k, cleanIfSet (fm !! k) = true).
  { intros k. unfold cleanIfSet. destruct (truthy (fm !! k)) eqn:T; [|reflexivity].
    destruct (fm !! k) as [x|] eqn:E; [|discriminate]. exact (Hcl k x E). }
  assert (Hdef : forall k y, clean y = true ->
            exists x, orElse (fm !! k) (Some y) = Some x
                      /\ clean x = true /\ (y <> "" -> x <> "")).
  { intros k y Hc. unfold orElse. specialize (Hk k). unfold cleanIfSet in Hk.
    destruct (truthy (fm !! k)) eqn:T.
    - destruct (fm !! k) as [x|]; [|discriminate]. exists x.
      split; [reflexivity|]. split; [exact Hk|].
      intros _ ->. discriminate T.
    - now exists y. }
  unfold contactOfFrontMatter.
  destruct (truthy (fm !! "name")) eqn:En; simpl negb; cbv iota;
    [|discriminate].
  intros Hd Htags. injection Hd as Hd.
  assert (Hdigits : forall n, intToString n <> ""
                              /\ clean (intToString n) = true).
  { intros n. split; [apply intToString_not_empty|].
    apply noWs_clean, noWs_intToString. }
  destruct (Hdef "created" _ (proj2 (Hdigits (ctime st))))
    as (xc & Ec & Cc & Nc). specialize (Nc (proj1 (Hdigits (ctime st)))).
  destruct (Hdef "modified" _ (proj2 (Hdigits (mtime st))))
    as (xm & Em & Cm & Nm). specialize (Nm (proj1 (Hdigits (mtime st)))).
  destruct (Hdef "email" "" eq_refl) as (e & Ee & Ce & _).
  destruct (Hdef "phone" "" eq_refl) as (p & Ep & Cp & _).
  pose proof (Hk "name") as Hn. unfold cleanIfSet in Hn. rewrite En in Hn.
  destruct (fm !! "name") as [n|] eqn:Ename; [|discriminate].
  cbn [interp] in Hn. cbn [truthy] in En.
  rewrite Ee, Ep, Ec, Em in Hd.
  split; [|split; [exists xc | exists xm]; subst d; now repeat split].
  unfold roundTrippable. repeat (apply andb_true_iff; split);
    try exact Htags; subst d;
    cbn [name email phone company title created modified last_contacted
         next_contact contact_frequency interp];
    try apply Hk; try (now apply clean_singleLine).
  now rewrite En, Hn, Ce, Cp.
Qed.

End StableFacts.

(** X25: saving back what was read changes nothing.  For a contact
    decoded from any document whose tags, if any, are plain (not empty,
    no comma, no colon), the document written for it decodes, whatever
    the file's time stamps, to a contact with the same name, email,
    phone, created and modified and the same value for each of company,
    title, tags, last contact, next contact and frequency that is set;
    so the decoded contact is one the round trip preserves. *)
Theorem decode_encode_stable content st d st' :
  decode content st = Some d ->
  forallb plainTag (tagList d) = true ->
  roundTrippable d = true
  /\ exists d',
       decode (fileContent d) st' = Some d'
       /\ agreesOnFrontMatter d d'
       /\ created d' = created d /\ modified d' = modified d.
Proof.
  intros Hd Ht.
  destruct (decode_roundTrippable_back content st d Hd Ht)
    as (Hrt & (xc & Ec & Nc & Cc) & (xm & Em & Nm & Cm)).
  split; [exact Hrt|].
  destruct (decode_roundTrippable d st' Hrt) as [Hdec Hagree].
  exists (readBackContact d st'). split; [exact Hdec|]. split; [exact Hagree|].
  cbn [readBackContact created modified]. rewrite Ec, Em. cbn [interp].
  rewrite (decodeValue_clean xc Cc), (decodeValue_clean xm Cm).
  unfold orElse. now rewrite (truthy_not_empty xc Nc), (truthy_not_empty xm Nm).
Qed.

Lemma decode_encode_stable_witness :
  exists d',
    decode (fileContent (readBackContact annFull (mkStats 1000 2000)))
           (mkStats 3000 4000) = Some d'
    /\ name d' = Some "Ann Lee".
Proof.
  destruct (decode_encode_stable (fileContent annFull) (mkStats 1000 2000)
              (readBackContact annFull (mkStats 1000 2000))
              (mkStats 3000 4000))
    as (_ & d' & Hdec & (Hn & _) & _).
  - vm_compute. reflexivity.
  - vm_compute. reflexivity.
  - exists d'. split; [exact Hdec|]. rewrite Hn. vm_compute. reflexivity.
Defined.

Section EditFacts.

Variables (h : Host) (folder : string).

Lemma recalculated_keeps c :
  created (recalculated h c) = created c
  /\ modified (recalculated h c) = modified c
  /\ last_contacted (recalculated h c) = last_contacted c.
Proof.
  unfold recalculated.
  destruct (truthy (contact_frequency c) && truthy (last_contacted c));
    repeat split; reflexivity.
Qed.

Lemma singleLineFields_with_modified iso c :
  noWs iso = true ->
  singleLineFields c = true ->
  singleLineFields (with_modified (Some iso) c) = true.
Proof.
  intros Hiso Hc.
  apply singleLineFields_iff in Hc as (H & Hl & Hn & Hcr & _).
  apply singleLineFields_iff.
  split; [exact H|]. split; [exact Hl|]. split; [exact Hn|].
  split; [exact Hcr|]. now apply noWs_singleLine.
Qed.

End EditFacts.

(** X26: saving an edited contact whose file path does not change.
    With a name that is not blank, a phone, no line break in the values
    of the form, and the contact's file in a vault of distinct paths,
    the Save button rewrites that file in place: the paths of the vault
    and the file's creation time stay, its modification time is the
    clock's; the contact decoded from it has the clock reading printed
    by [toISOString] as modified, and its created and last contacted are
    those of the form whenever these are set and clean. *)
Theorem onClick_saves_edit h folder view m n o v d0 st0 :
  isEdit m = true ->
  name (contact m) = Some n -> nonblank n = true ->
  truthy (phone (contact m)) = true ->
  singleLineFields (contact m) = true ->
  orElse (originalName m) (Some n) = Some o ->
  filePath folder o = filePath folder n ->
  List.NoDup (List.map path_of v) ->
  getAbstractFileByPath v (filePath folder n)
  = Some (TFile (filePath folder n) d0 st0) ->
  let iso := toISOString (now h) in
  let st := mkStats (ctime st0) (now h) in
  exists v' content d l,
    snd (onClick h folder view m) v
    = (inr (Saved (if view then Some l else None)), v')
    /\ getAllContacts folder v' = (inr l, v')
    /\ List.map path_of v' = List.map path_of v
    /\ getAbstractFileByPath v' (filePath folder n)
       = Some (TFile (filePath folder n) content st)
    /\ decode content st = Some d
    /\ modified d = Some iso
    /\ (truthy (created (contact m)) = true ->
        cleanIfSet (created (contact m)) = true ->
        created d = created (contact m))
    /\ (truthy (last_contacted (contact m)) = true ->
        cleanIfSet (last_contacted (contact m)) = true ->
        last_contacted d = last_contacted (contact m)).
Proof.
  intros Hed Hn Hnb Hph Hsl Ho Hsame Hnd Hfile iso st.
  pose proof (toISOString_not_empty (now h)) as Hne. fold iso in Hne.
  pose proof (noWs_toISOString (now h)) as Hws. fold iso in Hws.
  set (c1 := recalculated h (contact m)).
  set (full := with_modified (Some iso) c1).
  destruct (recalculated_fields h (contact m)) as [Hn1 _]. fold c1 in Hn1.
  destruct (recalculated_keeps h (contact m)) as (Hc1 & _ & Hl1).
  fold c1 in Hc1, Hl1.
  assert (Hfull : singleLineFields full = true).
  { apply singleLineFields_with_modified; [exact Hws|].
    now apply singleLineFields_recalculated. }
  assert (Hnf : name full = Some n) by (cbn [full name with_modified]; now rewrite Hn1).
  assert (Hof : orElse (originalName m) (name full) = Some o)
    by now rewrite Hnf.
  destruct (modify_file h v _ d0 st0 (fileContent full) Hfile)
    as (v' & Hmod & Hnew & Hpaths & _).
  assert (Hrun : updateContact h folder full (originalName m) v = (inr tt, v')).
  { now rewrite (updateContact_same_path h folder full (originalName m) n o v
                   Hnf Hof Hsame), Hfile. }
  assert (Hnd' : List.NoDup (List.map path_of v')) by now rewrite Hpaths.
  pose proof (getAllContacts_spec folder v' Hnd') as Hall.
  assert (Hdec : decode (fileContent full) st = Some (readBackContact full st)).
  { rewrite (decode_fileContent full st Hfull), Hnf. cbn [interp].
    now rewrite (decodeValue_nonblank n Hnb). }
  pose proof (decodeValue_clean iso (noWs_clean iso Hws)) as Hdv.
  exists v', (fileContent full), (readBackContact full st). eexists.
  split; [|split; [exact Hall|split; [exact Hpaths|split; [exact Hnew|]]]].
  - unfold onClick. rewrite Hn, Hph. cbn [truthy negb orb].
    replace (negb (isEmpty n)) with true
      by (destruct n; [discriminate Hnb | reflexivity]).
    cbn [negb orb snd]. rewrite Hed. fold iso c1 full.
    unfold Obsidian.bind at 1. rewrite Hrun.
    destruct view; [|reflexivity].
    unfold Obsidian.bind. rewrite Hall. reflexivity.
  - split; [exact Hdec|].
    cbn [readBackContact created modified last_contacted full with_modified].
    rewrite Hc1, Hl1. cbn [interp]. rewrite Hdv.
    split; [unfold orElse; now rewrite (truthy_not_empty iso Hne)|].
    split.
    + intros Ht Hc. unfold cleanIfSet in Hc. rewrite Ht in Hc.
      rewrite (decodeValue_clean _ Hc). unfold orElse.
      destruct (created (contact m)) as [x|]; [|discriminate Ht].
      cbn [interp]. now rewrite Ht.
    + intros Ht Hc. now apply readBack_clean.
Qed.

Lemma onClick_saves_edit_witness :
  exists v' d,
    getAbstractFileByPath v' "Contacts/Ann-Lee.md" <> None
    /\ modified d = Some (toISOString (now utcHost)).
Proof.
  destruct (onClick_saves_edit utcHost "Contacts" false
              (mkModal annFull true (Some "Ann Lee")) "Ann Lee" "Ann Lee"
              annVault "first text" (mkStats 1000 2000))
    as (v' & content & d & l & _ & _ & _ & Hf & _ & Hm & _).
  - reflexivity.
  - reflexivity.
  - reflexivity.
  - reflexivity.
  - reflexivity.
  - reflexivity.
  - reflexivity.
  - vm_compute. repeat constructor; intros H; vm_compute in H; intuition discriminate.
  - reflexivity.
  - exists v', d. split; [|exact Hm].
    change "Contacts/Ann-Lee.md" with (filePath "Contacts" "Ann Lee").
    rewrite Hf. discriminate.
Defined.

(** * Part IV: the next contact, whatever the zone *)

Section ZoneFacts.

Variable h : Host.

Lemma fixedOffset_existsLocally x : fixedOffset h -> existsLocally h x.
Proof.
  intros Hfix. unfold existsLocally, LocalTime, UTC.
  rewrite (Hfix (x - LocalTZA h x false) true x false). lia.
Qed.

(** The year of a date advanced by one call. *)
Lemma year_after_advance t t' :
  1000 <= YearFromTime (LocalTime h t) <= 9997 ->
  LocalTime h t + 5 * msPerDay < LocalTime h t'
  < LocalTime h t + 368 * msPerDay ->
  1000 <= YearFromTime (LocalTime h t') <= 9999.
Proof.
  intros Hy Hb. apply year_range. apply (proj1 (year_range 1000 9997 _)) in Hy.
  pose proof (DayFromYear_step (9997 + 1)) as S1.
  pose proof (DayFromYear_step (9997 + 1 + 1)) as S2.
  replace (9999 + 1) with (9997 + 1 + 1 + 1) by lia.
  destruct (DaysInYear_leapFlag (9997 + 1)) as [L1 R1].
  destruct (DaysInYear_leapFlag (9997 + 1 + 1)) as [L2 R2].
  unfold msPerDay in *. lia.
Qed.

(** The lengths of the printed fields. *)
Lemma printed_lengths t :
  1000 <= YearFromTime (LocalTime h t) <= 9999 ->
  String.length (numberToString (getFullYear h (Some t))) = 4%nat
  /\ String.length (pad (plus (getMonth h (Some t)) 1)) = 2%nat
  /\ String.length (pad (getDate h (Some t))) = 2%nat
  /\ String.length (pad (getHours h (Some t))) = 2%nat
  /\ String.length (pad (getMinutes h (Some t))) = 2%nat.
Proof.
  intros Hy.
  destruct (local_fields (LocalTime h t)) as (HM & HD & _).
  cbv zeta in HM, HD.
  pose proof (DaysInMonth_length (YearFromTime (LocalTime h t)) _ HM) as Hl.
  pose proof (monthLength_bound (MonthFromTime (LocalTime h t))
                (leapFlag (YearFromTime (LocalTime h t))) HM
                (leapFlag_range _)) as Hb.
  destruct (clock_fields (LocalTime h t)) as (Hh & Hm & _).
  split; [now apply year_length|].
  repeat split; apply pad_length; lia.
Qed.

End ZoneFacts.

Lemma easternHost_ok : host_ok easternHost.
Proof.
  split; [|vm_compute; split; discriminate].
  intros t b. unfold easternHost, LocalTZA, easternTZA, msPerHour, msPerDay.
  destruct b;
    [destruct ((springForward2025 <=? t) && (t <? fallBack2025))
    |destruct ((springForward2025 - 4 * 3600000 <=? t)
               && (t <? fallBack2025 - 4 * 3600000))]; lia.
Qed.

Lemma utcHost_ok : host_ok utcHost.
Proof.
  split; [intros t b; unfold msPerDay; simpl; lia
         |vm_compute; split; discriminate].
Qed.

(** C2, as amended: for a non-empty [lastContacted] that [new Date]
    reads as a date in the local years 1000 to 9997 and a recognised
    frequency, the result has the shape YYYY-MM-DDTHH:mm, zero-padded,
    and denotes the local time, to the minute, of the advanced date: the
    time value that the zone gives for the local time aimed at, which
    is the target day at the local time of day of [lastContacted].  Its
    hour and minute are those of [lastContacted] in local time whenever
    the zone has the local time aimed at, as it always does where the
    offset never changes; a local time that a change of offset skips is
    shown moved by the change.  The clock of the host plays no part. *)
Theorem calculateNextContact_time_of_day h T f t :
  host_ok h -> T <> "" -> JsDate.parse h T = Some t -> In f frequencies ->
  1000 <= YearFromTime (LocalTime h t) <= 9997 ->
  exists u t' year month day hour minute out,
    unitOf f = Some u
    /\ advance h (Some t) f = Some (Some t')
    /\ t' = UTC h (advancedLocal h t u)
    /\ calculateNextContact h T f = Some out
    /\ out = year +:+ "-" +:+ month +:+ "-" +:+ day +:+ "T"
             +:+ hour +:+ ":" +:+ minute
    /\ year = numberToString (getFullYear h (Some t'))
    /\ month = pad (plus (getMonth h (Some t')) 1)
    /\ day = pad (getDate h (Some t'))
    /\ hour = pad (getHours h (Some t'))
    /\ minute = pad (getMinutes h (Some t'))
    /\ String.length year = 4%nat /\ String.length month = 2%nat
    /\ String.length day = 2%nat /\ String.length hour = 2%nat
    /\ String.length minute = 2%nat /\ String.length out = 16%nat
    /\ parseISO out = Some (false, minuteFloor (LocalTime h t'))
    /\ LocalTime h t'
       = advancedLocal h t u
         + (LocalTZA h t' true - LocalTZA h (advancedLocal h t u) false)
    /\ (existsLocally h (advancedLocal h t u) ->
        hour = pad (getHours h (Some t))
        /\ minute = pad (getMinutes h (Some t)))
    /\ (fixedOffset h -> existsLocally h (advancedLocal h t u))
    /\ forall h',
         (forall x isUTC, LocalTZA h' x isUTC = LocalTZA h x isUTC) ->
         legacyParse h' = legacyParse h ->
         calculateNextContact h' T f = Some out.
Proof.
  intros Hh HT Hp Hf Hy.
  pose proof (safeLocal_years h t Hy) as Hsafe.
  destruct (calculateNextContact_step h T f t Hh Hf HT Hp Hsafe)
    as (u & t' & Hu & Ha & Ht' & Hlt & Hc & Hb).
  pose proof (year_after_advance h t t' Hy Hb) as Hy'.
  destruct (printed_lengths h t' Hy') as (L1 & L2 & L3 & L4 & L5).
  destruct (parse_formatLocal_aux h t' Hh Hy') as (_ & Hiso & _).
  destruct (advance_safe h t f u Hh Hsafe Hu) as (_ & Hx & _ & HL & _).
  cbv zeta in Hx, HL. rewrite <- Ht' in HL.
  exists u, t', (numberToString (getFullYear h (Some t'))),
    (pad (plus (getMonth h (Some t')) 1)), (pad (getDate h (Some t'))),
    (pad (getHours h (Some t'))), (pad (getMinutes h (Some t'))),
    (formatLocal h (Some t')).
  split; [exact Hu|]. split; [exact Ha|]. split; [exact Ht'|].
  split; [exact Hc|]. split; [reflexivity|].
  repeat (split; [first [reflexivity | assumption]|]).
  split.
  { unfold formatLocal. rewrite !length_append, L1, L2, L3, L4, L5.
    reflexivity. }
  split; [exact Hiso|]. split; [exact HL|]. split; [|split].
  - intros Hex. unfold existsLocally in Hex. rewrite <- Ht' in Hex.
    destruct (clock_shift (LocalTime h t)
                (targetDay h t u - Day (LocalTime h t))) as [HH HMi].
    rewrite <- Hx, <- Hex in HH, HMi.
    unfold getHours, getMinutes. cbn [mbind option_bind].
    now rewrite HH, HMi.
  - now apply fixedOffset_existsLocally.
  - intros h' E1 E2.
    now rewrite (calculateNextContact_ignores_clock h h' E1 E2 T f).
Qed.

Lemma calculateNextContact_time_of_day_witness :
  host_ok easternHost
  /\ "2025-03-02T02:30" <> ""
  /\ JsDate.parse easternHost "2025-03-02T02:30" = Some 1740900600000
  /\ In "weekly" frequencies
  /\ 1000 <= YearFromTime (LocalTime easternHost 1740900600000) <= 9997
  /\ exists out,
       calculateNextContact easternHost "2025-03-02T02:30" "weekly" = Some out
       /\ String.length out = 16%nat.
Proof.
  assert (H2 : "2025-03-02T02:30" <> "") by discriminate.
  assert (H3 : JsDate.parse easternHost "2025-03-02T02:30" = Some 1740900600000)
    by (vm_compute; reflexivity).
  assert (H4 : In "weekly" frequencies) by (left; reflexivity).
  assert (H5 : 1000 <= YearFromTime (LocalTime easternHost 1740900600000) <= 9997)
    by (vm_compute; split; discriminate).
  split; [exact easternHost_ok|]. split; [exact H2|]. split; [exact H3|].
  split; [exact H4|]. split; [exact H5|].
  destruct (calculateNextContact_time_of_day easternHost "2025-03-02T02:30"
              "weekly" 1740900600000 easternHost_ok H2 H3 H4 H5)
    as (u & t' & year & month & day & hour & minute & out & _ & _ & _ & Hc
        & _ & _ & _ & _ & _ & _ & _ & _ & _ & _ & _ & Hlen & _).
  exists out. split; [exact Hc | exact Hlen].
Defined.

(** In a zone with daylight saving the local time aimed at may be one
    that the zone skips: a week after 02:30 on 2 March 2025 the clocks
    of the eastern zone go from 02:00 to 03:00, and the result shows
    03:30. *)
Lemma calculateNextContact_skipped_hour :
  calculateNextContact easternHost "2025-03-02T02:30" "weekly"
  = Some "2025-03-09T03:30"
  /\ ~ existsLocally easternHost (advancedLocal easternHost 1740900600000 (0, 0, 7))
  /\ calculateNextContact easternHost "2025-03-08T12:00" "weekly"
     = Some "2025-03-15T12:00"
  /\ calculateNextContact easternHost "2025-10-26T01:30" "weekly"
     = Some "2025-11-02T01:30".
Proof.
  split; [vm_compute; reflexivity|]. split; [|split; vm_compute; reflexivity].
  unfold existsLocally. vm_compute. discriminate.
Qed.

(** C8, as amended: for every non-empty [T] that [new Date] reads as a
    date more than 368 days from the ends of the range of time values,
    and every frequency, [calculateNextContact] returns the local date
    and time, printed field by field, of a date [t'] strictly later
    than [T]: the time value that the zone gives for the local time
    aimed at, which is the day that the host's field arithmetic
    (MakeDay) gives for the local date advanced by the unit of the
    frequency (7 days, 1 month, 3 months, 1 year), 7 to 366 days after
    the local day of [T], at the local time of day of [T].  When the
    zone has that local time, as it always does where the offset never
    changes, the result shows that day and that time of day, and the
    same day of the month aimed at whenever that day exists; where the
    offset never changes [t'] is a whole number of days after [T].
    When the local year of [t'] has four digits the result is in the
    date-time format and denotes the local minute of [t']. *)
Theorem calculateNextContact_advances h T f t :
  host_ok h -> T <> "" -> JsDate.parse h T = Some t -> In f frequencies ->
  safeLocal (LocalTime h t) ->
  exists u t' out,
    unitOf f = Some u
    /\ advance h (Some t) f = Some (Some t')
    /\ t' = UTC h (advancedLocal h t u)
    /\ t < t'
    /\ calculateNextContact h T f = Some out
    /\ out = numberToString (Some (YearFromTime (LocalTime h t')))
             +:+ "-" +:+ pad (Some (MonthFromTime (LocalTime h t') + 1))
             +:+ "-" +:+ pad (Some (DateFromTime (LocalTime h t')))
             +:+ "T" +:+ pad (Some (HourFromTime (LocalTime h t')))
             +:+ ":" +:+ pad (Some (MinFromTime (LocalTime h t')))
    /\ (1000 <= YearFromTime (LocalTime h t') <= 9999 ->
        String.length out = 16%nat
        /\ parseISO out = Some (false, minuteFloor (LocalTime h t')))
    /\ 7 <= targetDay h t u - Day (LocalTime h t) <= 366
    /\ (f = "weekly" -> targetDay h t u = Day (LocalTime h t) + 7)
    /\ (existsLocally h (advancedLocal h t u) ->
        Day (LocalTime h t') = targetDay h t u
        /\ TimeWithinDay (LocalTime h t') = TimeWithinDay (LocalTime h t)
        /\ landsOn h t u t')
    /\ (fixedOffset h ->
        existsLocally h (advancedLocal h t u)
        /\ t' = t + (targetDay h t u - Day (LocalTime h t)) * msPerDay).
Proof.
  intros Hh HT Hp Hf Hsafe.
  destruct (calculateNextContact_step h T f t Hh Hf HT Hp Hsafe)
    as (u & t' & Hu & Ha & Ht' & Hlt & Hc & Hb).
  destruct (targetDay_delta h t f u Hu) as (Hd & _ & Hw).
  destruct (advance_safe h t f u Hh Hsafe Hu) as (_ & _ & E & _ & _).
  cbv zeta in E. rewrite <- Ht' in E.
  exists u, t', (formatLocal h (Some t')).
  split; [exact Hu|]. split; [exact Ha|]. split; [exact Ht'|].
  split; [exact Hlt|]. split; [exact Hc|]. split; [reflexivity|].
  split; [|split; [exact Hd|split; [exact Hw|split]]].
  - intros Hy'.
    destruct (printed_lengths h t' Hy') as (L1 & L2 & L3 & L4 & L5).
    destruct (parse_formatLocal_aux h t' Hh Hy') as (_ & Hiso & _).
    split; [|exact Hiso].
    unfold formatLocal. rewrite !length_append, L1, L2, L3, L4, L5.
    reflexivity.
  - intros Hex. unfold existsLocally in Hex. rewrite <- Ht' in Hex.
    destruct (Day_MakeDate (targetDay h t u) _
                (TimeWithinDay_range (LocalTime h t))) as [HD HT'].
    fold (advancedLocal h t u) in HD, HT'. rewrite <- Hex in HD, HT'.
    split; [exact HD|]. split; [exact HT'|].
    exact (advance_landsOn h t f u t' Hu Hex).
  - intros Hfix. split; [now apply fixedOffset_existsLocally|].
    rewrite E, (Hfix (advancedLocal h t u) false t true). lia.
Qed.

Lemma calculateNextContact_advances_witness :
  host_ok utcHost
  /\ "2025-01-31T10:00" <> ""
  /\ JsDate.parse utcHost "2025-01-31T10:00" = Some 1738317600000
  /\ In "monthly" frequencies
  /\ safeLocal (LocalTime utcHost 1738317600000)
  /\ exists t',
       calculateNextContact utcHost "2025-01-31T10:00" "monthly"
       = Some "2025-03-03T10:00"
       /\ 1738317600000 < t'
       /\ JsDate.parse utcHost "2025-03-03T10:00" = Some t'.
Proof.
  assert (H2 : "2025-01-31T10:00" <> "") by discriminate.
  assert (H3 : JsDate.parse utcHost "2025-01-31T10:00" = Some 1738317600000)
    by (vm_compute; reflexivity).
  assert (H4 : In "monthly" frequencies) by (right; left; reflexivity).
  assert (H5 : safeLocal (LocalTime utcHost 1738317600000))
    by (vm_compute; split; discriminate).
  split; [exact utcHost_ok|]. split; [exact H2|]. split; [exact H3|].
  split; [exact H4|]. split; [exact H5|].
  destruct (calculateNextContact_advances utcHost "2025-01-31T10:00" "monthly"
              1738317600000 utcHost_ok H2 H3 H4 H5)
    as (u & t' & out & Hu & Ha & _ & Hlt & Hc & _).
  exists t'. split; [vm_compute; reflexivity|]. split; [exact Hlt|].
  assert (Ea : advance utcHost (Some 1738317600000) "monthly"
               = Some (Some 1740996000000)) by (vm_compute; reflexivity).
  rewrite Ea in Ha. injection Ha as <-. vm_compute. reflexivity.
Defined.

(** C8, as stated, fails at the end of the range of [Date]: the last
    day is a valid timestamp, a week later there is no date, and the
    result is not a date later than it but the fields of an invalid
    date. *)
Lemma calculateNextContact_beyond_last_day :
  JsDate.parse lastDayHost lastDay = Some maxTime
  /\ advance lastDayHost (Some maxTime) "weekly" = Some None
  /\ calculateNextContact lastDayHost lastDay "weekly"
     = Some "NaN-NaN-NaNTNaN:NaN".
Proof. repeat split; vm_compute; reflexivity. Qed.
